(** * operator-data-replace-inline: the token substitution engine

    A shallow embedding of [pkg/utils/utils.go] (manifest processor and
    modifier pipeline) and of the cache-path derivation of [pkg/git], together
    with the parts of the Go standard library they call ([strings], [bufio],
    [regexp], [encoding/base64], [strconv]).

    Go strings are byte sequences; they are modelled by [string] (a list of
    8-bit [ascii]).  Go [int] is modelled by [Z]. *)

From Stdlib Require Import ZArith NArith Ascii Lia.
From stdpp Require Import base option list strings gmap pretty.

Local Open Scope Z_scope.

(** ** Bytes and strings *)

Definition byte_of (n : nat) : ascii := ascii_of_nat n.

(** A string given by the decimal codes of its bytes. *)
Fixpoint bytes (l : list nat) : string :=
  match l with
  | [] => ""
  | n :: l' => String (byte_of n) (bytes l')
  end.

Definition LF : ascii := byte_of 10.
Definition CR : ascii := byte_of 13.
Definition newline : string := String LF "".
Definition dquote : string := String (byte_of 34) "".

(** [len(s)] *)
Definition len (s : string) : Z := Z.of_nat (String.length s).

(** [s[n:]] for [0 <= n]; the whole string is dropped when [n] exceeds its
    length (Go panics there; every use below stays in range). *)
Fixpoint drop_bytes (n : nat) (s : string) : string :=
  match n, s with
  | O, _ => s
  | S n', String _ s' => drop_bytes n' s'
  | S _, EmptyString => ""
  end.

(** [s[:n]] *)
Fixpoint take_bytes (n : nat) (s : string) : string :=
  match n, s with
  | O, _ => ""
  | S n', String a s' => String a (take_bytes n' s')
  | S _, EmptyString => ""
  end.

(** [s[i:j]] *)
Definition slice (s : string) (i j : nat) : string :=
  take_bytes (j - i) (drop_bytes i s).

Fixpoint rev_onto (s acc : string) : string :=
  match s with
  | EmptyString => acc
  | String a s' => rev_onto s' (String a acc)
  end.

Definition rev_string (s : string) : string := rev_onto s "".

(** Concatenation of a list of strings, in order. *)
Fixpoint concat_strings (l : list string) : string :=
  match l with
  | [] => ""
  | s :: l' => s +:+ concat_strings l'
  end.

(** Every byte of a string passes a test. *)
Fixpoint all_bytes (P : ascii -> bool) (s : string) : bool :=
  match s with
  | EmptyString => true
  | String a s' => P a && all_bytes P s'
  end.

Definition not_byte (b a : ascii) : bool := negb (Ascii.eqb a b).

(** ** Package [strings] *)

Module Strings.

(** [strings.HasPrefix] *)
Fixpoint HasPrefix (s prefix : string) {struct prefix} : bool :=
  match prefix with
  | EmptyString => true
  | String b p' =>
      match s with
      | String a s' => Ascii.eqb a b && HasPrefix s' p'
      | EmptyString => false
      end
  end.

(** [strings.Index]: the byte offset of the first occurrence, [-1] if none. *)
Fixpoint index_from (i : Z) (s substr : string) : Z :=
  if HasPrefix s substr then i
  else match s with
       | EmptyString => -1
       | String _ s' => index_from (i + 1) s' substr
       end.

Definition Index (s substr : string) : Z := index_from 0 s substr.

(** [strings.Contains] *)
Definition Contains (s substr : string) : bool := 0 <=? Index s substr.

(** [strings.LastIndex]: the offset of the last occurrence, [-1] if none. *)
Fixpoint last_index_from (i last : Z) (s substr : string) : Z :=
  let last' := if HasPrefix s substr then i else last in
  match s with
  | EmptyString => last'
  | String _ s' => last_index_from (i + 1) last' s' substr
  end.

Definition LastIndex (s substr : string) : Z := last_index_from 0 (-1) s substr.

(** The text before and after the first occurrence of [sep]. *)
Fixpoint cut (s sep : string) : option (string * string) :=
  if HasPrefix s sep then Some ("", drop_bytes (String.length sep) s)
  else match s with
       | EmptyString => None
       | String a s' =>
           match cut s' sep with
           | Some (before, after) => Some (String a before, after)
           | None => None
           end
       end.

Fixpoint split_fuel (fuel : nat) (s sep : string) : list string :=
  match fuel with
  | O => [s]
  | S fuel' =>
      match cut s sep with
      | None => [s]
      | Some (before, after) => before :: split_fuel fuel' after sep
      end
  end.

Fixpoint explode (s : string) : list string :=
  match s with
  | EmptyString => []
  | String a s' => String a "" :: explode s'
  end.

(** [strings.Split].  Every call in the package passes a one-byte separator;
    for the empty separator Go explodes the string into UTF-8 sequences, which
    is rendered here byte by byte. *)
Definition Split (s sep : string) : list string :=
  match sep with
  | EmptyString => explode s
  | _ => split_fuel (String.length s) s sep
  end.

(** [strings.Join] *)
Fixpoint Join (elems : list string) (sep : string) : string :=
  match elems with
  | [] => ""
  | [e] => e
  | e :: rest => e +:+ sep +:+ Join rest sep
  end.

(** [strings.Replace(s, old, new, n)] for a non-empty [old]: the first [n]
    non-overlapping occurrences are replaced, all of them when [n < 0].
    [skip] counts the bytes of a replaced occurrence still to be passed. *)
Fixpoint replace_from (old new : string) (n : Z) (skip : nat) (s : string) : string :=
  match s with
  | EmptyString => ""
  | String a s' =>
      match skip with
      | S k => replace_from old new n k s'
      | O =>
          if negb (n =? 0) && HasPrefix s old
          then new +:+ replace_from old new (n - 1) (String.length old - 1) s'
          else String a (replace_from old new n 0 s')
      end
  end.

(** For the empty [old] Go inserts [new] at the start and after each UTF-8
    sequence, at most [n] times ([n < 0]: everywhere). *)
Fixpoint replace_empty (new : string) (n : Z) (s : string) : string :=
  match s with
  | EmptyString => ""
  | String a s' =>
      String a (if n =? 0 then s' else new +:+ replace_empty new (n - 1) s')
  end.

Definition Replace (s old new : string) (n : Z) : string :=
  match old with
  | EmptyString => if n =? 0 then s else new +:+ replace_empty new (n - 1) s
  | _ => replace_from old new n 0 s
  end.

(** [strings.ReplaceAll] *)
Definition ReplaceAll (s old new : string) : string := Replace s old new (-1).

(** [count] copies of [s]. *)
Fixpoint copies (s : string) (count : nat) : string :=
  match count with
  | O => ""
  | S c => s +:+ copies s c
  end.

(** The panics of [strings.Repeat]: a negative count, a length that
    overflows [int], and a length that the runtime refuses to allocate
    ([makeslice: cap out of range], raised when the builder grows). *)
Inductive repeat_panic : Type :=
| NegativeRepeatCount
| RepeatCountOverflow
| MakesliceOutOfRange.

(** The largest [int] and the largest allocation of the runtime, on a
    64-bit platform. *)
Definition maxInt : Z := 2 ^ 63 - 1.
Definition maxAlloc : Z := 2 ^ 48.

(** [strings.Repeat].  An allocation that the runtime accepts is taken to
    succeed. *)
Definition Repeat (s : string) (count : Z) : string + repeat_panic :=
  if count =? 0 then inl ""
  else if count <? 0 then inr NegativeRepeatCount
  else if maxInt <? len s * count then inr RepeatCountOverflow
  else if maxAlloc <? len s * count then inr MakesliceOutOfRange
  else inl (copies s (Z.to_nat count)).

(** The white space of [unicode.IsSpace]: six ASCII bytes, and the UTF-8
    encodings of U+0085, U+00A0, U+1680, U+2000..U+200A, U+2028, U+2029,
    U+202F, U+205F and U+3000. *)
Definition asciiSpace (a : ascii) : bool :=
  match nat_of_ascii a with
  | 9%nat | 10%nat | 11%nat | 12%nat | 13%nat | 32%nat => true
  | _ => false
  end.

Definition unicodeSpaces : list string :=
  [ bytes [194; 133]; bytes [194; 160]; bytes [225; 154; 128];
    bytes [226; 128; 128]; bytes [226; 128; 129]; bytes [226; 128; 130];
    bytes [226; 128; 131]; bytes [226; 128; 132]; bytes [226; 128; 133];
    bytes [226; 128; 134]; bytes [226; 128; 135]; bytes [226; 128; 136];
    bytes [226; 128; 137]; bytes [226; 128; 138]; bytes [226; 128; 168];
    bytes [226; 128; 169]; bytes [226; 128; 175]; bytes [226; 129; 159];
    bytes [227; 128; 128] ]%nat.

(** Width in bytes of the white-space rune [s] starts with, if any; [spaces]
    lists the multi-byte encodings to look for. *)
Definition space_width (spaces : list string) (s : string) : option nat :=
  match s with
  | EmptyString => None
  | String a _ =>
      if asciiSpace a then Some 1%nat
      else String.length <$> List.find (HasPrefix s) spaces
  end.

Fixpoint trim_left (spaces : list string) (fuel : nat) (s : string) : string :=
  match fuel with
  | O => s
  | S fuel' =>
      match space_width spaces s with
      | Some w => trim_left spaces fuel' (drop_bytes w s)
      | None => s
      end
  end.

Definition TrimLeftSpace (s : string) : string :=
  trim_left unicodeSpaces (String.length s) s.

(** The last rune is read backwards, so the right end is trimmed on the
    reversed string with the reversed encodings. *)
Definition TrimRightSpace (s : string) : string :=
  rev_string (trim_left (rev_string <$> unicodeSpaces) (String.length s) (rev_string s)).

(** [strings.TrimSpace] *)
Definition TrimSpace (s : string) : string := TrimRightSpace (TrimLeftSpace s).

(** [strings.ToLower].  A text of ASCII bytes is lower-cased byte by byte.
    For a text with a byte outside ASCII Go maps [unicode.ToLower] over its
    runes, with the case tables of the Unicode version that the program is
    built with: [MapToLower] stands for [strings.Map(unicode.ToLower, s)]
    on such a text. *)
Class Unicode : Type := { MapToLower : string -> string }.

Definition lower_byte (a : ascii) : ascii :=
  let n := nat_of_ascii a in
  if (65 <=? n)%nat && (n <=? 90)%nat then ascii_of_nat (n + 32) else a.

Fixpoint lower_bytes (s : string) : string :=
  match s with
  | EmptyString => ""
  | String a s' => String (lower_byte a) (lower_bytes s')
  end.

(** No byte of the text reaches [utf8.RuneSelf]. *)
Definition isASCII (s : string) : bool :=
  all_bytes (fun a => (nat_of_ascii a <? 128)%nat) s.

Definition ToLower `{Unicode} (s : string) : string :=
  if isASCII s then lower_bytes s else MapToLower s.

End Strings.

(** ** Package [regexp]

    A backtracking matcher with the leftmost-first (Perl) preference order
    that Go's [regexp] implements.  It reads the text byte by byte.  Every
    pattern of this package delimits each run of [.] by an ASCII byte or by
    the end of the text, and an ASCII byte never lies inside a multi-byte
    UTF-8 sequence, so the bytewise reading finds the matches that Go's
    runewise reading finds. *)

Module Regexp.

Inductive charset : Type :=
| CsLit (a : ascii)                                  (* a literal byte *)
| CsAnyNotNL                                         (* [.] *)
| CsClass (negated : bool) (ranges : list (ascii * ascii)).

Definition in_range (a : ascii) (r : ascii * ascii) : bool :=
  (nat_of_ascii r.1 <=? nat_of_ascii a)%nat && (nat_of_ascii a <=? nat_of_ascii r.2)%nat.

Definition cs_match (cs : charset) (a : ascii) : bool :=
  match cs with
  | CsLit b => Ascii.eqb a b
  | CsAnyNotNL => negb (Ascii.eqb a LF)
  | CsClass neg ranges => xorb neg (existsb (in_range a) ranges)
  end.

(** The operators of [regexp/syntax] that the package's patterns use. *)
Inductive regex : Type :=
| OpEmptyMatch
| OpChar (cs : charset)
| OpConcat (r1 r2 : regex)
| OpAlternate (r1 r2 : regex)
| OpStar (greedy : bool) (r : regex)
| OpPlus (greedy : bool) (r : regex)
| OpQuest (greedy : bool) (r : regex)
| OpCapture (i : nat) (r : regex)
| OpBeginText
| OpEndText
| OpWordBoundary
| OpNoWordBoundary.

(** Perl classes. *)
Definition range (a b : nat) : ascii * ascii := (byte_of a, byte_of b).
Definition perl_s : list (ascii * ascii) :=
  [range 9 10; range 12 13; range 32 32].
Definition perl_d : list (ascii * ascii) := [range 48 57].
Definition perl_w : list (ascii * ascii) :=
  [range 48 57; range 65 90; range 95 95; range 97 122].

Definition lit (a : ascii) : regex := OpChar (CsLit a).
Definition any : regex := OpChar CsAnyNotNL.

(** A position in the text: the byte before it, its offset, and what
    follows. *)
Record cursor : Type := Cursor {
  prev : option ascii;
  pos : nat;
  rest : string
}.

Definition start_of (s : string) : cursor := Cursor None 0 s.

Definition advance (c : cursor) : option cursor :=
  match rest c with
  | EmptyString => None
  | String a s => Some (Cursor (Some a) (S (pos c)) s)
  end.

(** Capture registers, latest binding first: group, start, end. *)
Definition captures : Type := list (nat * (nat * nat)).

Fixpoint group_of (m : captures) (i : nat) : option (nat * nat) :=
  match m with
  | [] => None
  | (j, se) :: m' => if (i =? j)%nat then Some se else group_of m' i
  end.

Definition is_word (a : ascii) : bool := existsb (in_range a) perl_w.

Definition at_word_boundary (c : cursor) : bool :=
  let before := match prev c with Some a => is_word a | None => false end in
  let after := match rest c with String a _ => is_word a | EmptyString => false end in
  xorb before after.

Definition cont : Type := cursor -> captures -> option (cursor * captures).

Definition found : Type := option (cursor * captures).

(** A repetition of [step]: an iteration has to consume text, so the number
    of iterations is bounded by what is left of it.  The greedy form tries
    one more iteration first, the other form tries to go on first. *)
Fixpoint iterate (step : cursor -> captures -> cont -> found) (greedy : bool)
    (k : cont) (fuel : nat) (c : cursor) (m : captures) {struct fuel} : found :=
  match fuel with
  | O => k c m
  | S fuel' =>
      let again c' m' :=
        if (pos c <? pos c')%nat then iterate step greedy k fuel' c' m' else None in
      if greedy
      then match step c m again with Some x => Some x | None => k c m end
      else match k c m with Some x => Some x | None => step c m again end
  end.

(** [exec r c m k]: match [r] at [c], then continue with [k]; the first
    success in preference order wins. *)
Fixpoint exec (r : regex) (c : cursor) (m : captures) (k : cont) {struct r} : found :=
  match r with
  | OpEmptyMatch => k c m
  | OpChar cs =>
      match rest c with
      | String a s => if cs_match cs a then k (Cursor (Some a) (S (pos c)) s) m else None
      | EmptyString => None
      end
  | OpConcat r1 r2 => exec r1 c m (fun c' m' => exec r2 c' m' k)
  | OpAlternate r1 r2 =>
      match exec r1 c m k with Some x => Some x | None => exec r2 c m k end
  | OpQuest greedy r1 =>
      if greedy
      then match exec r1 c m k with Some x => Some x | None => k c m end
      else match k c m with Some x => Some x | None => exec r1 c m k end
  | OpStar greedy r1 =>
      iterate (exec r1) greedy k (String.length (rest c)) c m
  | OpPlus greedy r1 =>
      exec r1 c m (fun c' m' => iterate (exec r1) greedy k (String.length (rest c')) c' m')
  | OpCapture i r1 => exec r1 c m (fun c' m' => k c' ((i, (pos c, pos c')) :: m'))
  | OpBeginText => if (pos c =? 0)%nat then k c m else None
  | OpEndText => match rest c with EmptyString => k c m | _ => None end
  | OpWordBoundary => if at_word_boundary c then k c m else None
  | OpNoWordBoundary => if at_word_boundary c then None else k c m
  end.

Definition accept : cont := fun c m => Some (c, m).

Definition reject : cont := fun _ _ => None.

(** A cursor into a text of [n] bytes. *)
Definition cursor_in (n : nat) (c : cursor) : Prop :=
  (pos c + String.length (rest c) = n)%nat.

(** Two continuations agree from [c] on. *)
Definition agree_from (n : nat) (c : cursor) (k1 k2 : cont) : Prop :=
  forall c' m', cursor_in n c' -> (pos c <= pos c')%nat -> k1 c' m' = k2 c' m'.

(** A step looks at its continuation only at cursors further on in the
    same text. *)
Definition steps_forward (step : cursor -> captures -> cont -> found) : Prop :=
  forall n c m k1 k2, cursor_in n c -> agree_from n c k1 k2 -> step c m k1 = step c m k2.

(** A step fails when its continuation rejects everything. *)
Definition needs_continuation (step : cursor -> captures -> cont -> found) : Prop :=
  forall n c m, cursor_in n c -> step c m reject = None.

(** The cursor after the bytes [ws], read from offset [i]; [r] is what
    follows them. *)
Fixpoint cursor_after (ws : string) (p : option ascii) (i : nat) (r : string) : cursor :=
  match ws with
  | EmptyString => Cursor p i r
  | String a ws' => cursor_after ws' (Some a) (S i) r
  end.

(** The bytes of the class [\s]. *)
Definition is_perl_space (a : ascii) : bool := cs_match (CsClass false perl_s) a.

(** One match: the cursor at its end and its registers, group 0 included. *)
Definition match_at (r : regex) (c : cursor) : option (cursor * captures) :=
  match exec r c [] accept with
  | Some (c', m) => Some (c', (0%nat, (pos c, pos c')) :: m)
  | None => None
  end.

(** The leftmost match at or after the cursor (unanchored search). *)
Fixpoint search_from (r : regex) (p : option ascii) (i : nat) (s : string)
  : option (cursor * captures) :=
  match match_at r (Cursor p i s) with
  | Some x => Some x
  | None =>
      match s with
      | EmptyString => None
      | String a s' => search_from r (Some a) (S i) s'
      end
  end.

Definition search (r : regex) (c : cursor) : option (cursor * captures) :=
  search_from r (prev c) (pos c) (rest c).

(** [MatchString] *)
Definition MatchString (r : regex) (s : string) : bool :=
  match search r (start_of s) with Some _ => true | None => false end.

(** A match of the whole text, from its first byte to its last.  The
    package never asks for one; the definition serves to state what a full
    match would be. *)
Definition FullMatchString (r : regex) (s : string) : bool :=
  let at_end : cont :=
    fun c m => match rest c with EmptyString => Some (c, m) | _ => None end in
  match exec r (start_of s) [] at_end with Some _ => true | None => false end.

(** Number of capture groups. *)
Fixpoint NumSubexp (r : regex) : nat :=
  match r with
  | OpConcat r1 r2 | OpAlternate r1 r2 => Nat.max (NumSubexp r1) (NumSubexp r2)
  | OpStar _ r1 | OpPlus _ r1 | OpQuest _ r1 => NumSubexp r1
  | OpCapture i r1 => Nat.max i (NumSubexp r1)
  | _ => 0%nat
  end.

(** All successive matches, as Go's [allMatches] finds them: the search
    resumes where the last match ended; after an empty match it moves one
    position on (one byte here, one UTF-8 sequence in Go; no pattern of the
    package matches the empty text), and an empty match right after a match
    is dropped. *)
Fixpoint all_matches (r : regex) (fuel : nat) (c : option cursor)
    (prevMatchEnd : option nat) : list captures :=
  match fuel, c with
  | S fuel', Some c =>
      match search r c with
      | None => []
      | Some (c', m) =>
          if (pos c' =? pos c)%nat
          then
            let tail := all_matches r fuel' (advance c) (Some (pos c')) in
            if decide (Some (pos c') = prevMatchEnd) then tail else m :: tail
          else m :: all_matches r fuel' (Some c') (Some (pos c'))
      end
  | _, _ => []
  end.

(** The text of each group of a match; an unmatched group gives the empty
    string. *)
Definition submatches (r : regex) (s : string) (m : captures) : list string :=
  (fun i => match group_of m i with
            | Some (b, e) => slice s b e
            | None => ""
            end) <$> seq 0 (S (NumSubexp r)).

(** [FindAllStringSubmatch(s, -1)] *)
Definition FindAllStringSubmatch (r : regex) (s : string) : list (list string) :=
  submatches r s <$> all_matches r (S (S (String.length s))) (Some (start_of s)) None.

(** [ReplaceAllString(src, repl)] for a replacement text without [$]: each
    match is replaced, except an empty match right after a match; the search
    moves on by at least one position. *)
Fixpoint replace_all (r : regex) (repl src : string) (fuel : nat)
    (c : option cursor) (lastMatchEnd : nat) : string :=
  match fuel, c with
  | S fuel', Some c =>
      match search r c with
      | None => drop_bytes lastMatchEnd src
      | Some (c', m) =>
          let a0 := match group_of m 0 with Some (b, _) => b | None => pos c end in
          let a1 := pos c' in
          let copied := slice src lastMatchEnd a0 in
          let put := if (lastMatchEnd <? a1)%nat || (a0 =? 0)%nat then repl else "" in
          let next := if (a1 <? pos c + 1)%nat then advance c else Some c' in
          copied +:+ put +:+ replace_all r repl src fuel' next a1
      end
  | _, _ => drop_bytes lastMatchEnd src
  end.

Definition ReplaceAllString (r : regex) (src repl : string) : string :=
  replace_all r repl src (S (S (String.length src))) (Some (start_of src)) 0.

End Regexp.

(** ** Reading a pattern

    [regexp.Compile] for the fragment of the syntax that the package's own
    patterns are written in: literals, [.], [^], [$], the escapes for
    classes, anchors and punctuation, bracket classes of bytes and ranges,
    groups [(...)], [(?:...)], alternation, and [*], [+], [?] with their
    non-greedy forms.  A pattern outside the fragment (counted repetition,
    flags, named groups and classes, Unicode escapes, bytes outside ASCII) is
    reported as [CompileUnsupported], a pattern Go rejects as
    [CompileError]. *)

Module Syntax.
Import Regexp.

Inductive compiled : Type :=
| CompileOk (r : regex)
| CompileError
| CompileUnsupported.

(** Result of a parsing step: what was read, the text left, and the number
    of capture groups opened so far. *)
Inductive parsed (A : Type) : Type :=
| POk (a : A) (s : string) (n : nat)
| PError
| PUnsupported.
Arguments POk {A}.
Arguments PError {A}.
Arguments PUnsupported {A}.

Definition cat (r1 r2 : regex) : regex :=
  match r2 with
  | OpEmptyMatch => r1
  | _ => OpConcat r1 r2
  end.

Definition is_ascii_byte (a : ascii) : bool := (nat_of_ascii a <? 128)%nat.

Definition is_alnum (a : ascii) : bool :=
  existsb (in_range a) [range 48 57; range 65 90; range 97 122].

Definition is_digit (a : ascii) : bool := in_range a (range 48 57).

Definition is_repeat_op (a : ascii) : bool :=
  Ascii.eqb a "*" || Ascii.eqb a "+" || Ascii.eqb a "?".

(** The byte an escape stands for, if it stands for one. *)
Definition escaped_byte (a : ascii) : parsed ascii :=
  if Ascii.eqb a "t" then POk (byte_of 9) "" 0%nat
  else if Ascii.eqb a "n" then POk (byte_of 10) "" 0%nat
  else if Ascii.eqb a "v" then POk (byte_of 11) "" 0%nat
  else if Ascii.eqb a "f" then POk (byte_of 12) "" 0%nat
  else if Ascii.eqb a "r" then POk (byte_of 13) "" 0%nat
  else if Ascii.eqb a "a" then POk (byte_of 7) "" 0%nat
  else if negb (is_ascii_byte a) then PUnsupported
  else if negb (is_alnum a) then POk a "" 0%nat
  else if is_digit a || existsb (Ascii.eqb a) ["x"; "p"; "P"; "Q"; "E"; "C"]%char
  then PUnsupported
  else PError.

Definition perl_class (a : ascii) : option (bool * list (ascii * ascii)) :=
  if Ascii.eqb a "d" then Some (false, perl_d)
  else if Ascii.eqb a "D" then Some (true, perl_d)
  else if Ascii.eqb a "s" then Some (false, perl_s)
  else if Ascii.eqb a "S" then Some (true, perl_s)
  else if Ascii.eqb a "w" then Some (false, perl_w)
  else if Ascii.eqb a "W" then Some (true, perl_w)
  else None.

(** An escape outside a bracket class; [s] follows the backslash. *)
Definition parse_escape (s : string) (n : nat) : parsed regex :=
  match s with
  | EmptyString => PError
  | String a s' =>
      match perl_class a with
      | Some (neg, rs) => POk (OpChar (CsClass neg rs)) s' n
      | None =>
          if Ascii.eqb a "b" then POk OpWordBoundary s' n
          else if Ascii.eqb a "B" then POk OpNoWordBoundary s' n
          else if Ascii.eqb a "A" then POk OpBeginText s' n
          else if Ascii.eqb a "z" then POk OpEndText s' n
          else match escaped_byte a with
               | POk b _ _ => POk (lit b) s' n
               | PError => PError
               | PUnsupported => PUnsupported
               end
      end
  end.

(** One byte of a bracket class, escaped or not. *)
Definition class_byte (s : string) : parsed ascii :=
  match s with
  | EmptyString => PError
  | String a s' =>
      if negb (is_ascii_byte a) then PUnsupported
      else if Ascii.eqb a "\" then
        match s' with
        | EmptyString => PError
        | String b s'' =>
            match escaped_byte b with
            | POk c _ _ => POk c s'' 0%nat
            | PError => PError
            | PUnsupported => PUnsupported
            end
        end
      else POk a s' 0%nat
  end.

Definition starts_digit (s : string) : bool :=
  match s with
  | String b _ => is_digit b
  | EmptyString => false
  end.

Definition starts_perl_class (s : string) : bool :=
  match s with
  | String b _ => bool_decide (is_Some (perl_class b))
  | EmptyString => false
  end.

(** The items of a bracket class up to the closing bracket; [first] tells
    that no item has been read yet. *)
Fixpoint parse_class_items (fuel : nat) (first : bool) (s : string)
  : parsed (list (ascii * ascii)) :=
  let more (item : list (ascii * ascii)) (s' : string) :=
    match fuel with
    | O => PError
    | S fuel' =>
        match parse_class_items fuel' false s' with
        | POk items s'' _ => POk (item ++ items) s'' 0%nat
        | e => e
        end
    end in
  match s with
  | EmptyString => PError
  | String a s' =>
      if Ascii.eqb a "]" && negb first then POk [] s' 0%nat
      else if Ascii.eqb a "[" && Strings.HasPrefix s' ":" then PUnsupported
      else if Ascii.eqb a "\" && starts_perl_class s' then
        match s' with
        | String b s'' =>
            match perl_class b with
            | Some (false, rs) => more rs s''
            | _ => PUnsupported
            end
        | EmptyString => PError
        end
      else if Ascii.eqb a "-" && negb first && negb (Strings.HasPrefix s' "]")
      then PUnsupported
      else
        match class_byte s with
        | POk lo s1 _ =>
            match s1 with
            | String d (String e s2) =>
                if Ascii.eqb d "-" && negb (Ascii.eqb e "]") then
                  match class_byte (String e s2) with
                  | POk hi s3 _ =>
                      if (nat_of_ascii hi <? nat_of_ascii lo)%nat then PError
                      else more [(lo, hi)] s3
                  | PError => PError
                  | PUnsupported => PUnsupported
                  end
                else more [(lo, lo)] s1
            | _ => more [(lo, lo)] s1
            end
        | PError => PError
        | PUnsupported => PUnsupported
        end
  end.

(** A bracket class; [s] follows the opening bracket. *)
Definition parse_class (s : string) (n : nat) : parsed regex :=
  let (neg, s1) := match s with
                   | String a s' => if Ascii.eqb a "^" then (true, s') else (false, s)
                   | EmptyString => (false, s)
                   end in
  match parse_class_items (String.length s1) true s1 with
  | POk items s2 _ => POk (OpChar (CsClass neg items)) s2 n
  | PError => PError
  | PUnsupported => PUnsupported
  end.

(** A repetition operator after [r], with its non-greedy mark; a second
    operator in a row is an error, as in Go. *)
Definition parse_repeat (r : regex) (s : string) (n : nat) : parsed regex :=
  match s with
  | String a s1 =>
      if is_repeat_op a then
        let (greedy, s2) := match s1 with
                            | String b s' => if Ascii.eqb b "?" then (false, s') else (true, s1)
                            | EmptyString => (true, s1)
                            end in
        let r' := if Ascii.eqb a "*" then OpStar greedy r
                  else if Ascii.eqb a "+" then OpPlus greedy r
                  else OpQuest greedy r in
        match s2 with
        | String c s3 =>
            if is_repeat_op c then PError
            else if Ascii.eqb c "{" && starts_digit s3 then PUnsupported
            else POk r' s2 n
        | EmptyString => POk r' s2 n
        end
      else if Ascii.eqb a "{" && starts_digit s1 then PUnsupported
      else POk r s n
  | EmptyString => POk r s n
  end.

(** Alternations, sequences and atoms, by recursive descent. *)
Fixpoint parse_alt (fuel : nat) (s : string) (n : nat) : parsed regex :=
  match fuel with
  | O => PUnsupported
  | S fuel' =>
      match parse_seq fuel' s n with
      | POk r s1 n1 =>
          match s1 with
          | String a s2 =>
              if Ascii.eqb a "|" then
                match parse_alt fuel' s2 n1 with
                | POk r2 s3 n3 => POk (OpAlternate r r2) s3 n3
                | e => e
                end
              else POk r s1 n1
          | EmptyString => POk r s1 n1
          end
      | e => e
      end
  end
with parse_seq (fuel : nat) (s : string) (n : nat) : parsed regex :=
  match fuel with
  | O => PUnsupported
  | S fuel' =>
      match s with
      | EmptyString => POk OpEmptyMatch s n
      | String a _ =>
          if Ascii.eqb a "|" || Ascii.eqb a ")" then POk OpEmptyMatch s n
          else
            match parse_atom fuel' s n with
            | POk r s1 n1 =>
                match parse_repeat r s1 n1 with
                | POk r' s2 n2 =>
                    match parse_seq fuel' s2 n2 with
                    | POk r2 s3 n3 => POk (cat r' r2) s3 n3
                    | e => e
                    end
                | e => e
                end
            | e => e
            end
      end
  end
with parse_atom (fuel : nat) (s : string) (n : nat) : parsed regex :=
  match fuel with
  | O => PUnsupported
  | S fuel' =>
      match s with
      | EmptyString => PError
      | String a s1 =>
          if Ascii.eqb a "(" then
            match s1 with
            | String "?" (String ":" s2) =>
                match parse_alt fuel' s2 n with
                | POk r (String ")" s3) n3 => POk r s3 n3
                | POk _ _ _ => PError
                | e => e
                end
            | String "?" _ => PUnsupported
            | _ =>
                match parse_alt fuel' s1 (S n) with
                | POk r (String ")" s3) n3 => POk (OpCapture (S n) r) s3 n3
                | POk _ _ _ => PError
                | e => e
                end
            end
          else if Ascii.eqb a "[" then parse_class s1 n
          else if Ascii.eqb a "\" then parse_escape s1 n
          else if Ascii.eqb a "." then POk any s1 n
          else if Ascii.eqb a "^" then POk OpBeginText s1 n
          else if Ascii.eqb a "$" then POk OpEndText s1 n
          else if is_repeat_op a then PError
          else if Ascii.eqb a "{" && starts_digit s1 then PUnsupported
          else if negb (is_ascii_byte a) then PUnsupported
          else POk (lit a) s1 n
      end
  end.

(** [regexp.Compile] on the fragment. *)
Definition Compile (pattern : string) : compiled :=
  match parse_alt (3 * S (String.length pattern)) pattern 0 with
  | POk r EmptyString _ => CompileOk r
  | POk _ _ _ => CompileError
  | PError => CompileError
  | PUnsupported => CompileUnsupported
  end.

End Syntax.

(** ** Package [encoding/base64] *)

Module Base64.

Definition encodeStd : string :=
  "ABCDEFGHIJKLMNOPQRSTUVWXYZabcdefghijklmnopqrstuvwxyz0123456789+/".

Definition sextet (n : N) : ascii :=
  match String.get (N.to_nat (N.land n 63)) encodeStd with
  | Some a => a
  | None => "="%char
  end.

(** [base64.StdEncoding.EncodeToString]: three bytes give four symbols, the
    last group is padded with [=]. *)
Fixpoint EncodeToString (src : string) : string :=
  match src with
  | EmptyString => ""
  | String a EmptyString =>
      let v := N.shiftl (N_of_ascii a) 16 in
      String (sextet (N.shiftr v 18)) (String (sextet (N.shiftr v 12)) "==")
  | String a (String b EmptyString) =>
      let v := N.lor (N.shiftl (N_of_ascii a) 16) (N.shiftl (N_of_ascii b) 8) in
      String (sextet (N.shiftr v 18))
        (String (sextet (N.shiftr v 12)) (String (sextet (N.shiftr v 6)) "="))
  | String a (String b (String c rest)) =>
      let v := N.lor (N.lor (N.shiftl (N_of_ascii a) 16) (N.shiftl (N_of_ascii b) 8))
                     (N_of_ascii c) in
      String (sextet (N.shiftr v 18))
        (String (sextet (N.shiftr v 12))
           (String (sextet (N.shiftr v 6))
              (String (sextet v) (EncodeToString rest))))
  end.

End Base64.

(** ** Package [strconv] *)

Module Strconv.

Definition maxInt : Z := 2 ^ 63 - 1.

Definition digit_value (a : ascii) : option Z :=
  let n := nat_of_ascii a in
  if (48 <=? n)%nat && (n <=? 57)%nat then Some (Z.of_nat n - 48) else None.

Fixpoint digits_value (acc : Z) (s : string) : option Z :=
  match s with
  | EmptyString => Some acc
  | String a s' =>
      match digit_value a with
      | Some d => digits_value (10 * acc + d) s'
      | None => None
      end
  end.

(** [strconv.Atoi] on a 64-bit platform: the value and whether the
    conversion succeeded.  A syntax error gives 0, a value out of range gives
    the nearest bound. *)
Definition Atoi (s : string) : Z * bool :=
  let (neg, body) := match s with
                     | String "-" s' => (true, s')
                     | String "+" s' => (false, s')
                     | _ => (false, s)
                     end in
  match body with
  | EmptyString => (0, false)
  | _ =>
      match digits_value 0 body with
      | None => (0, false)
      | Some v =>
          if neg then (if v <=? maxInt + 1 then (- v, true) else (- (maxInt + 1), false))
          else (if v <=? maxInt then (v, true) else (maxInt, false))
      end
  end.

End Strconv.

(** ** Package [bufio]

    A [Scanner] with the split function [ScanLines] over an in-memory
    reader.  A line ends at a line feed or at the end of the text; one
    trailing carriage return is dropped from the token.  The scanner's
    buffer grows up to [MaxScanTokenSize] bytes: a line with that many bytes
    or more before its line feed stops the scan with [ErrTooLong], after the
    lines before it were delivered. *)

Module Bufio.

Inductive error : Type := ErrTooLong.

Definition MaxScanTokenSize : Z := 64 * 1024.

(** The lines of a text without their line feeds; a last line without a line
    feed counts when it is not empty. *)
Fixpoint raw_lines (s : string) : list string :=
  match s with
  | EmptyString => []
  | String a s' =>
      if Ascii.eqb a LF then "" :: raw_lines s'
      else match raw_lines s' with
           | [] => [String a ""]
           | l :: ls => String a l :: ls
           end
  end.

(** [dropCR] *)
Definition dropCR (data : string) : string :=
  match rev_string data with
  | String a r => if Ascii.eqb a CR then rev_string r else data
  | EmptyString => data
  end.

(** The tokens delivered by successive calls of [Scan], and [Err()] once
    [Scan] has returned false. *)
Fixpoint scan_tokens (maxTokenSize : Z) (lines : list string) : list string * option error :=
  match lines with
  | [] => ([], None)
  | l :: ls =>
      if maxTokenSize <=? len l then ([], Some ErrTooLong)
      else let (tokens, err) := scan_tokens maxTokenSize ls in (dropCR l :: tokens, err)
  end.

Definition Scan (text : string) : list string * option error :=
  scan_tokens MaxScanTokenSize (raw_lines text).

(** The lines of a text as tokens, whatever their length. *)
Definition lines (text : string) : list string := dropCR <$> raw_lines text.

End Bufio.

(** ** Package [utils] *)

Module utils.
Import Regexp.

(** *** Constants and compiled patterns *)

Definition lineGenericRegexPattern : string :=
  "\${\s*(.+?):(?:.+?)\s*(\|\s*.+?)?\s*}\s*(\|\s*.+)?".

Definition annotationConfigType : string := "datareplaceinline/config-type".
Definition vaultHandler : string := "vault".
Definition gitHandler : string := "git".

(** [regexp.MustCompile] for the patterns written in the package; all of
    them compile. *)
Definition MustCompile (pattern : string) : regex :=
  match Syntax.Compile pattern with
  | Syntax.CompileOk r => r
  | _ => OpEmptyMatch
  end.

Definition lineRegex : regex :=
  Eval vm_compute in MustCompile lineGenericRegexPattern.

Definition regexCommentLine : regex :=
  Eval vm_compute in MustCompile "^\s*#.*".

Definition regexIndentModifier : regex :=
  Eval vm_compute in MustCompile "\bindent(\d+)\b".

Definition regexBase64Modifier : regex :=
  Eval vm_compute in MustCompile "\bbase64\b".

(** The three patterns with an argument admit a quote, [dquote] or ['],
    on either side of it. *)
Definition argumentPattern (name : string) : string :=
  name +:+ "\s*\(\s*[" +:+ dquote +:+ "']?(.+?)[" +:+ dquote +:+ "']?\s*\)".

Definition regexSelectModifier : regex :=
  Eval vm_compute in MustCompile (argumentPattern "select").

Definition regexDictModifier : regex :=
  Eval vm_compute in MustCompile (argumentPattern "dict").

Definition regexDefaultModifier : regex :=
  Eval vm_compute in MustCompile (argumentPattern "default").

(** The pattern compiled inside [indent]. *)
Definition regexLeadingSpace : regex :=
  Eval vm_compute in MustCompile "^\s+".

(** *** Data *)

(** [corev1.Secret], as far as the package reads it.  A nil annotation map
    is [None]. *)
Record Secret : Type := {
  Name : string;
  Annotations : option (gmap string string);
  Data : gmap string string
}.

(** [K8sUtil], as far as [ProcessManifest] reads and writes it; the clients
    it holds are the collaborators of the section below. *)
Record K8sUtil : Type := {
  RawManifest : string;
  ProcessedManifest : string
}.

(** The errors [ProcessManifest] returns. *)
Inductive error : Type :=
| ErrClient (msg : string)                          (* from the typed client *)
| ErrNoAnnotations (nameSecret : string)
| ErrAnnotationNotFound (nameSecret : string)
| ErrTypeUnknown (nameSecret : string)
| ErrInLine (lineNumber : Z) (msg : string)         (* from a handler *)
| ErrModifierUnknown (modifier : string) (lineNumber : Z)
| ErrScanner (e : Bufio.error).

(** [err.Error()] *)
Definition Error (e : error) : string :=
  match e with
  | ErrClient msg => msg
  | ErrNoAnnotations n => "secret " +:+ n +:+ " does not provide annotations"
  | ErrAnnotationNotFound n =>
      "secret " +:+ n +:+ " annotation " +:+ dquote +:+ annotationConfigType
        +:+ dquote +:+ " not found"
  | ErrTypeUnknown n =>
      "annotation type " +:+ dquote +:+ annotationConfigType +:+ dquote
        +:+ " unknown in secret " +:+ n
  | ErrInLine l msg => "error in line " +:+ pretty l +:+ ": " +:+ msg
  | ErrModifierUnknown m l =>
      "modifier " +:+ dquote +:+ m +:+ dquote +:+ " unknown in line " +:+ pretty l
  | ErrScanner Bufio.ErrTooLong => "bufio.Scanner: token too long"
  end.

(** The line number an error was built with. *)
Definition lineOf (e : error) : option Z :=
  match e with
  | ErrInLine l _ | ErrModifierUnknown _ l => Some l
  | _ => None
  end.

(** Run-time panics. *)
Inductive panic : Type :=
| IndexOutOfRange (index length : Z)
| RegexpCompile (pattern : string)
| RepeatPanic (p : Strings.repeat_panic).

(** How a call ends: with a value, with an error, or in a panic. *)
Inductive outcome (A : Type) : Type :=
| Ret (a : A)
| Fail (e : error)
| Panic (p : panic).
Arguments Ret {A}.
Arguments Fail {A}.
Arguments Panic {A}.

(** A value with an error, as Go functions return them. *)
Inductive result (A : Type) : Type :=
| Ok (a : A)
| Err (msg : string).
Arguments Ok {A}.
Arguments Err {A}.

(** The interface [Handler]; a call may change the world outside (network,
    file system). *)
Record Handler (World : Type) : Type := {
  GetValueFromRegex : string -> Secret -> World -> result string * World
}.
Arguments GetValueFromRegex {World}.

(** [l[i]] on a slice of strings *)
Definition at_index (l : list string) (i : nat) : outcome string :=
  match l !! i with
  | Some x => Ret x
  | None => Panic (IndexOutOfRange (Z.of_nat i) (Z.of_nat (length l)))
  end.

(** [re.FindAllStringSubmatch(s, -1)[0][1]] *)
Definition first_argument (re : regex) (s : string) : outcome string :=
  match FindAllStringSubmatch re s with
  | m :: _ => at_index m 1
  | [] => Panic (IndexOutOfRange 0 0)
  end.

(** *** Predicates on lines *)

Definition isCommentedLine (line : string) : bool :=
  MatchString regexCommentLine line.

Definition foundLine (line : string) : bool :=
  MatchString lineRegex line.

(** *** Modifiers *)

Definition modifierExists (modifier : string) : bool :=
  MatchString regexIndentModifier modifier ||
  MatchString regexBase64Modifier modifier ||
  MatchString regexSelectModifier modifier ||
  MatchString regexDictModifier modifier ||
  MatchString regexDefaultModifier modifier.

Definition encodingBase64 (str : string) : string := Base64.EncodeToString str.

(** The loop of [indent] over the lines of the value. *)
Fixpoint indent_lines (lines : list string) (n : Z) (output : string) : outcome string :=
  match lines with
  | [] => Ret output
  | line :: rest =>
      let line := ReplaceAllString regexLeadingSpace line "" in
      match Strings.Repeat " " n with
      | inl blanks => indent_lines rest n (output +:+ (blanks +:+ line +:+ newline))
      | inr p => Panic (RepeatPanic p)
      end
  end.

(** [indent]: the scanner's error is not looked at. *)
Definition indent (line : string) (n : Z) : outcome string :=
  match indent_lines (Bufio.Scan line).1 n "" with
  | Ret output =>
      Ret (if 1 <? len output
           then take_bytes (String.length output - 1) output
           else output)
  | Fail e => Fail e
  | Panic p => Panic p
  end.

Definition defaultValue (modifier : string) : outcome string :=
  first_argument regexDefaultModifier modifier.

(** The loop of [selectDictData] over the elements of the value. *)
Fixpoint selectDictData_loop (d : list string) (keySelected dat : string) : outcome string :=
  match d with
  | [] => Ret dat
  | di :: rest =>
      let tmp := Strings.TrimSpace di in
      let keyValue := Strings.Split tmp "=" in
      match at_index keyValue 0 with
      | Ret k0 =>
          match at_index keyValue 1 with
          | Ret v1 =>
              let k := Strings.TrimSpace k0 in
              let v := Strings.TrimSpace v1 in
              if String.eqb k keySelected then Ret v
              else selectDictData_loop rest keySelected dat
          | Fail e => Fail e
          | Panic p => Panic p
          end
      | Fail e => Fail e
      | Panic p => Panic p
      end
  end.

Definition selectDictData (dat modifier : string) : outcome string :=
  match first_argument regexDictModifier modifier with
  | Ret keySelected => selectDictData_loop (Strings.Split dat ",") keySelected dat
  | Fail e => Fail e
  | Panic p => Panic p
  end.

Section Modifiers.

(** [regexp.MustCompile] applied to a pattern that the manifest supplies,
    given by the [MatchString] of the compiled pattern; [None] where the
    pattern does not compile, which makes [MustCompile] panic. *)
Variable compileArgument : string -> option (string -> bool).

(** The loop of [selectData] over the elements of the value. *)
Fixpoint selectData_loop (d : list string) (re : string -> bool) (dat : string) : string :=
  match d with
  | [] => dat
  | di :: rest =>
      let tmp := Strings.TrimSpace di in
      if re tmp then tmp else selectData_loop rest re dat
  end.

Definition selectData (dat modifier : string) : outcome string :=
  match first_argument regexSelectModifier modifier with
  | Ret pattern =>
      match compileArgument pattern with
      | Some re => Ret (selectData_loop (Strings.Split dat ",") re dat)
      | None => Panic (RegexpCompile pattern)
      end
  | Fail e => Fail e
  | Panic p => Panic p
  end.

(** One turn of the loop of [processModifiers]. *)
Definition applyModifier (dat mj : string) : outcome string :=
  let m := Strings.TrimSpace mj in
  if 0 <? len m then
    if MatchString regexBase64Modifier m then Ret (encodingBase64 dat)
    else if MatchString regexSelectModifier m then selectData dat m
    else if MatchString regexDictModifier m then selectDictData dat m
    else if MatchString regexDefaultModifier m then defaultValue m
    else if MatchString regexIndentModifier m then
      match first_argument regexIndentModifier m with
      | Ret digits => indent dat (Strconv.Atoi digits).1
      | Fail e => Fail e
      | Panic p => Panic p
      end
    else Ret dat
  else Ret dat.

Fixpoint processModifiers_loop (modifiers : list string) (dat : string) : outcome string :=
  match modifiers with
  | [] => Ret dat
  | mj :: rest =>
      match applyModifier dat mj with
      | Ret dat' => processModifiers_loop rest dat'
      | Fail e => Fail e
      | Panic p => Panic p
      end
  end.

Definition processModifiers (dat modifier : string) : outcome string :=
  let modifier := Strings.ReplaceAll modifier " " "" in
  let modifiers := Strings.Split modifier "|" in
  processModifiers_loop modifiers dat.

End Modifiers.

(** *** The manifest processor *)

Section Processor.
Context {unicode : Strings.Unicode}.

(** The world outside the process: the cluster's secrets, the Vault server,
    the Git remote and the file system. *)
Variable World : Type.

Variable compileArgument : string -> option (string -> bool).

(** [os.Getenv] *)
Variable Getenv : string -> string.

(** [TypedClient.Get] for the secret with a namespace and a name. *)
Variable clientGet : string -> string -> World -> result Secret * World.

(** [&vault.Handler{}] and [&git.Handler{}]. *)
Variable vault_Handler : Handler World.
Variable git_Handler : Handler World.

(** A computation that reads and changes the world. *)
Definition M (A : Type) : Type := World -> outcome A * World.

Definition ret {A : Type} (a : A) : M A := fun w => (Ret a, w).

Definition fail {A : Type} (e : error) : M A := fun w => (Fail e, w).

Definition lift {A : Type} (o : outcome A) : M A := fun w => (o, w).

Definition bind {A B : Type} (c : M A) (k : A -> M B) : M B :=
  fun w =>
    match c w with
    | (Ret a, w') => k a w'
    | (Fail e, w') => (Fail e, w')
    | (Panic p, w') => (Panic p, w')
    end.

Notation "'let*' x ':=' c 'in' k" := (bind c (fun x => k))
  (at level 10, x name, c at level 100, k at level 200).

Definition getKubernetesSecret (namespace name : string) : M Secret :=
  fun w =>
    match clientGet namespace name w with
    | (Ok secret, w') => (Ret secret, w')
    | (Err msg, w') => (Fail (ErrClient msg), w')
    end.

(** The checks on the annotations and the [switch] on the type. *)
Definition selectHandler (nameSecret : string) (secret : Secret) : M (Handler World) :=
  match Annotations secret with
  | None => fail (ErrNoAnnotations nameSecret)
  | Some annotations =>
      match annotations !! annotationConfigType with
      | None => fail (ErrAnnotationNotFound nameSecret)
      | Some configType =>
          let t := Strings.ToLower configType in
          if String.eqb t vaultHandler then ret vault_Handler
          else if String.eqb t gitHandler then ret git_Handler
          else fail (ErrTypeUnknown nameSecret)
      end
  end.

Definition callHandler (handler : Handler World) (pattern : string)
    (secret : Secret) (lineNumber : Z) : M string :=
  fun w =>
    match GetValueFromRegex handler pattern secret w with
    | (Ok val, w') => (Ret val, w')
    | (Err msg, w') => (Fail (ErrInLine lineNumber msg), w')
    end.

(** A modifier chain is checked, then applied. *)
Definition checkedModifiers (dat modifier : string) (lineNumber : Z) : M string :=
  if negb (modifierExists modifier)
  then fail (ErrModifierUnknown modifier lineNumber)
  else lift (processModifiers compileArgument dat modifier).

(** One turn of the loop of [processLine], for the match [m]; the result is
    the value of [newLine], which is also that of [line], after the turn. *)
Definition processMatch (lineNumber : Z) (line : string) (m : list string) : M string :=
  let pattern := nth 0 m "" in
  let nameSecret := nth 1 m "" in
  let dataModifier := nth 2 m "" in
  let lineModifier := nth 3 m "" in
  let* secret := getKubernetesSecret (Getenv "NAMESPACE") nameSecret in
  let* handler := selectHandler nameSecret secret in
  let* val := callHandler handler pattern secret lineNumber in
  let* val := (if 0 <? len dataModifier
               then checkedModifiers val dataModifier lineNumber
               else ret val) in
  let newLine := Strings.Replace line pattern val 1 in
  let line := newLine in
  if 0 <? len lineModifier then
    let* val := checkedModifiers line lineModifier lineNumber in
    let newLine := Strings.Replace line line val 1 in
    ret newLine
  else ret newLine.

Fixpoint processMatches (lineNumber : Z) (res : list (list string))
    (line newLine : string) : M string :=
  match res with
  | [] => ret newLine
  | m :: res' =>
      let* newLine := processMatch lineNumber line m in
      processMatches lineNumber res' newLine newLine
  end.

Definition processLine (line : string) (lineNumber : Z) : M string :=
  processMatches lineNumber (FindAllStringSubmatch lineRegex line) line "".

(** The body of the loop of [ProcessManifest] up to the line feed: what the
    line adds to the output. *)
Definition processScannedLine (line : string) (lineNumber : Z) : M string :=
  if isCommentedLine line then ret line
  else if foundLine line then
    let* lineTmp := processLine line lineNumber in
    if foundLine lineTmp then
      let* lineTmp02 := processLine lineTmp lineNumber in
      ret lineTmp02
    else ret lineTmp
  else ret line.

(** The loop [for scanner.Scan()] over the tokens the scanner delivers. *)
Fixpoint scanLoop (lines : list string) (lineNumber : Z) (output : string) : M string :=
  match lines with
  | [] => ret output
  | line :: rest =>
      let lineNumber := lineNumber + 1 in
      let* text := processScannedLine line lineNumber in
      scanLoop rest lineNumber ((output +:+ text) +:+ newline)
  end.

(** [ProcessManifest]: the receiver after the call, and how the call ended.
    The scanner reads from memory, so its tokens and its error are fixed by
    the text of the manifest. *)
Definition ProcessManifest (k8s : K8sUtil) (w : World) : (K8sUtil * outcome ()) * World :=
  let (lines, scanErr) := Bufio.Scan (RawManifest k8s) in
  match scanLoop lines 0 "" w with
  | (Ret output, w') =>
      match scanErr with
      | Some err => ((k8s, Fail (ErrScanner err)), w')
      | None =>
          (({| RawManifest := RawManifest k8s; ProcessedManifest := output |}, Ret ()), w')
      end
  | (Fail e, w') => ((k8s, Fail e), w')
  | (Panic p, w') => ((k8s, Panic p), w')
  end.

End Processor.

Arguments ret {World A}.
Arguments fail {World A}.
Arguments lift {World A}.
Arguments bind {World A B}.
Arguments getKubernetesSecret {World}.
Arguments selectHandler {unicode World}.
Arguments callHandler {World}.
Arguments checkedModifiers {World}.
Arguments processMatch {unicode World}.
Arguments processMatches {unicode World}.
Arguments processLine {unicode World}.
Arguments processScannedLine {unicode World}.
Arguments scanLoop {unicode World}.
Arguments ProcessManifest {unicode World}.

(** *** The cluster *)

(** [schema.GroupVersionKind] and [schema.GroupVersionResource] *)
Record GroupVersionKind : Type := {
  Group : string;
  Version : string;
  Kind : string
}.

Record GroupVersionResource : Type := {
  ResourceGroup : string;
  ResourceVersion : string;
  Resource : string
}.

Record OwnerReference : Type := {
  OwnerAPIVersion : string;
  OwnerKind : string;
  OwnerName : string;
  OwnerUID : string
}.

(** [unstructured.Unstructured]: its name, its owner references, and the
    rest of its content. *)
Record Unstructured : Type := {
  GetName : string;
  GetOwnerReferences : list OwnerReference;
  Content : string
}.

Definition SetOwnerReferences (obj : Unstructured) (references : list OwnerReference)
  : Unstructured :=
  {| GetName := GetName obj; GetOwnerReferences := references; Content := Content obj |}.

(** The fields of [K8sUtil] that [DecodeManifest] sets. *)
Record Decoded : Type := {
  GVK : GroupVersionKind;
  GVR : GroupVersionResource;
  Object : Unstructured
}.

Definition getGVR {unicode : Strings.Unicode} (gvk : GroupVersionKind) : GroupVersionResource :=
  {| ResourceGroup := Group gvk;
     ResourceVersion := Version gvk;
     Resource := Strings.ToLower (Kind gvk +:+ "s") |}.

Definition AddOwnerReference (typeMeta : string * string) (objectMeta : string * string)
    (k8s : Decoded) : Decoded :=
  let references :=
    [ {| OwnerAPIVersion := typeMeta.1; OwnerKind := typeMeta.2;
         OwnerName := objectMeta.1; OwnerUID := objectMeta.2 |} ] in
  {| GVK := GVK k8s; GVR := GVR k8s; Object := SetOwnerReferences (Object k8s) references |}.

(** What [Get] of a client returns: the object, a not-found error, or
    another error. *)
Inductive fetched (A : Type) : Type :=
| Fetched (obj : A)
| NotFound (msg : string)
| FetchError (msg : string).
Arguments Fetched {A}.
Arguments NotFound {A}.
Arguments FetchError {A}.

Section Cluster.
Context {unicode : Strings.Unicode}.

Variable World : Type.

(** The decoding serializer: the object and its kind. *)
Variable Decode : string -> result (Unstructured * GroupVersionKind).

(** [crtl.GetConfig] and [dynamic.NewForConfig]: the error, if any. *)
Variable getDynamicClient : World -> option string.

(** [DynamicClient.Resource(gvr).Namespace(namespace)]: [Get] with a name
    (the object may be nil), [Create] and [Update] with an object. *)
Variable dynamicGet :
  GroupVersionResource -> string -> string -> World -> fetched (option Unstructured) * World.
Variable dynamicCreate :
  GroupVersionResource -> string -> Unstructured -> World -> option string * World.
Variable dynamicUpdate :
  GroupVersionResource -> string -> Unstructured -> World -> option string * World.

Definition NewK8sUtil (rawManifest : string) (w : World) : result K8sUtil :=
  match getDynamicClient w with
  | Some err => Err err
  | None => Ok {| RawManifest := rawManifest; ProcessedManifest := "" |}
  end.

Definition DecodeManifest (k8s : K8sUtil) : result Decoded :=
  match Decode (ProcessedManifest k8s) with
  | Err err => Err err
  | Ok (obj, gvk) => Ok {| GVK := gvk; GVR := getGVR gvk; Object := obj |}
  end.

Definition ResourceExists (k8s : Decoded) (namespace : string) (w : World)
  : result bool * World :=
  match dynamicGet (GVR k8s) namespace (GetName (Object k8s)) w with
  | (NotFound _, w') => (Ok false, w')
  | (FetchError err, w') => (Err err, w')
  | (Fetched obj, w') => (Ok (bool_decide (is_Some obj)), w')
  end.

Definition createUpdateObject (action : string) (k8s : Decoded) (namespace : string)
    (w : World) : option string * World :=
  if String.eqb action "create"
  then dynamicCreate (GVR k8s) namespace (Object k8s) w
  else dynamicUpdate (GVR k8s) namespace (Object k8s) w.

Definition CreateResource : Decoded -> string -> World -> option string * World :=
  createUpdateObject "create".

Definition UpdateResource : Decoded -> string -> World -> option string * World :=
  createUpdateObject "update".

End Cluster.

Arguments NewK8sUtil {World}.
Arguments ResourceExists {World}.
Arguments createUpdateObject {World}.
Arguments CreateResource {World}.
Arguments UpdateResource {World}.

End utils.

(** ** Run-time panics of the handlers *)

Module runtime.

Inductive panic : Type :=
| IndexOutOfRange (index length : Z)          (* [l[i]] *)
| SliceBoundsOutOfRange (bound length : Z)    (* [s[:n]] *)
| InterfaceConversion.                        (* [v.(T)] *)

(** A call returns, or panics. *)
Inductive ending (A : Type) : Type :=
| Returns (a : A)
| Panics (p : panic).
Arguments Returns {A}.
Arguments Panics {A}.

(** [fmt.Sprintf("%q")]-like quoting, as the messages of the handlers
    write it by hand: the text between two [dquote]. *)
Definition quoted (s : string) : string := dquote +:+ s +:+ dquote.

End runtime.

(** ** Package [vault] *)

Module vault.
Import Regexp utils runtime.

Definition serverField : string := "server".
Definition credentialsTypeField : string := "credentials.type".
Definition credentialsTokenField : string := "credentials.token".

(** The pattern compiled inside [GetValueFromRegex]. *)
Definition vaultRegex : regex :=
  Eval vm_compute in MustCompile "\${\s*(?:.+?):(.+?)@(.+?)\s*(?:\|\s*.+?)?\s*}".

(** Decoded JSON values ([interface{}]), as far as the type assertions of
    [getSecret] tell them apart: the values of the keys of a secret, and the
    entries of [Data]. *)
Inductive value : Type :=
| VString (s : string)
| VOther.                                     (* nil, a number, an object, ... *)

Inductive json : Type :=
| JNull
| JObject (fields : gmap string value)
| JOther.                                     (* a string, a number, an array, ... *)

(** [api.Secret], as far as the package reads it. *)
Record api_Secret : Type := { api_Data : gmap string json }.

(** The messages of the errors. *)
Definition errFormat (pattern : string) : string :=
  "format Vault data unknown: " +:+ pattern
    +:+ ". Must be ${name-secret:path-vault-secret@key}".

Definition errDataNotFound (field nameSecret : string) : string :=
  "data " +:+ quoted field +:+ " not found in vault secret " +:+ nameSecret.

Definition errTypeNotAllowed (credType nameSecret : string) : string :=
  "credentials type " +:+ quoted credType +:+ " not allowed in vault secret " +:+ nameSecret.

Definition errSecretNotFound (pathSecret : string) : string :=
  "Secret " +:+ quoted pathSecret +:+ " not found".

Definition errNoData (pathSecret : string) : string :=
  "Data not found in secret " +:+ quoted pathSecret.

Definition errKeyNotFound (key : string) : string :=
  "Key " +:+ quoted key +:+ " not found".

(** The loop of [getSecret] that builds [pathSecretTmp]: [data] goes in
    before the element of index 1. *)
Fixpoint pathSecretTmp (i : nat) (splitData : list string) : list string :=
  match splitData with
  | [] => []
  | x :: rest =>
      (if (i =? 1)%nat then ["data"; x] else [x]) ++ pathSecretTmp (S i) rest
  end.

(** The first statements of [getSecret]: the path that is read. *)
Definition dataPath (pathSecret : string) : ending string :=
  let splitData := Strings.Split pathSecret "/" in
  match splitData !! 1%nat with
  | None => Panics (IndexOutOfRange 1 (Z.of_nat (length splitData)))
  | Some s1 =>
      if negb (String.eqb s1 "data")
      then Returns (Strings.Join (pathSecretTmp 0 splitData) "/")
      else Returns pathSecret
  end.

Section Handler.
Context {unicode : Strings.Unicode}.

(** The Vault server. *)
Variable World : Type.

(** [*api.Client] *)
Variable Client : Type.

(** [api.NewClient] for a server address, and [SetToken]. *)
Variable NewClient : string -> result Client.
Variable SetToken : Client -> string -> Client.

(** [client.Logical().Read]: a secret, nil, or an error. *)
Variable Read : Client -> string -> World -> result (option api_Secret) * World.

Definition createVaultClientFromToken (vaultHost vaultToken : string) : result Client :=
  match NewClient vaultHost with
  | Err e => Err e
  | Ok client => Ok (SetToken client vaultToken)
  end.

(** What is done with the secret that was read. *)
Definition valueOf (vaultData : api_Secret) (pathSecret key : string)
  : ending (string * option string) :=
  match api_Data vaultData !! "data" with
  | None | Some JNull => Returns ("", Some (errNoData pathSecret))
  | Some (JObject d) =>
      match d !! key with
      | Some (VString s) => Returns (s, None)
      | Some _ => Panics InterfaceConversion
      | None => Returns ("", Some (errKeyNotFound key))
      end
  | Some _ => Panics InterfaceConversion
  end.

Definition getSecret (client : Client) (pathSecret key : string) (w : World)
  : ending (string * option string) * World :=
  match dataPath pathSecret with
  | Panics p => (Panics p, w)
  | Returns pathSecret =>
      match Read client pathSecret w with
      | (Err e, w') => (Returns ("", Some e), w')
      | (Ok None, w') => (Returns ("", Some (errSecretNotFound pathSecret)), w')
      | (Ok (Some vaultData), w') => (valueOf vaultData pathSecret key, w')
      end
  end.

(** [res[0][1]] and [res[0][2]] *)
Definition pathAndKey (pattern : string) : ending (string * string) :=
  match FindAllStringSubmatch vaultRegex pattern with
  | [] => Panics (IndexOutOfRange 0 0)
  | m :: _ =>
      match m !! 1%nat, m !! 2%nat with
      | Some pathSecret, Some keySecret => Returns (pathSecret, keySecret)
      | None, _ => Panics (IndexOutOfRange 1 (Z.of_nat (length m)))
      | _, None => Panics (IndexOutOfRange 2 (Z.of_nat (length m)))
      end
  end.

Definition GetValueFromRegex (pattern : string) (secret : Secret) (w : World)
  : ending (string * option string) * World :=
  if negb (Strings.Contains pattern "@")
  then (Returns ("", Some (errFormat pattern)), w)
  else
    match Data secret !! serverField with
    | None => (Returns ("", Some (errDataNotFound serverField (Name secret))), w)
    | Some server =>
    match Data secret !! credentialsTokenField with
    | None => (Returns ("", Some (errDataNotFound credentialsTokenField (Name secret))), w)
    | Some _ =>
    match Data secret !! credentialsTypeField with
    | None => (Returns ("", Some (errDataNotFound credentialsTypeField (Name secret))), w)
    | Some credType =>
        if String.eqb (Strings.ToLower credType) "token" then
          match Data secret !! credentialsTokenField with
          | None =>
              (Returns ("", Some (errDataNotFound credentialsTokenField (Name secret))), w)
          | Some token =>
              match createVaultClientFromToken server token with
              | Err e => (Returns ("", Some e), w)
              | Ok client =>
                  match pathAndKey pattern with
                  | Panics p => (Panics p, w)
                  | Returns (pathSecret, keySecret) =>
                      match getSecret client pathSecret keySecret w with
                      | (Returns (val, None), w') => (Returns (val, None), w')
                      | (Returns (_, Some e), w') => (Returns ("", Some e), w')
                      | (Panics p, w') => (Panics p, w')
                      end
                  end
              end
          end
        else (Returns ("", Some (errTypeNotAllowed credType (Name secret))), w)
    end end end.

End Handler.

Arguments createVaultClientFromToken {Client}.
Arguments getSecret {World Client}.
Arguments GetValueFromRegex {unicode World Client}.

End vault.

(** ** Package [git] *)

Module git.

(** The three statements of [GetValueFromRegex] that derive [dirDest] from
    the [url] field of the secret. *)
Definition dirDest (url : string) : string :=
  let dirDest := drop_bytes (Z.to_nat (Strings.LastIndex url "/" + 1)) url in
  let dirDest := Strings.Replace dirDest ".git" "" 1 in
  "/tmp/" +:+ dirDest.

Import Regexp utils runtime.

Definition credentialsTypeUserPass : string := "userpassword".
Definition credentialsTypeToken : string := "token".
Definition credentialsTypeSsh : string := "ssh".

Definition urlField : string := "url".
Definition branchField : string := "branch".
Definition pathConfigFileField : string := "pathConfigFile".
Definition typeField : string := "typeFile".
Definition usingCredentialsField : string := "usingCredentials".
Definition credentialsTypeField : string := "credentials.type".
Definition credentialsUserField : string := "credentials.user".
Definition credentialsPasswordField : string := "credentials.password".
Definition credentialsTokenField : string := "credentials.token".
Definition credentialsSshPasswordField : string := "credentials.ssh.password".
Definition credentialsSshPemField : string := "credentials.ssh.pem".

(** The pattern compiled inside [GetValueFromRegex]. *)
Definition gitRegex : regex :=
  Eval vm_compute in MustCompile "\${\s*(?:.+?):(.+?)\s*(?:\|\s*.+?)?\s*}".

(** The messages of the errors. *)
Definition errFieldNotFound (field nameSecret : string) : string :=
  "field " +:+ quoted field +:+ " not found in git secret " +:+ nameSecret.

Definition errAbsolutePath (d nameSecret : string) : string :=
  "absolute file config path " +:+ quoted d +:+ " not allowed in git secret " +:+ nameSecret.

Definition errFormat (d nameSecret : string) : string :=
  "format " +:+ quoted d +:+ " not allowed for field " +:+ typeField
    +:+ " in git secret " +:+ nameSecret.

Definition errUsingCredentials (nameSecret : string) : string :=
  "data " +:+ quoted usingCredentialsField +:+ " unknown in git secret " +:+ nameSecret
    +:+ " (allowed " +:+ quoted "true" +:+ " or " +:+ quoted "false" +:+ ")".

Definition errCredentialsType (credType nameSecret : string) : string :=
  quoted "credentials.type" +:+ " " +:+ quoted credType
    +:+ " unknown in git secret " +:+ nameSecret.

(** [d[:1]] *)
Definition first_byte (d : string) : ending string :=
  match d with
  | EmptyString => Panics (SliceBoundsOutOfRange 1 0)
  | String a _ => Returns (String a "")
  end.

(** The error that [checkCommonSecretFields] returns, nil included. *)
Definition checkCommonSecretFields {unicode : Strings.Unicode} (secret : Secret) : ending (option string) :=
  match Data secret !! urlField with
  | None => Returns (Some (errFieldNotFound urlField (Name secret)))
  | Some _ =>
  match Data secret !! branchField with
  | None => Returns (Some (errFieldNotFound branchField (Name secret)))
  | Some _ =>
  match Data secret !! pathConfigFileField with
  | None => Returns (Some (errFieldNotFound pathConfigFileField (Name secret)))
  | Some d =>
  match first_byte d with
  | Panics p => Panics p
  | Returns d1 =>
  if String.eqb d1 "/" then Returns (Some (errAbsolutePath d (Name secret))) else
  match Data secret !! typeField with
  | None => Returns (Some (errFieldNotFound typeField (Name secret)))
  | Some t =>
  let d := Strings.ToLower t in
  if negb (String.eqb d "yaml") && negb (String.eqb d "ini")
  then Returns (Some (errFormat d (Name secret))) else
  match Data secret !! usingCredentialsField with
  | None => Returns (Some (errFieldNotFound usingCredentialsField (Name secret)))
  | Some u =>
  let d := Strings.ToLower u in
  if negb (String.eqb d "true") && negb (String.eqb d "false")
  then Returns (Some (errUsingCredentials (Name secret)))
  else Returns None
  end end end end end end.

(** A missing key reads as the empty text: [string(secret.Data[field])]. *)
Definition field (secret : Secret) (name : string) : string :=
  default "" (Data secret !! name).

(** [plumbing.NewBranchReferenceName] *)
Definition NewBranchReferenceName (name : string) : string := "refs/heads/" +:+ name.

(** A value of a decoded YAML document, by its dynamic type. *)
Inductive yaml (float : Type) : Type :=
| YString (s : string)
| YInt (n : Z)
| YInt64 (n : Z)
| YFloat32 (x : float)
| YFloat64 (x : float)
| YOther.                       (* a boolean, nil, a sequence, a mapping *)
Arguments YString {float}.
Arguments YInt {float}.
Arguments YInt64 {float}.
Arguments YFloat32 {float}.
Arguments YFloat64 {float}.
Arguments YOther {float}.

Definition errTypeUnknown (key filename : string) : string :=
  "type value unknown of " +:+ key +:+ " in " +:+ filename.

Section Handler.
Context {unicode : Strings.Unicode}.

(** The file system and the remote repositories. *)
Variable World : Type.

(** Floating-point numbers and their rendering by [%f]. *)
Variable float : Type.
Variable formatFloat : float -> string.

(** [ioutil.ReadFile], and [yaml.Unmarshal] into a map. *)
Variable ReadFile : string -> World -> result string.
Variable Unmarshal : string -> result (gmap string (yaml float)).

(** [ini.Load], and the value of a key of the default section: the empty
    text when the key is missing. *)
Variable File : Type.
Variable Load : string -> World -> result File.
Variable KeyString : File -> string -> string.

(** [ssh.NewPublicKeys] for a user, a key and a password. *)
Variable PublicKeys : Type.
Variable NewPublicKeys : string -> string -> string -> result PublicKeys.

(** [transport.AuthMethod] *)
Inductive AuthMethod : Type :=
| BasicAuth (Username Password : string)
| KeysAuth (publicKeys : PublicKeys).

(** [git.CloneOptions] and [git.PullOptions]; [SingleBranch] and
    [InsecureSkipTLS] are true in both. *)
Record CloneOptions : Type := {
  URL : string;
  CloneReferenceName : string;
  CloneAuth : option AuthMethod
}.

Record PullOptions : Type := {
  ReferenceName : string;
  Auth : option AuthMethod
}.

(** [os.IsNotExist] of the error of [os.Stat]. *)
Variable IsNotExist : string -> World -> bool.

(** [git.PlainOpen], [Worktree], [Pull] and [git.PlainClone]. *)
Variable Repository : Type.
Variable Worktree : Type.
Variable PlainOpen : string -> World -> result Repository.
Variable getWorktree : Repository -> result Worktree.

Inductive pulled : Type :=
| PullDone
| NoErrAlreadyUpToDate
| PullError (msg : string).

Variable Pull : Worktree -> PullOptions -> World -> pulled * World.
Variable PlainClone : string -> CloneOptions -> World -> option string * World.

Definition getValueFromYamlFile (filename key : string) (w : World) : string * option string :=
  match ReadFile filename w with
  | Err e => ("", Some e)
  | Ok yamlFile =>
      match Unmarshal yamlFile with
      | Err e => ("", Some e)
      | Ok config =>
          match config !! key with
          | None => ("", None)
          | Some (YString s) => (s, None)
          | Some (YInt val) => (pretty val, None)
          | Some (YInt64 val) => (pretty val, None)
          | Some (YFloat32 val) => (formatFloat val, None)
          | Some (YFloat64 val) => (formatFloat val, None)
          | Some YOther => ("", Some (errTypeUnknown key filename))
          end
      end
  end.

Definition getValueFromIniFile (filename key : string) (w : World) : string * option string :=
  match Load filename w with
  | Err e => ("", Some e)
  | Ok gitConf => (KeyString gitConf key, None)
  end.

(** The block [if usingCredentials]: the authentication method, or the
    error. *)
Definition authMethod (secret : Secret) : result AuthMethod :=
  match Data secret !! credentialsTypeField with
  | None => Err (errFieldNotFound credentialsTypeField (Name secret))
  | Some t =>
      let credentialsType := Strings.ToLower t in
      if String.eqb credentialsType credentialsTypeUserPass
         || String.eqb credentialsType credentialsTypeToken then
        match Data secret !! credentialsUserField with
        | None => Err (errFieldNotFound credentialsUserField (Name secret))
        | Some user =>
            if String.eqb credentialsType credentialsTypeUserPass then
              match Data secret !! credentialsPasswordField with
              | None => Err (errFieldNotFound credentialsPasswordField (Name secret))
              | Some password => Ok (BasicAuth user password)
              end
            else
              match Data secret !! credentialsTokenField with
              | None => Err (errFieldNotFound credentialsTokenField (Name secret))
              | Some token => Ok (BasicAuth user token)
              end
        end
      else if String.eqb credentialsType credentialsTypeSsh then
        match Data secret !! credentialsSshPasswordField with
        | None => Err (errFieldNotFound credentialsSshPasswordField (Name secret))
        | Some password =>
            match Data secret !! credentialsSshPemField with
            | None => Err (errFieldNotFound credentialsSshPemField (Name secret))
            | Some pem =>
                match NewPublicKeys "git" pem password with
                | Err e => Err ("generate publickeys failed: " +:+ e)
                | Ok publicKeys => Ok (KeysAuth publicKeys)
                end
            end
        end
      else Err (errCredentialsType t (Name secret))
  end.

(** The clone is brought up to date, or made: the error, if any. *)
Definition sync (url dirDest : string) (cloneOptions : CloneOptions)
    (pullOptions : PullOptions) (w : World) : option string * World :=
  if negb (IsNotExist dirDest w) then
    match PlainOpen dirDest w with
    | Err e => (Some ("instantiating git repo " +:+ url +:+ ": " +:+ e), w)
    | Ok r =>
        match getWorktree r with
        | Err e => (Some ("getting working directory git repo " +:+ url +:+ ": " +:+ e), w)
        | Ok wt =>
            match Pull wt pullOptions w with
            | (PullError e, w') => (Some ("pulling git repo " +:+ url +:+ ": " +:+ e), w')
            | (_, w') => (None, w')
            end
        end
    end
  else
    match PlainClone dirDest cloneOptions w with
    | (Some e, w') => (Some ("cloning git repo " +:+ url +:+ ": " +:+ e), w')
    | (None, w') => (None, w')
    end.

(** [res[0][1]] *)
Definition gitKey (pattern : string) : ending string :=
  match FindAllStringSubmatch gitRegex pattern with
  | [] => Panics (IndexOutOfRange 0 0)
  | m :: _ =>
      match m !! 1%nat with
      | Some key => Returns key
      | None => Panics (IndexOutOfRange 1 (Z.of_nat (length m)))
      end
  end.

Definition GetValueFromRegex (pattern : string) (secret : Secret) (w : World)
  : ending (string * option string) * World :=
  match checkCommonSecretFields secret with
  | Panics p => (Panics p, w)
  | Returns (Some err) => (Returns (pattern, Some err), w)
  | Returns None =>
      let usingCredentials :=
        String.eqb (Strings.ToLower (field secret usingCredentialsField)) "true" in
      let url := field secret urlField in
      let ref := NewBranchReferenceName (field secret branchField) in
      match (if usingCredentials
             then match authMethod secret with
                  | Err e => Err e
                  | Ok auth => Ok (Some auth)
                  end
             else Ok None) with
      | Err e => (Returns (pattern, Some e), w)
      | Ok auth =>
          let cloneOptions :=
            {| URL := url; CloneReferenceName := ref; CloneAuth := auth |} in
          let pullOptions := {| ReferenceName := ref; Auth := auth |} in
          let dirDest := dirDest url in
          match sync url dirDest cloneOptions pullOptions w with
          | (Some e, w') => (Returns (pattern, Some e), w')
          | (None, w') =>
              let fileConfig := dirDest +:+ "/" +:+ field secret pathConfigFileField in
              if IsNotExist fileConfig w'
              then (Returns (pattern,
                             Some ("file config "
                                     +:+ quoted (field secret pathConfigFileField)
                                     +:+ " not found")), w')
              else
                match gitKey pattern with
                | Panics p => (Panics p, w')
                | Returns gitKey =>
                    let typeFile := Strings.ToLower (field secret typeField) in
                    if String.eqb typeFile "yaml" then
                      match getValueFromYamlFile fileConfig gitKey w' with
                      | (_, Some e) => (Returns (pattern, Some e), w')
                      | (value, None) => (Returns (value, None), w')
                      end
                    else if String.eqb typeFile "ini" then
                      match getValueFromIniFile fileConfig gitKey w' with
                      | (_, Some e) => (Returns (pattern, Some e), w')
                      | (value, None) => (Returns (value, None), w')
                      end
                    else (Returns ("", None), w')
                end
          end
      end
  end.

End Handler.

Arguments URL {PublicKeys}.
Arguments CloneReferenceName {PublicKeys}.
Arguments CloneAuth {PublicKeys}.
Arguments ReferenceName {PublicKeys}.
Arguments Auth {PublicKeys}.
Arguments getValueFromYamlFile {World float}.
Arguments getValueFromIniFile {World File}.
Arguments authMethod {unicode PublicKeys}.
Arguments sync {World PublicKeys} IsNotExist {Repository Worktree}.
Arguments GetValueFromRegex {unicode World float} formatFloat ReadFile Unmarshal {File} Load KeyString
  {PublicKeys} NewPublicKeys IsNotExist {Repository Worktree}.

End git.

(** ** Package [controllers] *)

Module controllers.
Import utils.

(** [DataReplaceInline]: the type and object metadata that the reconciler
    reads, and its specification. *)
Record DataReplaceInline : Type := {
  TypeAPIVersion : string;
  TypeKind : string;
  ObjectName : string;
  ObjectUID : string;
  SpecManifest : string;
  SpecSetOwnerReferences : bool
}.

(** The errors [Reconcile] returns. *)
Inductive error : Type :=
| ErrManifestEmpty                        (* manifest field is empty *)
| ErrProcess (e : utils.error)            (* from [ProcessManifest] *)
| ErrText (msg : string).                 (* from a client or the decoder *)

(** How [Reconcile] ends: with an error or nil, or in a panic of the
    processor. *)
Inductive reconciled : Type :=
| Result (err : option error)
| Panicked (p : utils.panic).

Section Reconciler.
Context {unicode : Strings.Unicode}.

Variable World : Type.

Variable compileArgument : string -> option (string -> bool).
Variable Getenv : string -> string.
Variable clientGet : string -> string -> World -> result Secret * World.
Variable vault_Handler : Handler World.
Variable git_Handler : Handler World.

Variable Decode : string -> result (Unstructured * GroupVersionKind).
Variable getDynamicClient : World -> option string.
Variable dynamicGet :
  GroupVersionResource -> string -> string -> World -> fetched (option Unstructured) * World.
Variable dynamicCreate :
  GroupVersionResource -> string -> Unstructured -> World -> option string * World.
Variable dynamicUpdate :
  GroupVersionResource -> string -> Unstructured -> World -> option string * World.

(** [r.Get] for the instance with a namespace and a name. *)
Variable instanceGet : string -> string -> World -> fetched DataReplaceInline * World.

(** The last step: the object is updated or created. *)
Definition apply (k8s : Decoded) (namespace : string) (objExists : bool) (w : World)
  : reconciled * World :=
  if objExists then
    match UpdateResource dynamicCreate dynamicUpdate k8s namespace w with
    | (Some err, w') => (Result (Some (ErrText err)), w')
    | (None, w') => (Result None, w')
    end
  else
    match CreateResource dynamicCreate dynamicUpdate k8s namespace w with
    | (Some err, w') => (Result (Some (ErrText err)), w')
    | (None, w') => (Result None, w')
    end.

Definition Reconcile (namespace name : string) (w : World) : reconciled * World :=
  match instanceGet namespace name w with
  | (NotFound _, w1) => (Result None, w1)
  | (FetchError err, w1) => (Result (Some (ErrText err)), w1)
  | (Fetched instance, w1) =>
      if len (SpecManifest instance) =? 0 then (Result (Some ErrManifestEmpty), w1)
      else
        match NewK8sUtil getDynamicClient (SpecManifest instance) w1 with
        | Err err => (Result (Some (ErrText err)), w1)
        | Ok k8s =>
            match ProcessManifest compileArgument Getenv clientGet vault_Handler
                    git_Handler k8s w1 with
            | ((_, Fail e), w2) => (Result (Some (ErrProcess e)), w2)
            | ((_, Panic p), w2) => (Panicked p, w2)
            | ((k8s, Ret _), w2) =>
                match DecodeManifest Decode k8s with
                | Err err => (Result (Some (ErrText err)), w2)
                | Ok decoded =>
                    let decoded :=
                      if SpecSetOwnerReferences instance
                      then AddOwnerReference (TypeAPIVersion instance, TypeKind instance)
                             (ObjectName instance, ObjectUID instance) decoded
                      else decoded in
                    match ResourceExists dynamicGet decoded namespace w2 with
                    | (Err err, w3) => (Result (Some (ErrText err)), w3)
                    | (Ok objExists, w3) => apply decoded namespace objExists w3
                    end
                end
            end
        end
  end.

End Reconciler.

Arguments apply {World}.
Arguments Reconcile {unicode World}.

End controllers.

(** ** A small world to run the processor in

    Three secrets in the cluster, a Vault server and a Git repository with
    a few values; the world is the log of the calls made so far.  The
    patterns of [select] are compiled by [Syntax.Compile], so a computation
    in this world only speaks about patterns of that fragment. *)

Module Demo.
Import utils.

(** The case tables of the example hold the ASCII letters only. *)
#[local] Instance unicode : Strings.Unicode := {| Strings.MapToLower := Strings.lower_bytes |}.

Definition World : Type := list string.

Definition compileArgument (pattern : string) : option (string -> bool) :=
  match Syntax.Compile pattern with
  | Syntax.CompileOk r => Some (Regexp.MatchString r)
  | _ => None
  end.

Definition Getenv (key : string) : string :=
  if String.eqb key "NAMESPACE" then "operators" else "".

Definition secrets : list (string * Secret) :=
  [ ("vault-01", {| Name := "vault-01";
                    Annotations := Some {[ annotationConfigType := "vault" ]};
                    Data := ∅ |});
    ("git-01", {| Name := "git-01";
                  Annotations := Some {[ annotationConfigType := "Git" ]};
                  Data := {[ "url" := "https://example.org/team/config.git" ]} |});
    ("bare", {| Name := "bare"; Annotations := None; Data := ∅ |});
    ("plain", {| Name := "plain";
                 Annotations := Some {[ "owner" := "team" ]};
                 Data := ∅ |});
    ("ftp-01", {| Name := "ftp-01";
                  Annotations := Some {[ annotationConfigType := "ftp" ]};
                  Data := ∅ |}) ].

Definition clientGet (namespace name : string) (w : World) : result Secret * World :=
  (match List.find (fun kv => String.eqb kv.1 name) secrets with
   | Some kv => Ok kv.2
   | None => Err ("secrets " +:+ name +:+ " not found")
   end,
   w ++ ["get " +:+ namespace +:+ "/" +:+ name]).

(** A client that answers for one namespace only. *)
Definition clientGetIn (allowed namespace name : string) (w : World) : result Secret * World :=
  if String.eqb namespace allowed then clientGet namespace name w
  else (Err ("secrets is forbidden in the namespace " +:+ namespace), w).

(** The value stored under the first selector of the table that the token
    contains. *)
Definition lookupValue (table : list (string * string)) (token : string) : result string :=
  match List.find (fun kv => Strings.Contains token kv.1) table with
  | Some kv => Ok kv.2
  | None => Err "key not found"
  end.

Definition vaultValues : list (string * string) :=
  [ ("app/data/ldap@bindPassword", "s3cret");
    ("app/data/ldap@hosts", "ldap-a, ldap-b,ldap-c");
    ("app/data/net@subnets", "a=10.0.0.0/24, b=10.0.1.0/24");
    ("app/data/tls@back", "${git-01:CA_CERTIFICATE}") ].

Definition gitValues : list (string * string) :=
  [ ("LDAP_URL", "ldap.example.org");
    ("LDAP_FILTER", "ou=people");
    ("CA_CERTIFICATE", "${vault-01:app/data/tls@back}");
    ("BANNER", "hello" +:+ newline +:+ "   world") ].

Definition vault_Handler : Handler World :=
  {| GetValueFromRegex token secret w :=
       (lookupValue vaultValues token, w ++ ["vault " +:+ token]) |}.

Definition git_Handler : Handler World :=
  {| GetValueFromRegex token secret w :=
       (lookupValue gitValues token, w ++ ["git " +:+ token]) |}.

Definition processLine (line : string) (lineNumber : Z) (w : World) : outcome string * World :=
  utils.processLine compileArgument Getenv clientGet vault_Handler git_Handler
    line lineNumber w.

Definition processMatch (lineNumber : Z) (line : string) (m : list string) (w : World)
  : outcome string * World :=
  utils.processMatch compileArgument Getenv clientGet vault_Handler git_Handler
    lineNumber line m w.

Definition processScannedLine (line : string) (lineNumber : Z) (w : World)
  : outcome string * World :=
  utils.processScannedLine compileArgument Getenv clientGet vault_Handler git_Handler
    line lineNumber w.

Definition ProcessManifest (k8s : K8sUtil) (w : World) : (K8sUtil * outcome ()) * World :=
  utils.ProcessManifest compileArgument Getenv clientGet vault_Handler git_Handler k8s w.

(** [select] as the specification words it: the first element whose trimmed
    text the pattern matches from its first byte to its last. *)
Definition selectWholeElement (dat pattern : string) : option string :=
  match Syntax.Compile pattern with
  | Syntax.CompileOk r =>
      Some (selectData_loop (Strings.Split dat ",") (Regexp.FullMatchString r) dat)
  | _ => None
  end.

Definition manifest (lines : list string) : K8sUtil :=
  {| RawManifest := concat_strings ((fun l => l +:+ newline) <$> lines);
     ProcessedManifest := "" |}.

(** A manifest of one line of 65536 letters, without a line feed. *)
Definition long_line : string := Strings.copies "a" (Z.to_nat Bufio.MaxScanTokenSize).

(** *** The Vault server, the Git remote and the cluster of the example *)

(** A secret of type vault and a secret of type git, with their fields. *)
Definition vaultSecret : Secret :=
  {| Name := "vault-01";
     Annotations := Some {[ annotationConfigType := "vault" ]};
     Data := {[ "server" := "https://vault.example.org:8200";
                "credentials.type" := "Token";
                "credentials.token" := "s.token" ]} |}.

Definition gitSecret : Secret :=
  {| Name := "git-01";
     Annotations := Some {[ annotationConfigType := "git" ]};
     Data := {[ "url" := "https://example.org/team/config.git";
                "branch" := "main";
                "pathConfigFile" := "conf/app.ini";
                "typeFile" := "INI";
                "usingCredentials" := "false" ]} |}.

(** A client of the Vault server: its address and its token. *)
Definition Client : Type := string * string.

Definition NewClient (address : string) : result Client :=
  if String.eqb address "" then Err "empty address" else Ok (address, "").

Definition SetToken (client : Client) (token : string) : Client := (client.1, token).

Definition vaultStore : gmap string vault.api_Secret :=
  {[ "test/data/sync-ldap" :=
       {| vault.api_Data :=
            {[ "data" := vault.JObject {[ "bindPassword" := vault.VString "s3cret";
                                          "port" := vault.VOther ]} ]} |} ]}.

Definition Read (client : Client) (pathSecret : string) (w : World)
  : result (option vault.api_Secret) * World :=
  (Ok (vaultStore !! pathSecret), w ++ ["read " +:+ pathSecret +:+ " as " +:+ client.2]).

Definition vault_GetValueFromRegex (pattern : string) (secret : Secret) (w : World)
  : runtime.ending (string * option string) * World :=
  vault.GetValueFromRegex NewClient SetToken Read pattern secret w.

(** The file system: a path exists when a clone was made into a directory
    that the path starts with.  Every clone holds the same file. *)
Definition IsNotExist (path : string) (w : World) : bool :=
  negb (existsb (fun entry =>
                   match Strings.cut entry "clone " with
                   | Some (EmptyString, dir) => Strings.HasPrefix path dir
                   | _ => false
                   end) w).

Definition File : Type := list (string * string).

Definition Load (filename : string) (w : World) : result File :=
  if IsNotExist filename w then Err "open: no such file or directory"
  else Ok [("LDAP_URL", "ldap.example.org"); ("LDAP_FILTER", "ou=people")].

Definition KeyString (gitConf : File) (key : string) : string :=
  match List.find (fun kv => String.eqb kv.1 key) gitConf with
  | Some kv => kv.2
  | None => ""
  end.

Definition PlainClone (dirDest : string) (o : git.CloneOptions ()) (w : World)
  : option string * World :=
  (None, w ++ ["clone " +:+ dirDest; "from " +:+ git.URL o +:+ " " +:+ git.CloneReferenceName o]).

Definition Pull (wt : string) (o : git.PullOptions ()) (w : World) : git.pulled * World :=
  (git.NoErrAlreadyUpToDate, w ++ ["pull " +:+ wt]).

Definition git_GetValueFromRegex (pattern : string) (secret : Secret) (w : World)
  : runtime.ending (string * option string) * World :=
  git.GetValueFromRegex (float := Z) pretty
    (fun _ _ => Err "not a yaml file") (fun _ => Err "not a yaml file")
    Load KeyString (fun _ _ _ => Err "no keys") IsNotExist
    (fun dir _ => Ok dir) (fun r => Ok r) Pull PlainClone pattern secret w.

(** The cluster: two instances, a decoder that reads the name of the
    object from the first line, and a dynamic client that finds nothing. *)
Definition instances : list (string * controllers.DataReplaceInline) :=
  [ ("plain",
     {| controllers.TypeAPIVersion := "data.example.com/v1alpha1";
        controllers.TypeKind := "DataReplaceInline";
        controllers.ObjectName := "plain";
        controllers.ObjectUID := "0001";
        controllers.SpecManifest := "kind: ConfigMap" +:+ newline +:+ "home: $HOME";
        controllers.SpecSetOwnerReferences := false |});
    ("broken",
     {| controllers.TypeAPIVersion := "data.example.com/v1alpha1";
        controllers.TypeKind := "DataReplaceInline";
        controllers.ObjectName := "broken";
        controllers.ObjectUID := "0002";
        controllers.SpecManifest := "kind: ConfigMap" +:+ newline +:+ "pw: ${bare:k}";
        controllers.SpecSetOwnerReferences := true |}) ].

Definition instanceGet (namespace name : string) (w : World)
  : fetched controllers.DataReplaceInline * World :=
  (match List.find (fun kv => String.eqb kv.1 name) instances with
   | Some kv => Fetched kv.2
   | None => NotFound ("datareplaceinlines " +:+ name +:+ " not found")
   end,
   w ++ ["get instance " +:+ namespace +:+ "/" +:+ name]).

Definition Decode (text : string) : result (Unstructured * GroupVersionKind) :=
  match Bufio.lines text with
  | line :: _ =>
      Ok ({| GetName := "demo"; GetOwnerReferences := []; Content := text |},
          {| Group := ""; Version := "v1";
             Kind := drop_bytes 6 line |})
  | [] => Err "empty document"
  end.

Definition dynamicGet (gvr : GroupVersionResource) (namespace name : string) (w : World)
  : fetched (option Unstructured) * World :=
  (NotFound (Resource gvr +:+ " " +:+ name +:+ " not found"),
   w ++ ["get " +:+ Resource gvr +:+ " " +:+ namespace +:+ "/" +:+ name]).

Definition dynamicCreate (gvr : GroupVersionResource) (namespace : string)
    (obj : Unstructured) (w : World) : option string * World :=
  (None, w ++ ["create " +:+ Resource gvr +:+ " " +:+ namespace +:+ "/" +:+ GetName obj]).

Definition dynamicUpdate (gvr : GroupVersionResource) (namespace : string)
    (obj : Unstructured) (w : World) : option string * World :=
  (None, w ++ ["update " +:+ Resource gvr +:+ " " +:+ namespace +:+ "/" +:+ GetName obj]).

Definition Reconcile (namespace name : string) (w : World) : controllers.reconciled * World :=
  controllers.Reconcile compileArgument Getenv clientGet vault_Handler git_Handler
    Decode (fun _ => None) dynamicGet dynamicCreate dynamicUpdate instanceGet
    namespace name w.

End Demo.

(** ** Shapes of texts and patterns

    Notions that the statements below use: classes of bytes, texts of a
    certain shape, and the patterns of the package cut into their parts. *)

Module Shapes.
Import Regexp utils.

(** The text with a line feed after its last line, if it has none. *)
Fixpoint terminated (s : string) : string :=
  match s with
  | EmptyString => ""
  | String a EmptyString => if Ascii.eqb a LF then s else String a newline
  | String a s' => String a (terminated s')
  end.

(** The first byte of a text, if any, fails a test. *)
Definition starts_without (P : ascii -> bool) (s : string) : Prop :=
  match s with
  | EmptyString => True
  | String a _ => P a = false
  end.

(** The key and the value that [selectDictData] reads from an element. *)
Definition dictEntry (di : string) : option (string * string) :=
  match Strings.Split (Strings.TrimSpace di) "=" with
  | k :: v :: _ => Some (Strings.TrimSpace k, Strings.TrimSpace v)
  | _ => None
  end.

(** The two quotes. *)
Definition quotes : charset :=
  CsClass false [(byte_of 34, byte_of 34); (byte_of 39, byte_of 39)].

(** A byte of an argument that is read as it stands: no white space, no
    quote, no closing parenthesis. *)
Definition argument_byte (a : ascii) : bool :=
  negb (is_perl_space a) && negb (cs_match quotes a) && negb (Ascii.eqb a ")").

(** A byte of a token that is read as it stands: no white space and none
    of [:], [@], [|], [}]. *)
Definition plain_byte (a : ascii) : bool :=
  negb (is_perl_space a) && negb (Ascii.eqb a ":") && negb (Ascii.eqb a "@")
  && negb (Ascii.eqb a "|") && negb (Ascii.eqb a "}").

(** A byte of a selector that is read as it stands: no white space, no
    [|], no [}]. *)
Definition selector_byte (a : ascii) : bool :=
  negb (is_perl_space a) && negb (Ascii.eqb a "|") && negb (Ascii.eqb a "}").

(** A byte that white space or a modifier chain starts with. *)
Definition chain_byte (a : ascii) : bool := is_perl_space a || Ascii.eqb a "|".

(** The bytes of a name, one after the other, then [r]. *)
Fixpoint literal (name : string) (r : regex) : regex :=
  match name with
  | EmptyString => r
  | String a name' => OpConcat (lit a) (literal name' r)
  end.

(** What follows the name in the patterns of [select], [dict] and
    [default], and the end of it: an optional quote, white space, [)]. *)
Definition argumentTail : regex := Eval vm_compute in MustCompile (argumentPattern "").

Definition closing : regex :=
  OpConcat (OpQuest true (OpChar quotes))
    (OpConcat (OpStar true (OpChar (CsClass false perl_s))) (lit ")")).

(** The end of the patterns of the two handlers: white space, an optional
    modifier chain, white space, [}]. *)
Definition closingBrace : regex :=
  Eval vm_compute in MustCompile "\s*(?:\|\s*.+?)?\s*}".

Definition spaces : regex := OpStar true (OpChar (CsClass false perl_s)).

(** What follows the selector in the token grammar. *)
Definition lineTail : regex :=
  OpConcat spaces
    (OpConcat
       (OpQuest true
          (OpCapture 2 (OpConcat (lit "|") (OpConcat spaces (OpPlus false any)))))
       (OpConcat spaces
          (OpConcat (lit "}")
             (OpConcat spaces
                (OpQuest true
                   (OpCapture 3
                      (OpConcat (lit "|") (OpConcat spaces (OpPlus true any))))))))).

(** The text without its leading white space (the class [\s]), and that
    white space. *)
Fixpoint strip_leading_space (s : string) : string :=
  match s with
  | EmptyString => ""
  | String a s' => if is_perl_space a then strip_leading_space s' else s
  end.

Fixpoint leading_space (s : string) : string :=
  match s with
  | EmptyString => ""
  | String a s' => if is_perl_space a then String a (leading_space s') else ""
  end.

(** An ASCII byte that is not white space: no white space of
    [unicode.IsSpace] starts or ends with it. *)
Definition solid_byte (a : ascii) : bool :=
  (nat_of_ascii a <? 128)%nat && negb (Strings.asciiSpace a).

(** A byte of an argument in a chain: an argument byte that is not [|]. *)
Definition chain_argument_byte (a : ascii) : bool :=
  argument_byte a && negb (Ascii.eqb a "|").

(** A symbol of the standard alphabet of base64, or the padding. *)
Definition base64_byte (a : ascii) : bool :=
  let n := nat_of_ascii a in
  ((65 <=? n) && (n <=? 90) || (97 <=? n) && (n <=? 122) || (48 <=? n) && (n <=? 57)
   || (n =? 43) || (n =? 47) || (n =? 61))%nat.

(** The secrets that [checkCommonSecretFields] of the Git handler accepts. *)
Definition commonFields {unicode : Strings.Unicode} (secret : Secret) : Prop :=
  is_Some (Data secret !! git.urlField) /\
  is_Some (Data secret !! git.branchField) /\
  (exists a d, Data secret !! git.pathConfigFileField = Some (String a d) /\ a <> "/"%char) /\
  (exists t, Data secret !! git.typeField = Some t /\
             (Strings.ToLower t = "yaml" \/ Strings.ToLower t = "ini")) /\
  (exists u, Data secret !! git.usingCredentialsField = Some u /\
             (Strings.ToLower u = "true" \/ Strings.ToLower u = "false")).

(** *** Lines with tokens *)

(** A token of a line: its name, its selector, the value that it stands
    for, and the text of the line between it and the next token. *)
Record token : Type := Token {
  tokenName : string;
  tokenSelector : string;
  tokenValue : string;
  tokenTail : string
}.

Definition tokenText (t : token) : string :=
  "${" +:+ tokenName t +:+ ":" +:+ tokenSelector t +:+ "}".

(** A token and the text behind it that are read as they stand. *)
Definition plain_token (t : token) : Prop :=
  tokenName t <> "" /\ all_bytes plain_byte (tokenName t) = true /\
  tokenSelector t <> "" /\ all_bytes selector_byte (tokenSelector t) = true /\
  starts_without chain_byte (tokenTail t) /\
  all_bytes (not_byte "$") (tokenTail t) = true /\
  all_bytes (not_byte "$") (tokenValue t) = true.

(** The tokens, each followed by its tail, with [f] in the place of each
    token. *)
Fixpoint tokensWith (f : token -> string) (tokens : list token) : string :=
  match tokens with
  | [] => ""
  | t :: ts => f t +:+ tokenTail t +:+ tokensWith f ts
  end.

(** A line of a manifest: a text and the tokens that follow it, or a
    comment. *)
Inductive mline : Type :=
  | Line (pre : string) (tokens : list token)
  | Comment (text : string).

Definition lineTokens (l : mline) : list token :=
  match l with
  | Line _ tokens => tokens
  | Comment _ => []
  end.

Definition lineWith (f : token -> string) (l : mline) : string :=
  match l with
  | Line pre tokens => pre +:+ tokensWith f tokens
  | Comment text => text
  end.

(** A line that is read as it stands: no line feed and no carriage
    return, fewer bytes than the scanner's limit; a comment is a commented
    line, another line has no [$] outside its tokens, plain tokens, and is
    no commented line when it has a token. *)
Definition plain_line (l : mline) : Prop :=
  all_bytes (not_byte LF) (lineWith tokenText l) = true /\
  all_bytes (not_byte CR) (lineWith tokenText l) = true /\
  len (lineWith tokenText l) < Bufio.MaxScanTokenSize /\
  match l with
  | Line pre tokens =>
      all_bytes (not_byte "$") pre = true /\
      Forall plain_token tokens /\
      (tokens <> [] -> isCommentedLine (pre +:+ tokensWith tokenText tokens) = false)
  | Comment text => isCommentedLine text = true
  end.

(** The text of some lines, each followed by a line feed. *)
Definition textWith (f : token -> string) (ls : list mline) : string :=
  concat_strings ((fun l => lineWith f l +:+ newline) <$> ls).

Section Resolution.
Context {unicode : Strings.Unicode}.
Context {World : Type}.
Variable Getenv : string -> string.
Variable clientGet : string -> string -> World -> result Secret * World.
Variable vault_Handler git_Handler : Handler World.

(** The tokens are resolved one after the other, from the world [w] to
    the world [w']: for each of them the secret is fetched, its handler is
    selected and called with the text of the token, and returns the value. *)
Fixpoint resolves (tokens : list token) (w w' : World) : Prop :=
  match tokens with
  | [] => w = w'
  | t :: ts =>
      exists secret w1 handler w2,
        clientGet (Getenv "NAMESPACE") (tokenName t) w = (Ok secret, w1) /\
        selectHandler vault_Handler git_Handler (tokenName t) secret w1 = (Ret handler, w1) /\
        GetValueFromRegex handler (tokenText t) secret w1 = (Ok (tokenValue t), w2) /\
        resolves ts w2 w'
  end.
(** The tokens of the lines are resolved line after line. *)
Fixpoint resolvesLines (ls : list mline) (w w' : World) : Prop :=
  match ls with
  | [] => w = w'
  | l :: ls' =>
      exists w1,
        resolves (lineTokens l) w w1 /\
        resolvesLines ls' w1 w'
  end.
End Resolution.

(** *** A match somewhere in a text *)

(** The position at offset [i] of a text. *)
Definition cursor_at (s : string) (i : nat) : cursor :=
  cursor_after (take_bytes i s) None 0 (drop_bytes i s).

(** The pattern matches at some offset of the text, its start and its end
    included: nothing ties the match to the first byte or to the last. *)
Definition contains_match (r : regex) (s : string) : bool :=
  existsb (fun i => bool_decide (is_Some (match_at r (cursor_at s i))))
    (seq 0 (S (String.length s))).

(** *** The failures of a token *)

(** What makes the processing of a token fail, in the order in which
    [processLine] looks. *)
Inductive cause : Type :=
| FetchFailed (msg : string)          (* the secret is not obtained *)
| AnnotationsMissing                  (* the secret has no annotations *)
| TypeAnnotationMissing               (* it has no type annotation *)
| TypeUnknown                         (* the type is neither vault nor git *)
| HandlerFailed (msg : string)        (* the handler returns an error *)
| ModifierUnknown (chain : string).   (* a chain does not pass the check *)

(** The error that [processLine] builds for each cause: a failure of the
    handler and an unknown modifier carry the number of the line, the others
    do not. *)
Definition error_of_cause (nameSecret : string) (lineNumber : Z) (c : cause) : error :=
  match c with
  | FetchFailed msg => ErrClient msg
  | AnnotationsMissing => ErrNoAnnotations nameSecret
  | TypeAnnotationMissing => ErrAnnotationNotFound nameSecret
  | TypeUnknown => ErrTypeUnknown nameSecret
  | HandlerFailed msg => ErrInLine lineNumber msg
  | ModifierUnknown chain => ErrModifierUnknown chain lineNumber
  end.

Section Failures.
Context {unicode : Strings.Unicode}.
Context {World : Type}.
Variable compileArgument : string -> option (string -> bool).
Variable Getenv : string -> string.
Variable clientGet : string -> string -> World -> result Secret * World.
Variable vault_Handler git_Handler : Handler World.

(** The processing of the match [m], begun in the world [w], fails for the
    cause [c] in the world [w']. *)
Inductive failure (m : list string) (w : World) : cause -> World -> Prop :=
| fetch_failed msg w' :
    clientGet (Getenv "NAMESPACE") (nth 1 m "") w = (Err msg, w') ->
    failure m w (FetchFailed msg) w'
| annotations_missing secret w' :
    clientGet (Getenv "NAMESPACE") (nth 1 m "") w = (Ok secret, w') ->
    Annotations secret = None ->
    failure m w AnnotationsMissing w'
| type_annotation_missing secret annotations w' :
    clientGet (Getenv "NAMESPACE") (nth 1 m "") w = (Ok secret, w') ->
    Annotations secret = Some annotations ->
    annotations !! annotationConfigType = None ->
    failure m w TypeAnnotationMissing w'
| type_unknown secret annotations configType w' :
    clientGet (Getenv "NAMESPACE") (nth 1 m "") w = (Ok secret, w') ->
    Annotations secret = Some annotations ->
    annotations !! annotationConfigType = Some configType ->
    Strings.ToLower configType <> vaultHandler ->
    Strings.ToLower configType <> gitHandler ->
    failure m w TypeUnknown w'
| handler_failed secret w1 handler msg w' :
    clientGet (Getenv "NAMESPACE") (nth 1 m "") w = (Ok secret, w1) ->
    selectHandler vault_Handler git_Handler (nth 1 m "") secret w1 = (Ret handler, w1) ->
    GetValueFromRegex handler (nth 0 m "") secret w1 = (Err msg, w') ->
    failure m w (HandlerFailed msg) w'
| data_modifier_unknown secret w1 handler val w' :
    clientGet (Getenv "NAMESPACE") (nth 1 m "") w = (Ok secret, w1) ->
    selectHandler vault_Handler git_Handler (nth 1 m "") secret w1 = (Ret handler, w1) ->
    GetValueFromRegex handler (nth 0 m "") secret w1 = (Ok val, w') ->
    0 < len (nth 2 m "") ->
    modifierExists (nth 2 m "") = false ->
    failure m w (ModifierUnknown (nth 2 m "")) w'
| line_modifier_unknown secret w1 handler val val' w' :
    clientGet (Getenv "NAMESPACE") (nth 1 m "") w = (Ok secret, w1) ->
    selectHandler vault_Handler git_Handler (nth 1 m "") secret w1 = (Ret handler, w1) ->
    GetValueFromRegex handler (nth 0 m "") secret w1 = (Ok val, w') ->
    (if 0 <? len (nth 2 m "")
     then modifierExists (nth 2 m "") = true /\
          processModifiers compileArgument val (nth 2 m "") = Ret val'
     else val' = val) ->
    0 < len (nth 3 m "") ->
    modifierExists (nth 3 m "") = false ->
    failure m w (ModifierUnknown (nth 3 m "")) w'.
End Failures.

End Shapes.

(** * Properties *)

Import utils.

(** ** Strings *)

Lemma append_nil_l (s : string) : "" +:+ s = s.
Proof. reflexivity. Qed.

Lemma append_cons (a : ascii) (s t : string) : String a s +:+ t = String a (s +:+ t).
Proof. reflexivity. Qed.

Lemma append_nil_r (s : string) : s +:+ "" = s.
Proof. induction s as [|a s IH]; [done | by rewrite append_cons, IH]. Qed.

Lemma append_assoc (s t u : string) : (s +:+ t) +:+ u = s +:+ (t +:+ u).
Proof. induction s as [|a s IH]; [done | by rewrite !append_cons, IH]. Qed.

Lemma length_append (s t : string) :
  String.length (s +:+ t) = (String.length s + String.length t)%nat.
Proof. induction s as [|a s IH]; [done | rewrite append_cons; cbn; by rewrite IH]. Qed.

Lemma HasPrefix_refl s : Strings.HasPrefix s s = true.
Proof. induction s as [|a s IH]; cbn; [done | by rewrite Ascii.eqb_refl, IH]. Qed.

Lemma replace_from_skips_all old new n s :
  Strings.replace_from old new n (String.length s) s = "".
Proof. induction s as [|a s IH]; cbn; [done | apply IH]. Qed.

(** [strings.Replace(s, s, v, 1)] is [v], also for the empty [s]. *)
Lemma Replace_whole s v : Strings.Replace s s v 1 = v.
Proof.
  destruct s as [|a s]; cbn.
  - apply append_nil_r.
  - rewrite Ascii.eqb_refl, HasPrefix_refl. cbn.
    by rewrite Nat.sub_0_r, replace_from_skips_all, append_nil_r.
Qed.

Lemma all_bytes_rev_onto P s acc :
  all_bytes P (rev_onto s acc) = all_bytes P s && all_bytes P acc.
Proof.
  revert acc. induction s as [|a s IH]; intros acc; cbn; [done|].
  rewrite IH. cbn. by destruct (P a), (all_bytes P s), (all_bytes P acc).
Qed.

Lemma all_bytes_rev_string P s : all_bytes P (rev_string s) = all_bytes P s.
Proof. unfold rev_string. rewrite all_bytes_rev_onto. cbn. apply andb_true_r. Qed.

Lemma length_Repeat_byte a n : String.length (Strings.copies (String a "") n) = n.
Proof.
  induction n as [|n IH]; cbn; [done|].
  rewrite append_cons, append_nil_l. cbn. by rewrite IH.
Qed.

Lemma all_bytes_Repeat_byte P a n :
  P a = true -> all_bytes P (Strings.copies (String a "") n) = true.
Proof.
  intros Ha. induction n as [|n IH]; cbn; [done|].
  rewrite append_cons, append_nil_l. cbn. by rewrite Ha, IH.
Qed.

Lemma all_bytes_app P s t : all_bytes P (s +:+ t) = all_bytes P s && all_bytes P t.
Proof.
  induction s as [|a s IH]; [done|]. rewrite append_cons. cbn.
  by rewrite IH, andb_assoc.
Qed.

Lemma drop_bytes_app base rest :
  drop_bytes (String.length base) (base +:+ rest) = rest.
Proof. induction base as [|a base IH]; [done|]. rewrite append_cons. cbn. apply IH. Qed.

Lemma last_index_from_without s b :
  all_bytes (not_byte b) s = true ->
  forall i last, Strings.last_index_from i last s (String b "") = last.
Proof.
  induction s as [|a s IH]; intros Hs i last; [done|].
  cbn in Hs. apply andb_prop in Hs as [Ha Hs]. unfold not_byte in Ha.
  apply negb_true_iff in Ha. cbn. rewrite Ha. cbn. by apply IH.
Qed.

(** The last occurrence of a byte is the one no further occurrence
    follows. *)
Lemma last_index_from_last base b rest :
  all_bytes (not_byte b) rest = true ->
  forall i last,
    Strings.last_index_from i last (base +:+ String b rest) (String b "") = i + len base.
Proof.
  intros Hrest. induction base as [|a base IH]; intros i last.
  - rewrite append_nil_l. cbn. rewrite Ascii.eqb_refl. cbn.
    rewrite last_index_from_without by done. unfold len. cbn. lia.
  - rewrite append_cons. cbn [Strings.last_index_from]. rewrite IH.
    unfold len. cbn [String.length]. lia.
Qed.

(** Replacing the first occurrence of [old], when that is the suffix,
    strips the suffix. *)
Lemma replace_first_at_end old name :
  old <> "" ->
  forall i,
    Strings.index_from i (name +:+ old) old = i + len name ->
    Strings.replace_from old "" 1 0 (name +:+ old) = name.
Proof.
  intros Hold. induction name as [|a name IH]; intros i Hi.
  - rewrite append_nil_l. destruct old as [|b old]; [done|].
    cbn. rewrite Ascii.eqb_refl, HasPrefix_refl. cbn.
    by rewrite Nat.sub_0_r, replace_from_skips_all.
  - rewrite append_cons in *. cbn [Strings.index_from] in Hi.
    cbn [Strings.replace_from].
    destruct (Strings.HasPrefix (String a (name +:+ old)) old) eqn:Hp.
    + unfold len in Hi. cbn [String.length] in Hi. lia.
    + cbn. f_equal. apply (IH (i + 1)). rewrite Hi. unfold len. cbn [String.length]. lia.
Qed.

(** *** [Split] *)

Lemma HasPrefix_app s t p : Strings.HasPrefix s p = true -> Strings.HasPrefix (s +:+ t) p = true.
Proof.
  revert s. induction p as [|b p IH]; intros s H; [done|].
  destruct s as [|a s]; [done|]. rewrite append_cons. cbn in *.
  apply andb_prop in H as [-> H]. by rewrite IH.
Qed.

Lemma HasPrefix_drop s p :
  Strings.HasPrefix s p = true -> s = p +:+ drop_bytes (String.length p) s.
Proof.
  revert s. induction p as [|b p IH]; intros s H; [done|].
  destruct s as [|a s]; [done|]. cbn in H. apply andb_prop in H as [Ha H].
  apply Ascii.eqb_eq in Ha as ->. rewrite append_cons. cbn. f_equal. by apply IH.
Qed.

Lemma length_drop_bytes n s : String.length (drop_bytes n s) = (String.length s - n)%nat.
Proof.
  revert s. induction n as [|n IH]; intros s; cbn; [lia|].
  destruct s as [|a s]; cbn; [done | apply IH].
Qed.

Lemma HasPrefix_length s p : Strings.HasPrefix s p = true -> (String.length p <= String.length s)%nat.
Proof.
  revert s. induction p as [|b p IH]; intros s H; cbn; [lia|].
  destruct s as [|a s]; [done|]. cbn in *. apply andb_prop in H as [_ H].
  apply IH in H. lia.
Qed.

(** What [cut] returns. *)
Lemma cut_Some s sep before after :
  Strings.cut s sep = Some (before, after) ->
  s = before +:+ sep +:+ after /\
  String.length s = (String.length before + String.length sep + String.length after)%nat.
Proof.
  revert before. induction s as [|a s IH]; intros before H.
  - cbn in H. destruct (Strings.HasPrefix "" sep) eqn:Hp; [|done].
    injection H as <- <-. destruct sep; [done | by cbn in Hp].
  - cbn [Strings.cut] in H. destruct (Strings.HasPrefix (String a s) sep) eqn:Hp.
    + injection H as <- <-. rewrite append_nil_l. split; [by apply HasPrefix_drop|].
      rewrite length_drop_bytes. apply HasPrefix_length in Hp. cbn in *. lia.
    + destruct (Strings.cut s sep) as [[b r]|] eqn:Hc; [|done].
      injection H as <- <-. destruct (IH b eq_refl) as [-> Hlen].
      split; [by rewrite append_cons|].
      cbn. rewrite Hlen. lia.
Qed.

Lemma cut_None s sep : Strings.cut s sep = None -> forall i, Strings.index_from i s sep = -1.
Proof.
  induction s as [|a s IH]; intros H i; cbn in *.
  - by destruct (Strings.HasPrefix "" sep).
  - destruct (Strings.HasPrefix (String a s) sep); [done|].
    destruct (Strings.cut s sep) as [[b r]|]; [done|]. by apply IH.
Qed.

Lemma cut_before s sep before after :
  sep <> "" ->
  Strings.cut s sep = Some (before, after) ->
  forall i, Strings.index_from i before sep = -1.
Proof.
  intros Hsep. revert before. induction s as [|a s IH]; intros before H i.
  - cbn in H. destruct (Strings.HasPrefix "" sep) eqn:Hp; [|done].
    injection H as <- <-. by destruct sep.
  - cbn [Strings.cut] in H. destruct (Strings.HasPrefix (String a s) sep) eqn:Hp.
    + injection H as <- <-. by destruct sep.
    + destruct (Strings.cut s sep) as [[b r]|] eqn:Hc; [|done].
      injection H as <- <-. cbn [Strings.index_from].
      destruct (Strings.HasPrefix (String a b) sep) eqn:Hb.
      * apply cut_Some in Hc as [-> _].
        apply (HasPrefix_app _ (sep +:+ r)) in Hb. rewrite append_cons in Hb.
        by rewrite Hb in Hp.
      * by apply IH.
Qed.

Lemma split_fuel_spec sep :
  sep <> "" ->
  forall fuel s,
    (String.length s <= fuel)%nat ->
    Strings.Join (Strings.split_fuel fuel s sep) sep = s /\
    Forall (fun e => Strings.Index e sep = -1) (Strings.split_fuel fuel s sep).
Proof.
  intros Hsep. induction fuel as [|fuel IH]; intros s Hlen.
  - destruct s; [|cbn in Hlen; lia]. cbn. split; [done|].
    constructor; [|done]. unfold Strings.Index. cbn. by destruct sep.
  - cbn [Strings.split_fuel]. destruct (Strings.cut s sep) as [[b r]|] eqn:Hc.
    + pose proof (cut_before _ _ _ _ Hsep Hc 0) as Hb.
      apply cut_Some in Hc as [-> Hl].
      assert (String.length sep <> 0%nat) by (by destruct sep).
      destruct (IH r) as [Hj Hf]; [lia|].
      split; [|by constructor].
      destruct (Strings.split_fuel fuel r sep) as [|e es] eqn:Hs.
      { destruct fuel; cbn in Hs; [done|]. by destruct (Strings.cut r sep) as [[??]|]. }
      cbn [Strings.Join]. cbn [Strings.Join] in Hj. by rewrite Hj.
    + split; [done|]. constructor; [|done]. by apply cut_None.
Qed.

(** [Split] cuts at every occurrence of a separator that is not empty:
    joining the pieces with the separator gives the text back, and no piece
    contains the separator. *)
Theorem Split_pieces s sep :
  sep <> "" ->
  Strings.Join (Strings.Split s sep) sep = s /\
  Forall (fun e => Strings.Index e sep = -1) (Strings.Split s sep).
Proof.
  intros Hsep. unfold Strings.Split. destruct sep as [|b sep]; [done|].
  by apply split_fuel_spec.
Qed.

(** ** The matcher *)

Section Matcher.
Import Regexp.

Lemma exec_char cs c m k :
  exec (OpChar cs) c m k =
  match rest c with
  | String a s => if cs_match cs a then k (Cursor (Some a) (S (pos c)) s) m else None
  | EmptyString => None
  end.
Proof. reflexivity. Qed.

Lemma exec_concat r1 r2 c m k :
  exec (OpConcat r1 r2) c m k = exec r1 c m (fun c' m' => exec r2 c' m' k).
Proof. reflexivity. Qed.

Lemma search_from_unfold r p i s :
  search_from r p i s =
  match match_at r (Cursor p i s) with
  | Some x => Some x
  | None =>
      match s with
      | EmptyString => None
      | String a s' => search_from r (Some a) (S i) s'
      end
  end.
Proof. by destruct s. Qed.

Lemma MatchString_at_start r s :
  is_Some (match_at r (start_of s)) -> MatchString r s = true.
Proof.
  intros [x Hx]. unfold MatchString, search, start_of in *.
  cbn [prev pos rest]. by rewrite search_from_unfold, Hx.
Qed.

Lemma rest_cursor_after ws p i r : rest (cursor_after ws p i r) = r.
Proof. revert p i. induction ws as [|a ws IH]; intros p i; cbn; [done | apply IH]. Qed.

(** A greedy repetition succeeds where its continuation does. *)
Lemma iterate_accepting_is_Some step k fuel c m :
  is_Some (k c m) -> is_Some (iterate step true k fuel c m).
Proof.
  intros Hk. destruct fuel as [|fuel]; cbn; [done|].
  by destruct (step c m _).
Qed.

(** A greedy repetition of a class gets past a run of bytes of the class,
    if the continuation succeeds behind the run. *)
Lemma iterate_class_is_Some cs k r ws :
  forall fuel p i m,
    (String.length ws <= fuel)%nat ->
    all_bytes (cs_match cs) ws = true ->
    is_Some (k (cursor_after ws p i r) m) ->
    is_Some (iterate (exec (OpChar cs)) true k fuel (Cursor p i (ws +:+ r)) m).
Proof.
  induction ws as [|a ws IH]; intros fuel p i m Hfuel Hall Hk.
  - by apply iterate_accepting_is_Some.
  - destruct fuel as [|fuel]; [cbn in Hfuel; lia|].
    cbn in Hall. apply andb_prop in Hall as [Ha Hws].
    rewrite append_cons. cbn [iterate]. rewrite exec_char. cbn [rest pos].
    rewrite Ha.
    replace (i <? S i)%nat with true by (symmetry; apply Nat.ltb_lt; lia).
    destruct (IH fuel (Some a) (S i) m) as [x Hx]; [cbn in Hfuel; lia|done|done|].
    by rewrite Hx.
Qed.

(** *** The bound on repetitions *)

Lemma agree_from_later n c c' k1 k2 :
  (pos c <= pos c')%nat -> agree_from n c k1 k2 -> agree_from n c' k1 k2.
Proof. intros Hle H c'' m'' Hin Hpos. apply H; [done | lia]. Qed.

Lemma iterate_forward step greedy fuel :
  steps_forward step ->
  forall n c m k1 k2,
    cursor_in n c -> agree_from n c k1 k2 ->
    iterate step greedy k1 fuel c m = iterate step greedy k2 fuel c m.
Proof.
  intros Hstep. induction fuel as [|fuel IH]; intros n c m k1 k2 Hin Hk.
  - cbn. apply Hk; [done | lia].
  - cbn [iterate].
    rewrite (Hstep n c m _ (fun c' m' =>
               if (pos c <? pos c')%nat then iterate step greedy k2 fuel c' m' else None) Hin).
    + rewrite (Hk c m Hin) by lia. done.
    + intros c' m' Hin' Hpos. destruct (pos c <? pos c')%nat eqn:Hlt; [|done].
      apply (IH n); [done|]. eapply agree_from_later; [|done]. done.
Qed.

Lemma exec_forward r : steps_forward (exec r).
Proof.
  induction r as [|cs|r1 IH1 r2 IH2|r1 IH1 r2 IH2|g r1 IH1|g r1 IH1|g r1 IH1|i r1 IH1| | | |];
    intros n c m k1 k2 Hin Hk; cbn [exec].
  - apply Hk; [done | lia].
  - destruct (rest c) as [|a s] eqn:Hrest; [done|]. destruct (cs_match cs a); [|done].
    apply Hk; [|cbn; lia]. unfold cursor_in in *. rewrite Hrest in Hin. cbn in *. lia.
  - apply (IH1 n); [done|]. intros c' m' Hin' Hpos.
    apply (IH2 n); [done|]. by eapply agree_from_later.
  - by rewrite (IH1 n c m k1 k2), (IH2 n c m k1 k2).
  - by apply (iterate_forward _ _ _ IH1 n).
  - apply (IH1 n); [done|]. intros c' m' Hin' Hpos.
    apply (iterate_forward _ _ _ IH1 n); [done|]. by eapply agree_from_later.
  - rewrite (IH1 n c m k1 k2) by done. rewrite (Hk c m Hin) by lia. done.
  - apply (IH1 n); [done|]. intros c' m' Hin' Hpos. by apply Hk.
  - rewrite (Hk c m Hin) by lia. done.
  - rewrite (Hk c m Hin) by lia. done.
  - rewrite (Hk c m Hin) by lia. done.
  - rewrite (Hk c m Hin) by lia. done.
Qed.

Lemma iterate_reject step greedy fuel :
  needs_continuation step -> steps_forward step ->
  forall n c m, cursor_in n c -> iterate step greedy reject fuel c m = None.
Proof.
  intros Hrej Hstep. induction fuel as [|fuel IH]; intros n c m Hin; [done|].
  cbn [iterate].
  rewrite (Hstep n c m _ reject Hin).
  - rewrite (Hrej n) by done. by destruct greedy.
  - intros c' m' Hin' Hpos. destruct (pos c <? pos c')%nat; [|done]. by apply (IH n).
Qed.

Lemma exec_reject r : needs_continuation (exec r).
Proof.
  induction r as [|cs|r1 IH1 r2 IH2|r1 IH1 r2 IH2|g r1 IH1|g r1 IH1|g r1 IH1|i r1 IH1| | | |];
    intros n c m Hin; cbn [exec]; try done.
  - destruct (rest c) as [|a s]; [done|]. by destruct (cs_match cs a).
  - rewrite (exec_forward r1 n c m _ reject Hin); [by apply (IH1 n)|].
    intros c' m' Hin' _. by apply (IH2 n).
  - by rewrite (IH1 n), (IH2 n).
  - apply (iterate_reject _ _ _ IH1 (exec_forward r1) n). done.
  - rewrite (exec_forward r1 n c m _ reject Hin); [by apply (IH1 n)|].
    intros c' m' Hin' _. by apply (iterate_reject _ _ _ IH1 (exec_forward r1) n).
  - rewrite (IH1 n) by done. by destruct g.
  - rewrite (exec_forward r1 n c m _ reject Hin); [by apply (IH1 n)|]. done.
  - by destruct (pos c =? 0)%nat.
  - by destruct (rest c).
  - by destruct (at_word_boundary c).
  - by destruct (at_word_boundary c).
Qed.

(** The bound on the iterations never cuts a repetition short: any bound
    from the length of the text that is left gives the same result. *)
Lemma iterate_fuel step greedy k :
  steps_forward step -> needs_continuation step ->
  forall f1 f2 n c m,
    cursor_in n c ->
    (String.length (rest c) <= f1)%nat -> (String.length (rest c) <= f2)%nat ->
    iterate step greedy k f1 c m = iterate step greedy k f2 c m.
Proof.
  intros Hstep Hrej.
  assert (Hend : forall f n c m, cursor_in n c -> String.length (rest c) = 0%nat ->
                 iterate step greedy k f c m = k c m).
  { intros [|f] n c m Hin Hlen; [done|]. cbn [iterate].
    match goal with |- context [step c m ?again] =>
      assert (E : step c m again = step c m reject) end.
    { apply (Hstep n); [done|]. intros c' m' Hin' Hpos. unfold cursor_in in *.
      replace (pos c <? pos c')%nat with false; [done|]. symmetry. apply Nat.ltb_ge. lia. }
    rewrite E, (Hrej n c m Hin). destruct greedy; [done|]. by destruct (k c m). }
  induction f1 as [|f1 IH]; intros f2 n c m Hin H1 H2.
  - rewrite (Hend f2 n) by (done || lia). done.
  - destruct f2 as [|f2].
    { rewrite (Hend (S f1) n) by (done || lia). done. }
    cbn [iterate].
    rewrite (Hstep n c m _ (fun c' m' =>
               if (pos c <? pos c')%nat then iterate step greedy k f2 c' m' else None) Hin); [done|].
    intros c' m' Hin' Hpos. destruct (pos c <? pos c')%nat eqn:Hlt; [|done].
    apply Nat.ltb_lt in Hlt. unfold cursor_in in *. apply (IH _ n); [done|lia..].
Qed.

(** The bound that [exec] gives a repetition is enough: with any larger
    bound the repetition has the same result. *)
Theorem star_fuel r greedy k fuel s p i m :
  (String.length s <= fuel)%nat ->
  iterate (exec r) greedy k fuel (Cursor p i s) m = exec (OpStar greedy r) (Cursor p i s) m k.
Proof.
  intros Hfuel. cbn [exec rest].
  apply (iterate_fuel _ _ _ (exec_forward r) (exec_reject r) _ _ (i + String.length s)%nat);
    [done | done | cbn; lia].
Qed.

(** *** The patterns of the package *)

(** White space, then [#], then anything: a comment. *)
Lemma isCommentedLine_intro (ws tail : string) :
  all_bytes is_perl_space ws = true ->
  isCommentedLine (ws +:+ String "#" tail) = true.
Proof.
  intros Hws. apply MatchString_at_start.
  unfold match_at, regexCommentLine, start_of.
  cbn [exec pos rest Nat.eqb].
  match goal with |- is_Some (match ?e with _ => _ end) =>
    assert (is_Some e) as [[c' m'] He]; [|by rewrite He] end.
  apply iterate_class_is_Some.
  - rewrite length_append. lia.
  - exact Hws.
  - rewrite rest_cursor_after. cbn [cs_match]. rewrite Ascii.eqb_refl.
    by apply iterate_accepting_is_Some.
Qed.

(** What a successful greedy repetition of a class has read. *)
Lemma iterate_class_Some_inv cs k fuel :
  forall p i s m x,
    iterate (exec (OpChar cs)) true k fuel (Cursor p i s) m = Some x ->
    exists ws r,
      s = ws +:+ r /\ all_bytes (cs_match cs) ws = true /\
      k (cursor_after ws p i r) m = Some x.
Proof.
  induction fuel as [|fuel IH]; intros p i s m x H.
  - exists "", s. by rewrite append_nil_l.
  - cbn [iterate] in H. rewrite exec_char in H. cbn [rest pos] in H.
    destruct s as [|a s].
    { exists "", "". by rewrite append_nil_l. }
    destruct (cs_match cs a) eqn:Ha.
    2:{ exists "", (String a s). by rewrite append_nil_l. }
    replace (i <? S i)%nat with true in H by (symmetry; apply Nat.ltb_lt; lia).
    destruct (iterate (exec (OpChar cs)) true k fuel (Cursor (Some a) (S i) s) m)
      as [y|] eqn:Hy.
    + injection H as <-. apply IH in Hy as (ws & r & -> & Hws & Hk).
      exists (String a ws), r. rewrite append_cons. cbn. by rewrite Ha, Hws.
    + exists "", (String a s). by rewrite append_nil_l.
Qed.

(** The comment pattern is anchored: it matches at the start or nowhere. *)
Lemma search_regexCommentLine_inside s :
  forall p i, search_from regexCommentLine p (S i) s = None.
Proof.
  induction s as [|a s IH]; intros p i; rewrite search_from_unfold;
    unfold match_at, regexCommentLine; rewrite exec_concat; cbn [exec pos Nat.eqb].
  - done.
  - apply IH.
Qed.

Lemma isCommentedLine_inv line :
  isCommentedLine line = true ->
  exists ws tail, line = ws +:+ String "#" tail /\ all_bytes is_perl_space ws = true.
Proof.
  unfold isCommentedLine, MatchString, search, start_of. cbn [prev pos rest].
  rewrite search_from_unfold.
  destruct (match_at regexCommentLine (Cursor None 0 line)) as [x|] eqn:Hx.
  2:{ destruct line; [done|]. by rewrite search_regexCommentLine_inside. }
  intros _. unfold match_at, regexCommentLine in Hx.
  rewrite exec_concat in Hx. cbn [exec pos Nat.eqb rest] in Hx.
  match type of Hx with match ?e with _ => _ end = _ =>
    destruct e as [y|] eqn:Hy; [|done] end.
  apply iterate_class_Some_inv in Hy as (ws & r & -> & Hws & Hk).
  rewrite rest_cursor_after in Hk.
  destruct r as [|a tail]; [done|].
  cbn [cs_match] in Hk. destruct (Ascii.eqb a "#") eqn:Ha; [|done].
  apply Ascii.eqb_eq in Ha as ->. by exists ws, tail.
Qed.

(** The comment predicate, spelled out: [isCommentedLine] holds of the
    lines that consist of white space (tab, line feed, form feed, carriage
    return, blank), then [#], then any text, and of no other line. *)
Theorem isCommentedLine_iff line :
  isCommentedLine line = true <->
  exists ws tail, line = ws +:+ String "#" tail /\ all_bytes is_perl_space ws = true.
Proof.
  split; [apply isCommentedLine_inv|].
  intros (ws & tail & -> & Hws). by apply isCommentedLine_intro.
Qed.

(** Every pattern of the package is in the fragment that [Syntax.Compile]
    reads. *)
Lemma patterns_compile :
  Syntax.Compile lineGenericRegexPattern = Syntax.CompileOk lineRegex /\
  Syntax.Compile "^\s*#.*" = Syntax.CompileOk regexCommentLine /\
  Syntax.Compile "\bindent(\d+)\b" = Syntax.CompileOk regexIndentModifier /\
  Syntax.Compile "\bbase64\b" = Syntax.CompileOk regexBase64Modifier /\
  Syntax.Compile (argumentPattern "select") = Syntax.CompileOk regexSelectModifier /\
  Syntax.Compile (argumentPattern "dict") = Syntax.CompileOk regexDictModifier /\
  Syntax.Compile (argumentPattern "default") = Syntax.CompileOk regexDefaultModifier /\
  Syntax.Compile "^\s+" = Syntax.CompileOk regexLeadingSpace.
Proof. repeat split; vm_compute; reflexivity. Qed.

(** The examples in the comments of the source: a Vault token with a
    modifier, and a line with two Git tokens. *)
Lemma lineRegex_examples :
  FindAllStringSubmatch lineRegex "${vault-01:test/data/sync-ldap@bindPassword | base64}" =
    [["${vault-01:test/data/sync-ldap@bindPassword | base64}"; "vault-01"; "| base64"; ""]] /\
  FindAllStringSubmatch lineRegex "url: ldaps://${git-01:LDAP_URL}:636/${git-01:LDAP_FILTER}" =
    [["${git-01:LDAP_URL}"; "git-01"; ""; ""]; ["${git-01:LDAP_FILTER}"; "git-01"; ""; ""]].
Proof. split; vm_compute; reflexivity. Qed.

(** The token grammar starts with [$]: a text without that byte has no
    token. *)
Lemma search_lineRegex_without_dollar s :
  all_bytes (not_byte "$") s = true ->
  forall p i, search_from lineRegex p i s = None.
Proof.
  induction s as [|a s IH]; intros Hs p i; rewrite search_from_unfold;
    unfold match_at, lineRegex; rewrite exec_concat, exec_char; cbn [rest].
  - done.
  - cbn in Hs. apply andb_prop in Hs as [Ha Hs].
    unfold not_byte in Ha. apply negb_true_iff in Ha.
    cbn [cs_match]. rewrite Ha. by apply IH.
Qed.

Lemma foundLine_without_dollar s :
  all_bytes (not_byte "$") s = true -> foundLine s = false.
Proof.
  intros Hs. unfold foundLine, MatchString, search, start_of. cbn [prev pos rest].
  by rewrite search_lineRegex_without_dollar.
Qed.

End Matcher.

(** ** The scanner *)

Lemma all_bytes_dropCR P s : all_bytes P s = true -> all_bytes P (Bufio.dropCR s) = true.
Proof.
  intros Hs. unfold Bufio.dropCR.
  destruct (rev_string s) as [|a r] eqn:Hrev; [done|].
  destruct (Ascii.eqb a CR); [|done].
  rewrite all_bytes_rev_string.
  rewrite <- all_bytes_rev_string, Hrev in Hs. cbn in Hs.
  by apply andb_prop in Hs as [_ Hr].
Qed.

Lemma raw_lines_without_LF s :
  s <> "" -> all_bytes (not_byte LF) s = true -> Bufio.raw_lines s = [s].
Proof.
  induction s as [|a s IH]; intros Hne Hs; [done|].
  cbn in Hs. apply andb_prop in Hs as [Ha Hs].
  unfold not_byte in Ha. apply negb_true_iff in Ha.
  cbn. rewrite Ha. destruct s as [|b s]; [done|].
  by rewrite IH.
Qed.

(** Below the limit the scanner delivers every line. *)
Lemma scan_tokens_within_limit max lines :
  Forall (fun l => len l < max) lines ->
  Bufio.scan_tokens max lines = (Bufio.dropCR <$> lines, None).
Proof.
  induction 1 as [|l ls Hl _ IH]; cbn; [done|].
  replace (max <=? len l) with false by (symmetry; apply Z.leb_gt; lia).
  by rewrite IH.
Qed.

(** ** The processor *)

Section ProcessorFacts.
Context {unicode : Strings.Unicode}.

Context {World : Type}.
Variable compileArgument : string -> option (string -> bool).
Variable Getenv : string -> string.
Variable clientGet : string -> string -> World -> result Secret * World.
Variable vault_Handler git_Handler : Handler World.

Abbreviation processMatch :=
  (processMatch compileArgument Getenv clientGet vault_Handler git_Handler).
Abbreviation processMatches :=
  (processMatches compileArgument Getenv clientGet vault_Handler git_Handler).
Abbreviation processLine :=
  (processLine compileArgument Getenv clientGet vault_Handler git_Handler).
Abbreviation processScannedLine :=
  (processScannedLine compileArgument Getenv clientGet vault_Handler git_Handler).
Abbreviation scanLoop :=
  (scanLoop compileArgument Getenv clientGet vault_Handler git_Handler).
Abbreviation ProcessManifest :=
  (ProcessManifest compileArgument Getenv clientGet vault_Handler git_Handler).

(** *** Sequencing *)

Lemma bind_Ret {A B} (c : M World A) (k : A -> M World B) w a w' :
  c w = (Ret a, w') -> bind c k w = k a w'.
Proof. intros H. unfold bind. by rewrite H. Qed.

Lemma bind_Fail {A B} (c : M World A) (k : A -> M World B) w e w' :
  c w = (Fail e, w') -> bind c k w = (Fail e, w').
Proof. intros H. unfold bind. by rewrite H. Qed.

Lemma bind_Ret_inv {A B} (c : M World A) (k : A -> M World B) w b w' :
  bind c k w = (Ret b, w') ->
  exists a w1, c w = (Ret a, w1) /\ k a w1 = (Ret b, w').
Proof.
  unfold bind. destruct (c w) as [[a|e1|p] w1]; intros H; [|done..].
  by exists a, w1.
Qed.

Lemma bind_Fail_inv {A B} (c : M World A) (k : A -> M World B) w e w' :
  bind c k w = (Fail e, w') ->
  c w = (Fail e, w') \/ exists a w1, c w = (Ret a, w1) /\ k a w1 = (Fail e, w').
Proof.
  unfold bind. destruct (c w) as [[a|e1|p] w1]; intros H.
  - right. by exists a, w1.
  - left. by injection H as -> ->.
  - discriminate H.
Qed.

(** *** Lines that are copied *)

Lemma processScannedLine_comment line n w :
  isCommentedLine line = true -> processScannedLine line n w = (Ret line, w).
Proof. intros H. unfold utils.processScannedLine. by rewrite H. Qed.

Lemma processScannedLine_plain line n w :
  foundLine line = false -> processScannedLine line n w = (Ret line, w).
Proof.
  intros H. unfold utils.processScannedLine. rewrite H.
  by destruct (isCommentedLine line).
Qed.

Lemma scanLoop_cons line rest n out w :
  scanLoop (line :: rest) n out w =
  bind (processScannedLine line (n + 1))
       (fun text => scanLoop rest (n + 1) ((out +:+ text) +:+ newline)) w.
Proof. reflexivity. Qed.

Lemma scanLoop_plain lines :
  Forall (fun line => foundLine line = false) lines ->
  forall n out w,
    scanLoop lines n out w =
    (Ret (out +:+ concat_strings ((fun l => l +:+ newline) <$> lines)), w).
Proof.
  induction 1 as [|line rest Hline _ IH]; intros n out w.
  - cbn. by rewrite append_nil_r.
  - rewrite scanLoop_cons.
    rewrite (bind_Ret _ _ _ _ _ (processScannedLine_plain line (n + 1) w Hline)).
    rewrite IH. cbn [fmap list_fmap concat_strings].
    by rewrite !append_assoc.
Qed.

(** C1, as amended.  When no line of the manifest reaches the scanner's
    limit of 65536 bytes and no line matches the token grammar,
    [ProcessManifest] succeeds, leaves the world as it is, and the processed
    manifest consists of the lines of the raw manifest in order, each
    without its carriage return and followed by one line feed. *)
Theorem C1_lines_without_tokens_are_copied k8s w :
  Forall (fun l => len l < Bufio.MaxScanTokenSize) (Bufio.raw_lines (RawManifest k8s)) ->
  Forall (fun line => foundLine line = false) (Bufio.lines (RawManifest k8s)) ->
  ProcessManifest k8s w =
  (({| RawManifest := RawManifest k8s;
       ProcessedManifest :=
         concat_strings ((fun line => line +:+ newline) <$> Bufio.lines (RawManifest k8s)) |},
    Ret ()), w).
Proof.
  intros Hshort Hplain. unfold utils.ProcessManifest, Bufio.Scan.
  rewrite (scan_tokens_within_limit _ _ Hshort). fold (Bufio.lines (RawManifest k8s)).
  by rewrite (scanLoop_plain _ Hplain), append_nil_l.
Qed.

(** A line with a token is processed once; if the line that results
    matches the token grammar, it is processed once more, and what the
    second pass returns is what the line adds to the output: no third pass
    exists. *)
Lemma second_pass_is_the_last line n w lineTmp w1 :
  isCommentedLine line = false ->
  foundLine line = true ->
  processLine line n w = (Ret lineTmp, w1) ->
  processScannedLine line n w =
  (if foundLine lineTmp then processLine lineTmp n w1 else (Ret lineTmp, w1)).
Proof.
  intros Hcomment Hfound Hfirst. unfold utils.processScannedLine.
  rewrite Hcomment, Hfound. rewrite (bind_Ret _ _ _ _ _ Hfirst).
  destruct (foundLine lineTmp); [|done].
  unfold bind, ret. by destruct (processLine lineTmp n w1) as [[l2|e|p] w2].
Qed.

(** C3.  A line made of white space, [#] and any text, a token included, is
    a comment for [isCommentedLine]; the loop copies it to the output with a
    line feed and goes on in the same world: no secret is fetched and no
    handler is called for it. *)
Theorem C3_comment_lines_are_copied ws tail n w rest out :
  all_bytes Regexp.is_perl_space ws = true ->
  isCommentedLine (ws +:+ String "#" tail) = true /\
  processScannedLine (ws +:+ String "#" tail) n w = (Ret (ws +:+ String "#" tail), w) /\
  scanLoop ((ws +:+ String "#" tail) :: rest) n out w =
    scanLoop rest (n + 1) ((out +:+ (ws +:+ String "#" tail)) +:+ newline) w.
Proof.
  intros Hws. pose proof (isCommentedLine_intro ws tail Hws) as Hc.
  split; [done|]. split; [by apply processScannedLine_comment|].
  rewrite scanLoop_cons.
  by rewrite (bind_Ret _ _ _ _ _ (processScannedLine_comment _ (n + 1) w Hc)).
Qed.

(** *** Errors *)

Lemma at_index_not_Fail l i e : at_index l i <> Fail e.
Proof. unfold at_index. by destruct (l !! i). Qed.

Lemma first_argument_not_Fail re s e : first_argument re s <> Fail e.
Proof.
  unfold first_argument. destruct (Regexp.FindAllStringSubmatch re s); [done|].
  apply at_index_not_Fail.
Qed.

Lemma selectDictData_loop_not_Fail d key dat e :
  selectDictData_loop d key dat <> Fail e.
Proof.
  induction d as [|di d IH]; cbn; [done|].
  destruct (at_index _ 0) as [k0|e0|p0] eqn:H0; [|by apply at_index_not_Fail in H0|done].
  destruct (at_index _ 1) as [v1|e1|p1] eqn:H1; [|by apply at_index_not_Fail in H1|done].
  by destruct (String.eqb _ _).
Qed.

Lemma indent_lines_not_Fail lines n e : forall output, indent_lines lines n output <> Fail e.
Proof.
  induction lines as [|l lines IH]; intros output; cbn [indent_lines]; [done|].
  destruct (Strings.Repeat " " n); [apply IH|done].
Qed.

Lemma indent_not_Fail value n e : indent value n <> Fail e.
Proof.
  unfold indent.
  destruct (indent_lines _ n "") as [o|e0|p0] eqn:H; [done| |done].
  by apply indent_lines_not_Fail in H.
Qed.

Lemma applyModifier_not_Fail dat mj e : applyModifier compileArgument dat mj <> Fail e.
Proof.
  unfold applyModifier, selectData, selectDictData, defaultValue.
  destruct (0 <? len _); [|done].
  destruct (Regexp.MatchString regexBase64Modifier _); [done|].
  destruct (Regexp.MatchString regexSelectModifier _).
  { destruct (first_argument regexSelectModifier _) as [x|e0|p0] eqn:H;
      [|by apply first_argument_not_Fail in H|done].
    by destruct (compileArgument x). }
  destruct (Regexp.MatchString regexDictModifier _).
  { destruct (first_argument regexDictModifier _) as [x|e0|p0] eqn:H;
      [|by apply first_argument_not_Fail in H|done].
    apply selectDictData_loop_not_Fail. }
  destruct (Regexp.MatchString regexDefaultModifier _); [apply first_argument_not_Fail|].
  destruct (Regexp.MatchString regexIndentModifier _); [|done].
  destruct (first_argument regexIndentModifier _) as [x|e0|p0] eqn:H;
    [apply indent_not_Fail|by apply first_argument_not_Fail in H|done].
Qed.

(** The modifiers end with a value or in a panic, never with an error. *)
Lemma processModifiers_not_Fail dat modifier e :
  processModifiers compileArgument dat modifier <> Fail e.
Proof.
  unfold processModifiers. generalize (Strings.Split (Strings.ReplaceAll modifier " " "") "|").
  intros l. revert dat. induction l as [|mj l IH]; intros dat; cbn; [done|].
  destruct (applyModifier compileArgument dat mj) as [d|e0|p0] eqn:H;
    [apply IH|by apply applyModifier_not_Fail in H|done].
Qed.

Lemma checkedModifiers_Fail dat modifier n (w : World) e w' :
  checkedModifiers compileArgument dat modifier n w = (Fail e, w') ->
  e = ErrModifierUnknown modifier n.
Proof.
  unfold utils.checkedModifiers. destruct (modifierExists modifier); cbn.
  - unfold lift. intros [= H _]. by apply processModifiers_not_Fail in H.
  - unfold fail. by intros [= <- _].
Qed.

(** The loop ends at the first line that fails. *)
Lemma scanLoop_stops_at_error pre line post e w2 :
  forall n out w out1 w1,
    scanLoop pre n out w = (Ret out1, w1) ->
    processScannedLine line (n + Z.of_nat (length pre) + 1) w1 = (Fail e, w2) ->
    scanLoop (pre ++ line :: post) n out w = (Fail e, w2).
Proof.
  induction pre as [|l pre IH]; intros n out w out1 w1 Hpre Hline.
  - cbn in Hpre. injection Hpre as <- <-. cbn [app length Z.of_nat] in *.
    rewrite Z.add_0_r in Hline. rewrite scanLoop_cons. by apply bind_Fail.
  - rewrite scanLoop_cons in Hpre.
    apply bind_Ret_inv in Hpre as (text & w0 & Hl & Hpre).
    change ((l :: pre) ++ line :: post) with (l :: (pre ++ line :: post)).
    rewrite scanLoop_cons, (bind_Ret _ _ _ _ _ Hl).
    apply (IH _ _ _ _ _ Hpre).
    replace (n + 1 + Z.of_nat (length pre) + 1) with (n + Z.of_nat (length (l :: pre)) + 1);
      [done|cbn [length]; lia].
Qed.

(** *** The two modifier chains *)

(** C6, as amended.  For a match whose secret and value are obtained, the
    two chains are independent.  A data-modifier chain that is present and
    passes the check is applied to the value, and its result is spliced
    into the line in the place of the token; without one the value itself
    is spliced in.  A line-modifier chain that is present and passes the
    check is then applied to the whole line, whether the match has a
    data-modifier chain or not; without one the line is returned as it is
    after the splice. *)
Theorem C6_line_chain_applies_beside_data_chain
    n line pattern nameSecret dataModifier lineModifier w secret w1 handler val w2 val' :
  clientGet (Getenv "NAMESPACE") nameSecret w = (Ok secret, w1) ->
  selectHandler vault_Handler git_Handler nameSecret secret w1 = (Ret handler, w1) ->
  GetValueFromRegex handler pattern secret w1 = (Ok val, w2) ->
  (if 0 <? len dataModifier
   then modifierExists dataModifier = true /\
        processModifiers compileArgument val dataModifier = Ret val'
   else val' = val) ->
  (0 < len lineModifier -> modifierExists lineModifier = true) ->
  processMatch n line [pattern; nameSecret; dataModifier; lineModifier] w =
  (if 0 <? len lineModifier
   then processModifiers compileArgument (Strings.Replace line pattern val' 1) lineModifier
   else Ret (Strings.Replace line pattern val' 1),
   w2).
Proof.
  intros Hget Hsel Hcall Hdata Hline. unfold utils.processMatch. cbn [nth].
  rewrite (bind_Ret _ _ w secret w1); [|unfold getKubernetesSecret; by rewrite Hget].
  rewrite (bind_Ret _ _ _ _ _ Hsel).
  rewrite (bind_Ret _ _ w1 val w2); [|unfold callHandler; by rewrite Hcall].
  rewrite (bind_Ret _ _ w2 val' w2).
  2:{ destruct (0 <? len dataModifier).
      - destruct Hdata as [Hex Hrun]. unfold utils.checkedModifiers, utils.lift.
        by rewrite Hex, Hrun.
      - by subst val'. }
  destruct (Z.ltb_spec 0 (len lineModifier)) as [Hlen|_]; [|done].
  unfold utils.bind, utils.checkedModifiers, utils.lift, utils.ret.
  rewrite (Hline Hlen). cbn [negb].
  destruct (processModifiers compileArgument _ lineModifier) as [v|e|p]; [|done..].
  by rewrite Replace_whole.
Qed.


End ProcessorFacts.

(** ** [select] *)

Lemma selectData_loop_find re dat d :
  selectData_loop d re dat =
  match List.find (fun e => re (Strings.TrimSpace e)) d with
  | Some e => Strings.TrimSpace e
  | None => dat
  end.
Proof. induction d as [|di d IH]; cbn; [done|]. by destruct (re (Strings.TrimSpace di)). Qed.

(** ** Runs in the example world *)

(** A manifest with a carriage return, a comment and a last line without a
    line feed comes out with one line feed after each line. *)
Lemma C1_witness :
  Demo.ProcessManifest
    {| RawManifest :=
         "kind: ConfigMap" +:+ String CR newline +:+ "# no tokens" +:+ newline +:+ "data: {}";
       ProcessedManifest := "" |} [] =
  (({| RawManifest :=
         "kind: ConfigMap" +:+ String CR newline +:+ "# no tokens" +:+ newline +:+ "data: {}";
       ProcessedManifest :=
         "kind: ConfigMap" +:+ newline +:+ "# no tokens" +:+ newline +:+ "data: {}" +:+ newline |},
    Ret ()), []).
Proof.
  eapply eq_trans.
  - apply C1_lines_without_tokens_are_copied; repeat constructor.
  - vm_compute. reflexivity.
Defined.

(** C1 as stated fails on a line of 65536 bytes: the line has no token, and
    [ProcessManifest] returns the scanner's error instead of the text. *)
Lemma C1_counterexample :
  Forall (fun line => foundLine line = false) (Bufio.lines Demo.long_line) /\
  Demo.ProcessManifest {| RawManifest := Demo.long_line; ProcessedManifest := "" |} [] =
  (({| RawManifest := Demo.long_line; ProcessedManifest := "" |},
    Fail (ErrScanner Bufio.ErrTooLong)), []).
Proof.
  assert (Hn : (Z.to_nat Bufio.MaxScanTokenSize <> 0)%nat)
    by (unfold Bufio.MaxScanTokenSize; lia).
  assert (Hlines : Bufio.raw_lines Demo.long_line = [Demo.long_line]).
  { apply raw_lines_without_LF.
    - unfold Demo.long_line. destruct (Z.to_nat Bufio.MaxScanTokenSize); done.
    - by apply all_bytes_Repeat_byte. }
  split.
  - unfold Bufio.lines. rewrite Hlines. constructor; [|constructor].
    apply foundLine_without_dollar, all_bytes_dropCR. by apply all_bytes_Repeat_byte.
  - unfold Demo.ProcessManifest, utils.ProcessManifest, Bufio.Scan.
    cbn [RawManifest]. rewrite Hlines. cbn [Bufio.scan_tokens].
    replace (len Demo.long_line) with Bufio.MaxScanTokenSize.
    + by rewrite Z.leb_refl.
    + unfold len, Demo.long_line. rewrite length_Repeat_byte, Z2Nat.id; [done|].
      unfold Bufio.MaxScanTokenSize. lia.
Qed.

(** A comment with a token in it. *)
Lemma C3_witness :
  isCommentedLine "  # url: ${git-01:LDAP_URL}" = true /\
  Demo.processScannedLine "  # url: ${git-01:LDAP_URL}" 1 [] =
    (Ret "  # url: ${git-01:LDAP_URL}", []) /\
  Demo.ProcessManifest (Demo.manifest ["  # url: ${git-01:LDAP_URL}"]) [] =
  (({| RawManifest := "  # url: ${git-01:LDAP_URL}" +:+ newline;
       ProcessedManifest := "  # url: ${git-01:LDAP_URL}" +:+ newline |}, Ret ()), []).
Proof.
  destruct (C3_comment_lines_are_copied (unicode := Demo.unicode) Demo.compileArgument Demo.Getenv
              Demo.clientGet Demo.vault_Handler Demo.git_Handler
              "  " " url: ${git-01:LDAP_URL}" 1 ([] : Demo.World) [] "" eq_refl)
    as (Hcomment & Hline & _).
  split; [exact Hcomment|]. split; [exact Hline|].
  vm_compute. reflexivity.
Defined.

(** C4.  The chain [| foo | base64] has the element [foo], which no
    recognizer matches; the check accepts the chain, because [base64] occurs
    in it, and the line is processed with [foo] passed over. *)
Theorem C4_unknown_element_passes_the_check :
  modifierExists "| foo | base64" = true /\
  Demo.processLine "pw: ${vault-01:app/data/ldap@bindPassword | foo | base64}" 3 [] =
  (Ret "pw: czNjcmV0",
   ["get operators/vault-01";
    "vault ${vault-01:app/data/ldap@bindPassword | foo | base64}"]).
Proof. split; vm_compute; reflexivity. Qed.


(** A match with both chains: the value is encoded, then the line is
    indented.  A match with a data-modifier chain alone: the value is
    encoded and spliced in. *)
Lemma C6_witness :
  Demo.processMatch 1 "pw: ${vault-01:app/data/ldap@bindPassword | base64} | indent4"
    ["${vault-01:app/data/ldap@bindPassword | base64} | indent4";
     "vault-01"; "| base64"; "| indent4"] [] =
  (Ret "    pw: czNjcmV0",
   ["get operators/vault-01";
    "vault ${vault-01:app/data/ldap@bindPassword | base64} | indent4"]) /\
  Demo.processMatch 1 "pw: ${vault-01:app/data/ldap@bindPassword | base64}"
    ["${vault-01:app/data/ldap@bindPassword | base64}"; "vault-01"; "| base64"; ""] [] =
  (Ret "pw: czNjcmV0",
   ["get operators/vault-01"; "vault ${vault-01:app/data/ldap@bindPassword | base64}"]).
Proof.
  split.
  - eapply eq_trans.
    + eapply (C6_line_chain_applies_beside_data_chain Demo.compileArgument Demo.Getenv
               Demo.clientGet Demo.vault_Handler Demo.git_Handler
               1 "pw: ${vault-01:app/data/ldap@bindPassword | base64} | indent4"
               "${vault-01:app/data/ldap@bindPassword | base64} | indent4"
               "vault-01" "| base64" "| indent4" [] _ _ _ "s3cret" _ "czNjcmV0");
        try (vm_compute; reflexivity);
        try (intros _; vm_compute; reflexivity).
      vm_compute. split; reflexivity.
    + vm_compute. reflexivity.
  - eapply eq_trans.
    + eapply (C6_line_chain_applies_beside_data_chain Demo.compileArgument Demo.Getenv
               Demo.clientGet Demo.vault_Handler Demo.git_Handler
               1 "pw: ${vault-01:app/data/ldap@bindPassword | base64}"
               "${vault-01:app/data/ldap@bindPassword | base64}"
               "vault-01" "| base64" "" [] _ _ _ "s3cret" _ "czNjcmV0");
        try (vm_compute; reflexivity);
        try (vm_compute; discriminate).
      vm_compute. split; reflexivity.
    + vm_compute. reflexivity.
Defined.

(** C6 as stated fails on a token with both chains: the data-modifier chain
    is present, and the line-modifier chain is applied all the same (the
    line comes out indented). *)
Lemma C6_counterexample :
  Regexp.FindAllStringSubmatch lineRegex
    "pw: ${vault-01:app/data/ldap@bindPassword | base64} | indent4" =
  [["${vault-01:app/data/ldap@bindPassword | base64} | indent4";
    "vault-01"; "| base64"; "| indent4"]] /\
  Demo.processLine "pw: ${vault-01:app/data/ldap@bindPassword | base64} | indent4" 1 [] =
  (Ret "    pw: czNjcmV0",
   ["get operators/vault-01";
    "vault ${vault-01:app/data/ldap@bindPassword | base64} | indent4"]).
Proof. split; vm_compute; reflexivity. Qed.

(** C7 as stated fails for the pattern [a] on [xay,a]: the code returns
    [xay], which contains a match, while [a] is the first element that the
    pattern matches from its first byte to its last. *)
Lemma C7_counterexample :
  selectData Demo.compileArgument "xay,a" "select(a)" = Ret "xay" /\
  Demo.selectWholeElement "xay,a" "a" = Some "a".
Proof. split; vm_compute; reflexivity. Qed.

(** C8.  The first [.git] of the last segment is removed, not the suffix:
    the repository [user.github.io.git] is cloned into
    [/tmp/userhub.io.git]. *)
Theorem C8_first_dot_git_is_removed :
  git.dirDest "https://github.com/user/user.github.io.git" = "/tmp/userhub.io.git".
Proof. vm_compute. reflexivity. Qed.

(** C9.  [dict] on a value with an element without [=] ends in a panic,
    index 1 of a slice of length 1, whatever the patterns of [select]
    compile to. *)
Theorem C9_dict_panics_without_separator (compileArgument : string -> option (string -> bool)) :
  processModifiers compileArgument "ldap-a" "| dict(a)" = Panic (IndexOutOfRange 1 1).
Proof. vm_compute. reflexivity. Qed.

(** ** The clone directory *)

(** For a url that ends in [/name.git], where [name] has no slash and the
    first [.git] of [name.git] is its suffix, the clone directory is
    [/tmp/name]. *)
Theorem dirDest_strips_the_suffix base name :
  all_bytes (not_byte "/") name = true ->
  Strings.Index (name +:+ ".git") ".git" = len name ->
  git.dirDest (base +:+ String "/" (name +:+ ".git")) = "/tmp/" +:+ name.
Proof.
  intros Hname Hfirst. unfold git.dirDest, Strings.LastIndex.
  rewrite last_index_from_last by (rewrite all_bytes_app, Hname; done).
  replace (Z.to_nat (0 + len base + 1)) with (String.length (base +:+ "/"))
    by (rewrite length_append; unfold len; cbn; lia).
  replace (base +:+ String "/" (name +:+ ".git")) with ((base +:+ "/") +:+ (name +:+ ".git"))
    by (by rewrite append_assoc).
  rewrite drop_bytes_app. unfold Strings.Replace.
  by rewrite (replace_first_at_end ".git" name ltac:(done) 0 Hfirst).
Qed.

Lemma dirDest_witness :
  git.dirDest "https://example.org/team/config.git" = "/tmp/config".
Proof.
  apply (dirDest_strips_the_suffix "https://example.org/team" "config"); reflexivity.
Defined.

(** ** More runs *)


(** [dict] returns the value of the key, and the whole value when the key is
    missing. *)
Lemma dict_looks_up_the_key :
  selectDictData "a=1, b=2" "dict(b)" = Ret "2" /\
  selectDictData "a=1, b=2" "dict(c)" = Ret "a=1, b=2".
Proof. split; vm_compute; reflexivity. Qed.

(** [indent2] strips the leading white space of each line of the value and
    puts two blanks before it; the last line feed is dropped. *)
Lemma indent_reindents_each_line :
  indent ("x" +:+ newline +:+ "  y") 2 = Ret ("  x" +:+ newline +:+ "  y").
Proof. vm_compute. reflexivity. Qed.

(** [default] puts its argument in the place of the value, with or without
    quotes around the argument. *)
Lemma default_replaces_the_value (compileArgument : string -> option (string -> bool)) :
  processModifiers compileArgument "s3cret" "| default(foo)" = Ret "foo" /\
  processModifiers compileArgument "s3cret"
    ("| default(" +:+ dquote +:+ "test" +:+ dquote +:+ ") | base64") = Ret "dGVzdA==".
Proof. split; vm_compute; reflexivity. Qed.

(** * Further properties *)

Import Regexp Shapes.

(** ** Strings: [Contains], [Split], [Replace] *)

Lemma index_from_shift s sub :
  forall i, 0 <= i ->
    (Strings.index_from 0 s sub = -1 /\ Strings.index_from i s sub = -1) \/
    (0 <= Strings.index_from 0 s sub /\
     Strings.index_from i s sub = i + Strings.index_from 0 s sub).
Proof.
  induction s as [|a s IH]; intros i Hi; cbn [Strings.index_from].
  - destruct (Strings.HasPrefix "" sub); [right; lia | left; done].
  - destruct (Strings.HasPrefix (String a s) sub); [right; lia|].
    assert (H1 : 0 <= 1) by lia. assert (Hi1 : 0 <= i + 1) by lia.
    change (0 + 1) with 1.
    destruct (IH 1 H1) as [[H0 H2]|[H0 H2]];
      destruct (IH (i + 1) Hi1) as [[G0 G1]|[G0 G1]]; lia.
Qed.

Lemma Contains_cons a s sub :
  Strings.Contains (String a s) sub =
  Strings.HasPrefix (String a s) sub || Strings.Contains s sub.
Proof.
  unfold Strings.Contains, Strings.Index. cbn [Strings.index_from].
  destruct (Strings.HasPrefix (String a s) sub); [done|]. cbn [orb].
  change (0 + 1) with 1.
  destruct (index_from_shift s sub 1 ltac:(lia)) as [[H0 H1]|[H0 H1]].
  - by rewrite H0, H1.
  - rewrite H1. transitivity true; [|symmetry]; apply Z.leb_le; lia.
Qed.

Lemma Contains_nil sub : Strings.Contains "" sub = Strings.HasPrefix "" sub.
Proof. unfold Strings.Contains, Strings.Index. cbn. by destruct (Strings.HasPrefix "" sub). Qed.

(** [Split] of a text without the separator. *)
(** [Split] of a text without the separator. *)
Lemma cut_without s sep : Strings.Contains s sep = false -> Strings.cut s sep = None.
Proof.
  induction s as [|a s IH]; intros H.
  - rewrite Contains_nil in H. cbn. by rewrite H.
  - rewrite Contains_cons in H. apply orb_false_elim in H as [Hp Hc].
    cbn [Strings.cut]. rewrite Hp, IH; done.
Qed.

Lemma Split_without s sep :
  sep <> "" -> Strings.Contains s sep = false -> Strings.Split s sep = [s].
Proof.
  intros Hsep H. unfold Strings.Split. destruct sep as [|b sep]; [done|].
  destruct (String.length s); cbn; [done|]. by rewrite cut_without.
Qed.

Lemma cut_with s sep :
  Strings.Contains s sep = true -> is_Some (Strings.cut s sep).
Proof.
  induction s as [|a s IH]; intros H.
  - rewrite Contains_nil in H. cbn. by rewrite H.
  - rewrite Contains_cons in H. cbn [Strings.cut].
    destruct (Strings.HasPrefix (String a s) sep) eqn:Hp; [done|].
    cbn in H. destruct (IH H) as [[b r] ->]. done.
Qed.

Lemma split_fuel_cons fuel s sep : exists e es, Strings.split_fuel fuel s sep = e :: es.
Proof.
  destruct fuel; cbn; [by eauto|]. destruct (Strings.cut s sep) as [[b r]|]; by eauto.
Qed.

Lemma Split_with s b :
  Strings.Contains s (String b "") = true ->
  exists k v rest, Strings.Split s (String b "") = k :: v :: rest.
Proof.
  intros H. unfold Strings.Split.
  destruct (cut_with _ _ H) as [[k r] Hc].
  destruct (cut_Some _ _ _ _ Hc) as [_ Hlen]. cbn in Hlen.
  destruct (String.length s) as [|n]; [lia|]. cbn [Strings.split_fuel]. rewrite Hc.
  destruct (split_fuel_cons n r (String b "")) as (v & rest & ->). by eauto.
Qed.

Lemma selectDictData_loop_entry di rest key dat k v :
  dictEntry di = Some (k, v) ->
  selectDictData_loop (di :: rest) key dat =
  if String.eqb k key then Ret v else selectDictData_loop rest key dat.
Proof.
  unfold dictEntry. cbn [selectDictData_loop].
  destruct (Strings.Split (Strings.TrimSpace di) "=") as [|k0 [|v0 l]]; [done..|].
  intros [= <- <-]. reflexivity.
Qed.

Lemma selectDictData_loop_skips pre rest key dat :
  Forall (fun di => exists k v, dictEntry di = Some (k, v) /\ k <> key) pre ->
  selectDictData_loop (pre ++ rest) key dat = selectDictData_loop rest key dat.
Proof.
  induction 1 as [|di pre (k & v & He & Hk) _ IH]; [done|].
  change ((di :: pre) ++ rest) with (di :: (pre ++ rest)).
  rewrite (selectDictData_loop_entry _ _ _ _ _ _ He).
  apply String.eqb_neq in Hk. by rewrite Hk.
Qed.

(** [dict(key)] returns the value of the first element of the value whose
    key is [key], when every element before it has a [=] and another key:
    the elements are the pieces between commas, the key of an element is
    the trimmed text before its first [=], its value the trimmed text
    between the first [=] and the second. *)
Theorem dict_returns_the_first_binding dat modifier key pre di post v :
  first_argument regexDictModifier modifier = Ret key ->
  Strings.Split dat "," = pre ++ di :: post ->
  Forall (fun di => exists k v, dictEntry di = Some (k, v) /\ k <> key) pre ->
  dictEntry di = Some (key, v) ->
  selectDictData dat modifier = Ret v.
Proof.
  intros Harg Hsplit Hpre Hdi. unfold selectDictData. rewrite Harg, Hsplit.
  rewrite (selectDictData_loop_skips _ _ _ _ Hpre).
  rewrite (selectDictData_loop_entry _ _ _ _ _ _ Hdi). by rewrite String.eqb_refl.
Qed.

(** [dict(key)] returns the whole value, not the empty text, when every
    element has a [=] and none has the key. *)
Theorem dict_without_the_key dat modifier key :
  first_argument regexDictModifier modifier = Ret key ->
  Forall (fun di => exists k v, dictEntry di = Some (k, v) /\ k <> key) (Strings.Split dat ",") ->
  selectDictData dat modifier = Ret dat.
Proof.
  intros Harg Hall. unfold selectDictData. rewrite Harg.
  rewrite <- (app_nil_r (Strings.Split dat ",")).
  by rewrite (selectDictData_loop_skips _ _ _ _ Hall).
Qed.

(** [dict(key)] panics at the first element without [=] that it reaches:
    the elements before it have a [=] and another key.  The index is 1, the
    length 1. *)
Theorem dict_panics_at_an_element_without_separator dat modifier key pre di post :
  first_argument regexDictModifier modifier = Ret key ->
  Strings.Split dat "," = pre ++ di :: post ->
  Forall (fun di => exists k v, dictEntry di = Some (k, v) /\ k <> key) pre ->
  Strings.Contains (Strings.TrimSpace di) "=" = false ->
  selectDictData dat modifier = Panic (IndexOutOfRange 1 1).
Proof.
  intros Harg Hsplit Hpre Hdi. unfold selectDictData. rewrite Harg, Hsplit.
  rewrite (selectDictData_loop_skips _ _ _ _ Hpre).
  cbn [selectDictData_loop]. by rewrite (Split_without _ "=" ltac:(done) Hdi).
Qed.

Lemma dictEntry_with di :
  Strings.Contains (Strings.TrimSpace di) "=" = true -> is_Some (dictEntry di).
Proof.
  intros H. unfold dictEntry. destruct (Split_with _ _ H) as (k & v & rest & ->). done.
Qed.


(** With a negative count every occurrence is replaced, whatever the count. *)
Lemma replace_from_negative old new s :
  forall n m skip, n < 0 -> m < 0 ->
    Strings.replace_from old new n skip s = Strings.replace_from old new m skip s.
Proof.
  induction s as [|a s IH]; intros n m skip Hn Hm; [done|].
  cbn [Strings.replace_from]. destruct skip as [|k]; [|by apply IH].
  replace (n =? 0) with false by (symmetry; apply Z.eqb_neq; lia).
  replace (m =? 0) with false by (symmetry; apply Z.eqb_neq; lia).
  cbn [negb andb]. destruct (Strings.HasPrefix (String a s) old).
  - f_equal. apply IH; lia.
  - f_equal. by apply IH.
Qed.

(** Replacing a byte everywhere goes through a concatenation. *)
Lemma replace_byte_app b new s t :
  forall n, n < 0 ->
  Strings.replace_from (String b "") new n 0 (s +:+ t) =
  Strings.replace_from (String b "") new n 0 s +:+
  Strings.replace_from (String b "") new n 0 t.
Proof.
  induction s as [|a s IH]; intros n Hn; [done|].
  rewrite append_cons. cbn [Strings.replace_from Strings.HasPrefix String.length Nat.sub].
  replace (n =? 0) with false by (symmetry; apply Z.eqb_neq; lia).
  cbn [negb andb]. destruct (Ascii.eqb a b); cbn [andb].
  - rewrite IH by lia. rewrite append_assoc. do 2 f_equal.
    apply replace_from_negative; lia.
  - rewrite append_cons. f_equal. by apply IH.
Qed.

Lemma ReplaceAll_byte_app b new s t :
  Strings.ReplaceAll (s +:+ t) (String b "") new =
  Strings.ReplaceAll s (String b "") new +:+ Strings.ReplaceAll t (String b "") new.
Proof. unfold Strings.ReplaceAll, Strings.Replace. by apply replace_byte_app. Qed.

(** The bound on the pieces never cuts [Split] short. *)
Lemma split_fuel_enough sep :
  sep <> "" ->
  forall f1 f2 s,
    (String.length s <= f1)%nat -> (String.length s <= f2)%nat ->
    Strings.split_fuel f1 s sep = Strings.split_fuel f2 s sep.
Proof.
  intros Hsep. assert (String.length sep <> 0%nat) by (by destruct sep).
  induction f1 as [|f1 IH]; intros f2 s H1 H2.
  - destruct s; [|cbn in H1; lia]. destruct f2; cbn; [done|].
    destruct (Strings.HasPrefix "" sep) eqn:Hp; [by destruct sep|done].
  - destruct f2 as [|f2].
    + destruct s; [|cbn in H2; lia]. cbn.
      destruct (Strings.HasPrefix "" sep) eqn:Hp; [by destruct sep|done].
    + cbn [Strings.split_fuel]. destruct (Strings.cut s sep) as [[b r]|] eqn:Hc; [|done].
      apply cut_Some in Hc as [_ Hl]. f_equal. apply IH; lia.
Qed.

Lemma cut_byte_app_l s t b before after :
  Strings.cut s (String b "") = Some (before, after) ->
  Strings.cut (s +:+ t) (String b "") = Some (before, after +:+ t).
Proof.
  revert before. induction s as [|a s IH]; intros before H; [done|].
  rewrite append_cons. cbn [Strings.cut Strings.HasPrefix String.length drop_bytes] in *.
  destruct (Ascii.eqb a b); cbn [andb] in *.
  - by injection H as <- <-.
  - destruct (Strings.cut s (String b "")) as [[x r]|] eqn:Hc; [|done].
    injection H as <- <-. by rewrite (IH x eq_refl).
Qed.

Lemma cut_byte_app_r s t b :
  Strings.cut s (String b "") = None ->
  Strings.cut (s +:+ String b t) (String b "") = Some (s, t).
Proof.
  induction s as [|a s IH]; intros H.
  - rewrite append_nil_l. cbn. by rewrite Ascii.eqb_refl.
  - rewrite append_cons. cbn [Strings.cut Strings.HasPrefix String.length drop_bytes] in *.
    destruct (Ascii.eqb a b); cbn [andb] in *; [done|].
    destruct (Strings.cut s (String b "")) as [[x r]|] eqn:Hc; [done|].
    by rewrite IH.
Qed.

Lemma split_fuel_byte_app b t :
  forall f1 f2 s,
    (String.length s <= f1)%nat -> (String.length t <= f2)%nat ->
    Strings.split_fuel (f1 + S f2) (s +:+ String b t) (String b "") =
    Strings.split_fuel f1 s (String b "") ++ Strings.split_fuel f2 t (String b "").
Proof.
  induction f1 as [|f1 IH]; intros f2 s H1 H3.
  - destruct s; [|cbn in H1; lia]. rewrite append_nil_l.
    cbn [Nat.add Strings.split_fuel Strings.cut Strings.HasPrefix String.length drop_bytes].
    by rewrite Ascii.eqb_refl.
  - cbn [Nat.add Strings.split_fuel].
    destruct (Strings.cut s (String b "")) as [[x r]|] eqn:Hc.
    + rewrite (cut_byte_app_l _ _ _ _ _ Hc). apply cut_Some in Hc as [_ Hl]. cbn in Hl.
      cbn [app]. f_equal. apply IH; lia.
    + rewrite (cut_byte_app_r _ _ _ Hc). cbn [app]. f_equal.
      apply split_fuel_enough; [done|lia..].
Qed.

(** The pieces of [s], the separator and [t] are the pieces of [s] and
    then those of [t]. *)
Lemma Split_byte_app b s t :
  Strings.Split (s +:+ String b t) (String b "") =
  Strings.Split s (String b "") ++ Strings.Split t (String b "").
Proof.
  unfold Strings.Split. rewrite length_append. cbn [String.length].
  by apply split_fuel_byte_app.
Qed.

Section Chains.
Variable compileArgument : string -> option (string -> bool).

Lemma processModifiers_loop_app l1 l2 dat :
  processModifiers_loop compileArgument (l1 ++ l2) dat =
  match processModifiers_loop compileArgument l1 dat with
  | Ret dat' => processModifiers_loop compileArgument l2 dat'
  | Fail e => Fail e
  | Panic p => Panic p
  end.
Proof.
  revert dat. induction l1 as [|m l1 IH]; intros dat; cbn; [done|].
  destruct (applyModifier compileArgument dat m); [apply IH|done..].
Qed.

(** A chain [m1 | m2] is [m1], then [m2] on the result of [m1]; an error
    or a panic of [m1] ends the chain. *)
Theorem chain_applies_left_to_right dat m1 m2 :
  processModifiers compileArgument dat (m1 +:+ "|" +:+ m2) =
  match processModifiers compileArgument dat m1 with
  | Ret dat' => processModifiers compileArgument dat' m2
  | Fail e => Fail e
  | Panic p => Panic p
  end.
Proof.
  unfold processModifiers.
  rewrite !ReplaceAll_byte_app.
  change (Strings.ReplaceAll "|" " " "") with "|".
  rewrite append_cons, append_nil_l, Split_byte_app.
  apply processModifiers_loop_app.
Qed.
End Chains.


(** ** The matcher on texts of a given shape *)

Lemma pos_cursor_after ws p i r : pos (cursor_after ws p i r) = (i + String.length ws)%nat.
Proof.
  revert p i. induction ws as [|a ws IH]; intros p i; cbn; [lia|]. rewrite IH. lia.
Qed.

Lemma cursor_after_spec ws p i r :
  exists q, cursor_after ws p i r = Cursor q (i + String.length ws) r.
Proof.
  revert p i. induction ws as [|a ws IH]; intros p i; cbn.
  - exists p. by rewrite Nat.add_0_r.
  - destruct (IH (Some a) (S i)) as [q ->]. exists q. f_equal. lia.
Qed.

Ltac name_cursor q :=
  match goal with
  | |- context [cursor_after ?ws ?p ?i ?r] =>
      let E := fresh "E" in
      destruct (cursor_after_spec ws p i r) as [q E]; rewrite E; clear E
  end.

(** A greedy repetition of a class before a byte outside the class, or at
    the end of the text, reads nothing. *)
Lemma iterate_class_nothing cs k fuel p i r m :
  starts_without (cs_match cs) r ->
  iterate (exec (OpChar cs)) true k fuel (Cursor p i r) m = k (Cursor p i r) m.
Proof.
  intros Hr. destruct fuel as [|fuel]; [done|]. cbn [iterate]. rewrite exec_char. cbn [rest].
  destruct r as [|a r]; [done|]. cbn in Hr. by rewrite Hr.
Qed.

(** A greedy repetition of a class reads the whole run of bytes of the
    class when the continuation succeeds behind it. *)
Lemma iterate_class_run cs k r ws x :
  forall fuel p i m,
    (String.length ws <= fuel)%nat ->
    all_bytes (cs_match cs) ws = true ->
    starts_without (cs_match cs) r ->
    k (cursor_after ws p i r) m = Some x ->
    iterate (exec (OpChar cs)) true k fuel (Cursor p i (ws +:+ r)) m = Some x.
Proof.
  induction ws as [|a ws IH]; intros fuel p i m Hfuel Hall Hr Hk.
  - rewrite append_nil_l. by rewrite iterate_class_nothing.
  - destruct fuel as [|fuel]; [cbn in Hfuel; lia|].
    cbn in Hall. apply andb_prop in Hall as [Ha Hws].
    rewrite append_cons. cbn [iterate]. rewrite exec_char. cbn [rest pos].
    rewrite Ha.
    replace (i <? S i)%nat with true by (symmetry; apply Nat.ltb_lt; lia).
    rewrite (IH fuel (Some a) (S i) m); [done|cbn in Hfuel; lia|done..].
Qed.

(** A lazy repetition of [.] stops at the first place where the
    continuation succeeds. *)
Lemma iterate_lazy_any k r x u :
  forall fuel p i m,
    (String.length u <= fuel)%nat ->
    all_bytes (not_byte LF) u = true ->
    (forall v1 v2, u = v1 +:+ v2 -> v2 <> "" ->
       k (cursor_after v1 p i (v2 +:+ r)) m = None) ->
    k (cursor_after u p i r) m = Some x ->
    iterate (exec any) false k fuel (Cursor p i (u +:+ r)) m = Some x.
Proof.
  induction u as [|a u IH]; intros fuel p i m Hfuel Hall Hno Hk.
  - rewrite append_nil_l. cbn in Hk. destruct fuel as [|fuel]; [done|].
    cbn [iterate]. by rewrite Hk.
  - destruct fuel as [|fuel]; [cbn in Hfuel; lia|].
    cbn in Hall. apply andb_prop in Hall as [Ha Hu].
    rewrite append_cons. cbn [iterate].
    pose proof (Hno "" (String a u) eq_refl ltac:(done)) as H0.
    cbn [cursor_after] in H0. rewrite append_cons in H0. rewrite H0.
    unfold any. rewrite exec_char. cbn [rest pos cs_match].
    unfold not_byte in Ha. rewrite Ha.
    replace (i <? S i)%nat with true by (symmetry; apply Nat.ltb_lt; lia).
    apply IH; [cbn in Hfuel; lia|done| |done].
    intros v1 v2 -> Hv2. apply (Hno (String a v1) v2); [by rewrite append_cons|done].
Qed.

Lemma exec_lazy_any k r x a u p i m :
  all_bytes (not_byte LF) (String a u) = true ->
  (forall v1 v2, u = v1 +:+ v2 -> v2 <> "" ->
     k (cursor_after (String a v1) p i (v2 +:+ r)) m = None) ->
  k (cursor_after (String a u) p i r) m = Some x ->
  exec (OpPlus false any) (Cursor p i (String a u +:+ r)) m k = Some x.
Proof.
  intros Hall Hno Hk. cbn [exec]. rewrite append_cons.
  cbn [exec any rest pos cs_match]. cbn in Hall. apply andb_prop in Hall as [Ha Hu].
  unfold not_byte in Ha. rewrite Ha. cbn [rest].
  apply iterate_lazy_any; [rewrite length_append; lia|done| |done].
  intros v1 v2 E Hv2. by apply Hno.
Qed.

Lemma exec_star g r c m k :
  exec (OpStar g r) c m k = iterate (exec r) g k (String.length (rest c)) c m.
Proof. reflexivity. Qed.

Lemma exec_quest_greedy r c m k :
  exec (OpQuest true r) c m k =
  match exec r c m k with Some x => Some x | None => k c m end.
Proof. reflexivity. Qed.

Lemma exec_capture n r c m k :
  exec (OpCapture n r) c m k = exec r c m (fun c' m' => k c' ((n, (pos c, pos c')) :: m')).
Proof. reflexivity. Qed.

(** A greedy star of a class before a byte outside the class. *)
Lemma exec_star_nothing cs k p i r m :
  starts_without (cs_match cs) r ->
  exec (OpStar true (OpChar cs)) (Cursor p i r) m k = k (Cursor p i r) m.
Proof. intros Hr. rewrite exec_star. by apply iterate_class_nothing. Qed.

(** An optional byte of a class before a byte outside the class. *)
Lemma exec_quest_nothing cs k p i r m :
  starts_without (cs_match cs) r ->
  exec (OpQuest true (OpChar cs)) (Cursor p i r) m k = k (Cursor p i r) m.
Proof.
  intros Hr. rewrite exec_quest_greedy, exec_char. cbn [rest].
  destruct r as [|a r]; [done|]. cbn in Hr. by rewrite Hr.
Qed.

Lemma argument_byte_not_LF a : argument_byte a = true -> Ascii.eqb a LF = false.
Proof.
  unfold argument_byte. intros H. destruct (Ascii.eqb a LF) eqn:E; [|done].
  apply Ascii.eqb_eq in E as ->. done.
Qed.

Lemma all_argument_bytes_not_LF v :
  all_bytes argument_byte v = true -> all_bytes (not_byte LF) v = true.
Proof.
  induction v as [|a v IH]; [done|]. cbn [all_bytes]. intros H.
  apply andb_prop in H as [Ha Hv]. rewrite IH by done.
  unfold not_byte. by rewrite (argument_byte_not_LF a Ha).
Qed.

Lemma argument_byte_inv a :
  argument_byte a = true ->
  is_perl_space a = false /\ cs_match quotes a = false /\ Ascii.eqb a ")" = false.
Proof.
  unfold argument_byte. intros H. apply andb_prop in H as [H H3]. apply andb_prop in H as [H1 H2].
  by rewrite !negb_true_iff in *.
Qed.

Lemma closing_fails a r p i m k :
  argument_byte a = true -> exec closing (Cursor p i (String a r)) m k = None.
Proof.
  intros Ha. apply argument_byte_inv in Ha as (Hs & Hq & Hp).
  unfold closing. rewrite exec_concat, exec_quest_nothing by done.
  rewrite exec_concat, exec_star_nothing by done.
  unfold lit. rewrite exec_char. cbn [rest cs_match]. by rewrite Hp.
Qed.

Lemma closing_matches r p i m k :
  exec closing (Cursor p i (String ")" r)) m k = k (Cursor (Some ")"%char) (S i) r) m.
Proof.
  unfold closing. rewrite exec_concat, exec_quest_nothing by done.
  rewrite exec_concat, exec_star_nothing by done.
  unfold lit. by rewrite exec_char.
Qed.

Lemma argumentTail_matches a v post p i m :
  all_bytes argument_byte (String a v) = true ->
  exec argumentTail (Cursor p i ("(" +:+ String a v +:+ ")" +:+ post)) m accept =
  Some (Cursor (Some ")"%char) (i + String.length v + 3) post,
        (1%nat, (S i, i + String.length v + 2)%nat) :: m).
Proof.
  intros Hv. pose proof Hv as Hb. cbn in Hb. apply andb_prop in Hb as [Ha Hv'].
  pose proof (argument_byte_inv a Ha) as (Hs & Hq & Hp).
  unfold argumentTail. fold closing.
  rewrite !append_cons, !append_nil_l.
  rewrite exec_concat, exec_star_nothing by done.
  rewrite exec_concat, exec_char. cbn [rest pos cs_match Ascii.eqb Bool.eqb].
  rewrite exec_concat, exec_star_nothing by done.
  rewrite exec_concat, exec_quest_nothing by done.
  rewrite exec_concat, exec_capture. cbn [pos].
  rewrite <- append_cons.
  erewrite exec_lazy_any; [reflexivity| by apply all_argument_bytes_not_LF | |].
  - intros v1 v2 -> Hv2. destruct v2 as [|b v2]; [done|].
    rewrite all_bytes_app in Hv'. apply andb_prop in Hv' as [_ Hv2']. cbn in Hv2'.
    apply andb_prop in Hv2' as [Hb _].
    rewrite append_cons. name_cursor q. by apply closing_fails.
  - name_cursor q. rewrite closing_matches. unfold accept. cbn [pos String.length].
    replace (S (S i + S (String.length v)))%nat with (i + String.length v + 3)%nat by lia.
    by replace (S i + S (String.length v))%nat with (i + String.length v + 2)%nat by lia.
Qed.

Lemma argument_patterns :
  regexSelectModifier = literal "select" argumentTail /\
  regexDictModifier = literal "dict" argumentTail /\
  regexDefaultModifier = literal "default" argumentTail.
Proof. repeat split; reflexivity. Qed.

Lemma exec_literal name r k s m :
  forall p i,
    exec (literal name r) (Cursor p i (name +:+ s)) m k =
    exec r (cursor_after name p i s) m k.
Proof.
  induction name as [|a name IH]; intros p i; [done|].
  cbn [literal]. rewrite exec_concat. unfold lit. rewrite exec_char, append_cons.
  cbn [rest pos cs_match]. rewrite Ascii.eqb_refl. apply IH.
Qed.

Lemma take_bytes_app s t : take_bytes (String.length s) (s +:+ t) = s.
Proof. induction s as [|a s IH]; [by destruct t|]. rewrite append_cons. cbn. by rewrite IH. Qed.

Lemma drop_bytes_add n k s : drop_bytes (n + k) s = drop_bytes k (drop_bytes n s).
Proof.
  revert s. induction n as [|n IH]; intros s; [done|].
  destruct s as [|a s]; cbn; [by destruct k|apply IH].
Qed.

Lemma slice_middle pre s post :
  slice (pre +:+ s +:+ post) (String.length pre) (String.length pre + String.length s) = s.
Proof.
  unfold slice. rewrite drop_bytes_app.
  replace (String.length pre + String.length s - String.length pre)%nat
    with (String.length s) by lia.
  apply take_bytes_app.
Qed.

Lemma NumSubexp_literal name r : NumSubexp (literal name r) = NumSubexp r.
Proof. induction name as [|a name IH]; [done|]. cbn. exact IH. Qed.

(** The first match of [FindAllStringSubmatch] is the match at the start
    of the text, when there is one and it is not empty. *)
Lemma first_argument_at_start r s c' m :
  match_at r (start_of s) = Some (c', m) ->
  pos c' <> 0%nat ->
  first_argument r s = at_index (submatches r s m) 1.
Proof.
  intros Hm Hpos. unfold first_argument, FindAllStringSubmatch.
  cbn [all_matches]. unfold search. unfold start_of in *. cbn [prev pos rest].
  rewrite search_from_unfold, Hm.
  replace (pos c' =? 0)%nat with false by (symmetry; by apply Nat.eqb_neq).
  reflexivity.
Qed.

Lemma match_at_literal name a v :
  all_bytes argument_byte (String a v) = true ->
  match_at (literal name argumentTail) (start_of (name +:+ "(" +:+ String a v +:+ ")")) =
  Some (Cursor (Some ")"%char) (String.length name + String.length v + 3) "",
        [(0, (0, String.length name + String.length v + 3));
         (1, (S (String.length name), String.length name + String.length v + 2))]%nat).
Proof.
  intros Hv. unfold match_at, start_of. rewrite exec_literal. name_cursor q.
  pose proof (argumentTail_matches a v "" q (0 + String.length name) [] Hv) as H.
  rewrite append_nil_r in H. by rewrite H.
Qed.

(** The argument of a modifier [name(v)] is [v], when [v] is made of
    bytes that are read as they stand. *)
Lemma first_argument_literal name a v :
  all_bytes argument_byte (String a v) = true ->
  first_argument (literal name argumentTail) (name +:+ "(" +:+ String a v +:+ ")") =
  Ret (String a v).
Proof.
  intros Hv. rewrite (first_argument_at_start _ _ _ _ (match_at_literal name a v Hv))
    by (cbn [pos]; lia).
  unfold at_index, submatches.
  rewrite NumSubexp_literal. change (NumSubexp argumentTail) with 1%nat.
  cbn [seq fmap list_fmap lookup list_lookup group_of Nat.eqb].
  f_equal.
  rewrite <- (slice_middle (name +:+ "(") (String a v) ")") at 2.
  rewrite append_assoc. f_equal.
  - rewrite length_append. cbn. lia.
  - rewrite length_append. cbn. lia.
Qed.

(** The argument that [select], [dict] and [default] read from
    [name(v)] is [v], for every [v] that is not empty and has no white
    space, quote or closing parenthesis. *)
Theorem argument_is_the_text_in_parentheses a v :
  all_bytes argument_byte (String a v) = true ->
  first_argument regexSelectModifier ("select(" +:+ String a v +:+ ")") = Ret (String a v) /\
  first_argument regexDictModifier ("dict(" +:+ String a v +:+ ")") = Ret (String a v) /\
  first_argument regexDefaultModifier ("default(" +:+ String a v +:+ ")") = Ret (String a v).
Proof.
  intros Hv. destruct argument_patterns as (-> & -> & ->).
  repeat split.
  - apply (first_argument_literal "select" a v Hv).
  - apply (first_argument_literal "dict" a v Hv).
  - apply (first_argument_literal "default" a v Hv).
Qed.


Lemma plain_byte_inv a :
  plain_byte a = true ->
  is_perl_space a = false /\ Ascii.eqb a ":" = false /\ Ascii.eqb a "@" = false /\
  Ascii.eqb a "|" = false /\ Ascii.eqb a "}" = false /\ Ascii.eqb a LF = false.
Proof.
  unfold plain_byte. intros H. repeat (apply andb_prop in H as [H ?]).
  rewrite !negb_true_iff in *. repeat split; try done.
  destruct (Ascii.eqb a LF) eqn:E; [|done]. apply Ascii.eqb_eq in E as ->. done.
Qed.

Lemma all_plain_bytes_not_LF v :
  all_bytes plain_byte v = true -> all_bytes (not_byte LF) v = true.
Proof.
  induction v as [|a v IH]; [done|]. cbn [all_bytes]. intros H.
  apply andb_prop in H as [Ha Hv]. rewrite IH by done.
  apply plain_byte_inv in Ha as (_ & _ & _ & _ & _ & Ha). unfold not_byte. by rewrite Ha.
Qed.

Ltac same_positions :=
  lazymatch goal with
  | |- @eq nat _ _ => lia
  | |- Some _ = Some _ => apply f_equal; same_positions
  | |- (_, _) = (_, _) => apply (f_equal2 pair); same_positions
  | |- _ :: _ = _ :: _ => apply (f_equal2 cons); same_positions
  | |- Cursor _ _ _ = Cursor _ _ _ => apply (f_equal3 Cursor); same_positions
  | |- _ => reflexivity
  end.

(** A lazy run of [.] over plain bytes ends where the continuation first
    succeeds, when the continuation fails before every plain byte. *)
Lemma exec_lazy_any_plain k a u r x p i m :
  all_bytes plain_byte (String a u) = true ->
  (forall q j b s, plain_byte b = true -> k (Cursor q j (String b s)) m = None) ->
  k (cursor_after (String a u) p i r) m = Some x ->
  exec (OpPlus false any) (Cursor p i (String a u +:+ r)) m k = Some x.
Proof.
  intros Hall Hfail Hk. apply exec_lazy_any; [by apply all_plain_bytes_not_LF| |done].
  intros v1 v2 -> Hv2. destruct v2 as [|b v2]; [done|].
  cbn [all_bytes] in Hall. apply andb_prop in Hall as [_ Hall].
  rewrite all_bytes_app in Hall. apply andb_prop in Hall as [_ Hall]. cbn in Hall.
  apply andb_prop in Hall as [Hb _].
  name_cursor q. rewrite append_cons. by apply Hfail.
Qed.

Lemma closingBrace_fails b s q j m k :
  plain_byte b = true -> exec closingBrace (Cursor q j (String b s)) m k = None.
Proof.
  intros Hb. apply plain_byte_inv in Hb as (Hs & _ & _ & Hbar & Hbrace & _).
  unfold closingBrace.
  rewrite exec_concat, exec_star_nothing by done.
  rewrite exec_concat, exec_quest_greedy, exec_concat, exec_char.
  cbn [rest cs_match]. rewrite Hbar.
  rewrite exec_concat, exec_star_nothing by done.
  rewrite exec_char. cbn [rest cs_match]. by rewrite Hbrace.
Qed.

Lemma closingBrace_matches s q j m k :
  exec closingBrace (Cursor q j (String "}" s)) m k = k (Cursor (Some "}"%char) (S j) s) m.
Proof.
  unfold closingBrace.
  rewrite exec_concat, exec_star_nothing by done.
  rewrite exec_concat, exec_quest_greedy, exec_concat, exec_char.
  cbn [rest cs_match Ascii.eqb Bool.eqb].
  rewrite exec_concat, exec_star_nothing by done.
  by rewrite exec_char.
Qed.

Lemma vaultRegex_shape :
  vault.vaultRegex =
  OpConcat (lit "$") (OpConcat (lit "{")
    (OpConcat (OpStar true (OpChar (CsClass false perl_s)))
      (OpConcat (OpPlus false any)
        (OpConcat (lit ":")
          (OpConcat (OpCapture 1 (OpPlus false any))
            (OpConcat (lit "@")
              (OpConcat (OpCapture 2 (OpPlus false any)) closingBrace))))))).
Proof. reflexivity. Qed.

Lemma gitRegex_shape :
  git.gitRegex =
  OpConcat (lit "$") (OpConcat (lit "{")
    (OpConcat (OpStar true (OpChar (CsClass false perl_s)))
      (OpConcat (OpPlus false any)
        (OpConcat (lit ":")
          (OpConcat (OpCapture 1 (OpPlus false any)) closingBrace))))).
Proof. reflexivity. Qed.

Lemma exec_lit_other b a s q j m k :
  Ascii.eqb a b = false -> exec (OpChar (CsLit b)) (Cursor q j (String a s)) m k = None.
Proof. intros H. rewrite exec_char. cbn [rest cs_match]. by rewrite H. Qed.

Lemma exec_lit_same b s q j m k :
  exec (OpChar (CsLit b)) (Cursor q j (String b s)) m k = k (Cursor (Some b) (S j) s) m.
Proof. rewrite exec_char. cbn [rest cs_match pos]. by rewrite Ascii.eqb_refl. Qed.

Lemma match_at_vaultRegex n name p path k key post :
  all_bytes plain_byte (String n name) = true ->
  all_bytes plain_byte (String p path) = true ->
  all_bytes plain_byte (String k key) = true ->
  forall q i,
  match_at vault.vaultRegex
    (Cursor q i ("${" +:+ String n name +:+ ":" +:+ String p path +:+ "@" +:+ String k key
                   +:+ "}" +:+ post)) =
  let a := String.length name in
  let b := String.length path in
  let c := String.length key in
  Some (Cursor (Some "}"%char) (i + a + b + c + 8) post,
        [(0, (i, i + a + b + c + 8));
         (2, (i + a + b + 6, i + a + b + c + 7));
         (1, (i + a + 4, i + a + b + 5))]%nat).
Proof.
  intros Hname Hpath Hkey q i. cbn zeta.
  pose proof (plain_byte_inv n) as Hn. pose proof (plain_byte_inv p) as Hp.
  pose proof (plain_byte_inv k) as Hk.
  pose proof Hname as Hn'. pose proof Hpath as Hp'. pose proof Hkey as Hk'.
  cbn [all_bytes] in Hn', Hp', Hk'.
  apply andb_prop in Hn' as [Hn0 _]. apply andb_prop in Hp' as [Hp0 _].
  apply andb_prop in Hk' as [Hk0 _].
  destruct (Hn Hn0) as (Hns & _). clear Hn Hp Hk.
  unfold match_at. rewrite vaultRegex_shape. unfold lit.
  rewrite !append_cons, !append_nil_l.
  rewrite exec_concat, exec_lit_same, exec_concat, exec_lit_same.
  rewrite exec_concat, exec_star_nothing by done.
  rewrite exec_concat.
  change (String n (name +:+ String ":" (String p (path +:+ String "@" (String k (key +:+ String "}" post))))))
    with (String n name +:+ String ":" (String p (path +:+ String "@" (String k (key +:+ String "}" post))))).
  erewrite exec_lazy_any_plain; [|done| |]; cycle 1.
  { intros q' j b s Hb. apply plain_byte_inv in Hb as (_ & Hb & _).
    by rewrite exec_concat, exec_lit_other. }
  { name_cursor q1. rewrite exec_concat, exec_lit_same.
    rewrite exec_concat, exec_capture. cbn [pos].
    change (String p (path +:+ String "@" (String k (key +:+ String "}" post))))
      with (String p path +:+ String "@" (String k (key +:+ String "}" post))).
    erewrite exec_lazy_any_plain; [|done| |]; cycle 1.
    { intros q' j b s Hb. apply plain_byte_inv in Hb as (_ & _ & Hb & _).
      by rewrite exec_concat, exec_lit_other. }
    { name_cursor q2. rewrite exec_concat, exec_lit_same.
      rewrite exec_concat, exec_capture. cbn [pos].
      change (String k (key +:+ String "}" post)) with (String k key +:+ String "}" post).
      erewrite exec_lazy_any_plain; [|done| |]; cycle 1.
      { intros q' j b s Hb. by apply closingBrace_fails. }
      { name_cursor q3. rewrite closingBrace_matches. unfold accept. cbn [pos]. reflexivity. }
      reflexivity. }
    reflexivity. }
  cbn [pos String.length]. same_positions.
Qed.

Lemma first_match_at_start r s c' m :
  match_at r (start_of s) = Some (c', m) ->
  pos c' <> 0%nat ->
  exists tail, FindAllStringSubmatch r s = submatches r s m :: tail.
Proof.
  intros Hm Hpos. unfold FindAllStringSubmatch.
  cbn [all_matches]. unfold search. unfold start_of in *. cbn [prev pos rest].
  rewrite search_from_unfold, Hm.
  replace (pos c' =? 0)%nat with false by (symmetry; by apply Nat.eqb_neq).
  cbn [fmap list_fmap]. by eauto.
Qed.

Lemma slice_at pre s post text i j :
  text = pre +:+ s +:+ post ->
  i = String.length pre -> j = (String.length pre + String.length s)%nat ->
  slice text i j = s.
Proof. intros -> -> ->. apply slice_middle. Qed.

(** A token [${name:path@key}] of plain bytes is read by the Vault handler
    as the path [path] and the key [key]. *)
Lemma pathAndKey_of_plain_token n name p path k key :
  all_bytes plain_byte (String n name) = true ->
  all_bytes plain_byte (String p path) = true ->
  all_bytes plain_byte (String k key) = true ->
  vault.pathAndKey ("${" +:+ String n name +:+ ":" +:+ String p path +:+ "@"
                      +:+ String k key +:+ "}") =
  runtime.Returns (String p path, String k key).
Proof.
  intros Hname Hpath Hkey. unfold vault.pathAndKey.
  pose proof (match_at_vaultRegex n name p path k key "" Hname Hpath Hkey None 0) as Hm.
  cbn zeta in Hm. rewrite append_nil_r in Hm.
  destruct (first_match_at_start vault.vaultRegex _ _ _ Hm) as [tail ->]; [cbn [pos]; lia|].
  unfold submatches. change (NumSubexp vault.vaultRegex) with 2%nat.
  cbn [seq fmap list_fmap lookup list_lookup group_of Nat.eqb].
  f_equal. f_equal.
  - apply (slice_at ("${" +:+ String n name +:+ ":") _ ("@" +:+ String k key +:+ "}")).
    + by rewrite !append_assoc.
    + rewrite !length_append. cbn [String.length]. lia.
    + rewrite !length_append. cbn [String.length]. lia.
  - apply (slice_at ("${" +:+ String n name +:+ ":" +:+ String p path +:+ "@") _ "}").
    + by rewrite !append_assoc.
    + rewrite !length_append. cbn [String.length]. lia.
    + rewrite !length_append. cbn [String.length]. lia.
Qed.


Lemma lineRegex_shape :
  lineRegex =
  OpConcat (lit "$") (OpConcat (lit "{")
    (OpConcat spaces
      (OpConcat (OpCapture 1 (OpPlus false any))
        (OpConcat (lit ":") (OpConcat (OpPlus false any) lineTail))))).
Proof. reflexivity. Qed.

Lemma selector_byte_inv a :
  selector_byte a = true ->
  is_perl_space a = false /\ Ascii.eqb a "|" = false /\ Ascii.eqb a "}" = false /\
  Ascii.eqb a LF = false.
Proof.
  unfold selector_byte. intros H. repeat (apply andb_prop in H as [H ?]).
  rewrite !negb_true_iff in *. repeat split; try done.
  destruct (Ascii.eqb a LF) eqn:E; [|done]. apply Ascii.eqb_eq in E as ->. done.
Qed.

Lemma all_selector_bytes_not_LF v :
  all_bytes selector_byte v = true -> all_bytes (not_byte LF) v = true.
Proof.
  induction v as [|a v IH]; [done|]. cbn [all_bytes]. intros H.
  apply andb_prop in H as [Ha Hv]. rewrite IH by done.
  apply selector_byte_inv in Ha as (_ & _ & _ & Ha). unfold not_byte. by rewrite Ha.
Qed.

Lemma exec_lazy_any_selector k a u r x p i m :
  all_bytes selector_byte (String a u) = true ->
  (forall q j b s, selector_byte b = true -> k (Cursor q j (String b s)) m = None) ->
  k (cursor_after (String a u) p i r) m = Some x ->
  exec (OpPlus false any) (Cursor p i (String a u +:+ r)) m k = Some x.
Proof.
  intros Hall Hfail Hk. apply exec_lazy_any; [by apply all_selector_bytes_not_LF| |done].
  intros v1 v2 -> Hv2. destruct v2 as [|b v2]; [done|].
  cbn [all_bytes] in Hall. apply andb_prop in Hall as [_ Hall].
  rewrite all_bytes_app in Hall. apply andb_prop in Hall as [_ Hall]. cbn in Hall.
  apply andb_prop in Hall as [Hb _].
  name_cursor q. rewrite append_cons. by apply Hfail.
Qed.

Lemma closingBrace_fails_selector b s q j m k :
  selector_byte b = true -> exec closingBrace (Cursor q j (String b s)) m k = None.
Proof.
  intros Hb. apply selector_byte_inv in Hb as (Hs & Hbar & Hbrace & _).
  unfold closingBrace.
  rewrite exec_concat, exec_star_nothing by done.
  rewrite exec_concat, exec_quest_greedy, exec_concat, exec_lit_other by done.
  rewrite exec_concat, exec_star_nothing by done.
  by rewrite exec_lit_other.
Qed.

Lemma exec_lit_fails b s q j m k :
  starts_without (fun a => Ascii.eqb a b) s -> exec (OpChar (CsLit b)) (Cursor q j s) m k = None.
Proof.
  intros H. rewrite exec_char. cbn [rest cs_match].
  destruct s as [|a s]; [done|]. cbn in H. by rewrite H.
Qed.

Lemma starts_without_chain s :
  starts_without chain_byte s ->
  starts_without (cs_match (CsClass false perl_s)) s /\
  starts_without (fun a => Ascii.eqb a "|") s.
Proof.
  destruct s as [|a s]; [done|]. unfold chain_byte. cbn [starts_without].
  intros H. apply orb_false_elim in H as [H1 H2]. done.
Qed.

Lemma lineTail_fails b s q j m k :
  selector_byte b = true -> exec lineTail (Cursor q j (String b s)) m k = None.
Proof.
  intros Hb. apply selector_byte_inv in Hb as (Hs & Hbar & Hbrace & _).
  unfold lineTail, spaces, lit.
  rewrite exec_concat, exec_star_nothing by done.
  rewrite exec_concat, exec_quest_greedy, exec_capture, exec_concat, exec_lit_other by done.
  rewrite exec_concat, exec_star_nothing by done.
  by rewrite exec_concat, exec_lit_other.
Qed.

Lemma lineTail_matches post q j m :
  starts_without chain_byte post ->
  exec lineTail (Cursor q j (String "}" post)) m accept =
  Some (Cursor (Some "}"%char) (S j) post, m).
Proof.
  intros Hpost. apply starts_without_chain in Hpost as [Hs Hbar].
  unfold lineTail, spaces, lit.
  rewrite exec_concat, exec_star_nothing by done.
  rewrite exec_concat, exec_quest_greedy, exec_capture, exec_concat, exec_lit_other by done.
  rewrite exec_concat, exec_star_nothing by done.
  rewrite exec_concat, exec_lit_same.
  rewrite exec_concat, exec_star_nothing by done.
  rewrite exec_quest_greedy, exec_capture, exec_concat, exec_lit_fails by done.
  reflexivity.
Qed.

Lemma match_at_lineRegex n name s sel post :
  all_bytes plain_byte (String n name) = true ->
  all_bytes selector_byte (String s sel) = true ->
  starts_without chain_byte post ->
  forall q i,
  match_at lineRegex
    (Cursor q i ("${" +:+ String n name +:+ ":" +:+ String s sel +:+ "}" +:+ post)) =
  Some (Cursor (Some "}"%char) (i + String.length name + String.length sel + 6) post,
        [(0, (i, i + String.length name + String.length sel + 6));
         (1, (i + 2, i + String.length name + 3))]%nat).
Proof.
  intros Hname Hsel Hpost q i.
  pose proof Hname as Hn'. cbn [all_bytes] in Hn'. apply andb_prop in Hn' as [Hn0 _].
  destruct (plain_byte_inv n Hn0) as (Hns & _).
  unfold match_at. rewrite lineRegex_shape. unfold spaces, lit.
  rewrite !append_cons, !append_nil_l.
  rewrite exec_concat, exec_lit_same, exec_concat, exec_lit_same.
  rewrite exec_concat, exec_star_nothing by done.
  rewrite exec_concat, exec_capture. cbn [pos].
  change (String n (name +:+ String ":" (String s (sel +:+ String "}" post))))
    with (String n name +:+ String ":" (String s (sel +:+ String "}" post))).
  erewrite exec_lazy_any_plain; [|done| |]; cycle 1.
  { intros q' j b t Hb. apply plain_byte_inv in Hb as (_ & Hb & _).
    by rewrite exec_concat, exec_lit_other. }
  { name_cursor q1. rewrite exec_concat, exec_lit_same. rewrite exec_concat.
    change (String s (sel +:+ String "}" post)) with (String s sel +:+ String "}" post).
    erewrite exec_lazy_any_selector; [|done| |]; cycle 1.
    { intros q' j b t Hb. by apply lineTail_fails. }
    { name_cursor q2. rewrite lineTail_matches by done. cbn [pos]. reflexivity. }
    reflexivity. }
  cbn [pos String.length]. same_positions.
Qed.


Lemma search_lineRegex_skip pre s :
  all_bytes (not_byte "$") pre = true ->
  forall p i, search_from lineRegex p i (pre +:+ s) = search lineRegex (cursor_after pre p i s).
Proof.
  induction pre as [|a pre IH]; intros Hpre p i; [done|].
  cbn [all_bytes] in Hpre. apply andb_prop in Hpre as [Ha Hpre].
  unfold not_byte in Ha. apply negb_true_iff in Ha.
  rewrite append_cons, search_from_unfold. unfold match_at at 1.
  rewrite lineRegex_shape. unfold lit at 1. rewrite exec_concat, exec_lit_other by done.
  fold (lit "$"). rewrite <- lineRegex_shape. cbn [cursor_after]. by apply IH.
Qed.

(** Replacing no occurrence copies the text. *)
Lemma replace_from_none old new s : Strings.replace_from old new 0 0 s = s.
Proof. induction s as [|a s IH]; [done|]. cbn. by rewrite IH. Qed.

Lemma replace_from_skip old new n t s :
  Strings.replace_from old new n (String.length t) (t +:+ s) = Strings.replace_from old new n 0 s.
Proof.
  induction t as [|a t IH]; [done|]. rewrite append_cons. cbn [String.length].
  destruct s, t; cbn; try done; apply IH.
Qed.

(** The first occurrence of a text is the one that no earlier byte can
    start. *)
Lemma Replace_first b t pre post new :
  all_bytes (not_byte b) pre = true ->
  Strings.Replace (pre +:+ String b t +:+ post) (String b t) new 1 = pre +:+ new +:+ post.
Proof.
  intros Hpre. unfold Strings.Replace. induction pre as [|a pre IH].
  - rewrite !append_nil_l, append_cons. cbn [Strings.replace_from Z.eqb negb andb].
    rewrite <- append_cons, (HasPrefix_app _ post _ (HasPrefix_refl (String b t))).
    cbn [String.length Nat.sub]. rewrite Nat.sub_0_r. change (1 - 1) with 0.
    by rewrite replace_from_skip, replace_from_none.
  - cbn [all_bytes] in Hpre. apply andb_prop in Hpre as [Ha Hpre].
    unfold not_byte in Ha. apply negb_true_iff in Ha.
    rewrite !append_cons. cbn [Strings.replace_from Strings.HasPrefix]. rewrite Ha.
    cbn [Z.eqb negb andb]. f_equal. by apply IH.
Qed.

Ltac lengths := repeat (rewrite length_append || cbn [String.length]); lia.

Section Substitution.
Context {unicode : Strings.Unicode}.
Context {World : Type}.
Variable compileArgument : string -> option (string -> bool).
Variable Getenv : string -> string.
Variable clientGet : string -> string -> World -> result Secret * World.
Variable vault_Handler git_Handler : Handler World.

Lemma FindAll_single_token pre n name s sel post :
  all_bytes (not_byte "$") pre = true ->
  all_bytes plain_byte (String n name) = true ->
  all_bytes selector_byte (String s sel) = true ->
  starts_without chain_byte post ->
  all_bytes (not_byte "$") post = true ->
  FindAllStringSubmatch lineRegex
    (pre +:+ "${" +:+ String n name +:+ ":" +:+ String s sel +:+ "}" +:+ post) =
  [["${" +:+ String n name +:+ ":" +:+ String s sel +:+ "}"; String n name; ""; ""]].
Proof.
  intros Hpre Hname Hsel Hpost Hpost'.
  unfold FindAllStringSubmatch. cbn [all_matches].
  unfold search at 1, start_of. cbn [prev pos rest].
  rewrite search_lineRegex_skip by done. name_cursor q.
  unfold search. cbn [prev pos rest]. rewrite search_from_unfold.
  rewrite (match_at_lineRegex n name s sel post Hname Hsel Hpost q).
  cbn [pos].
  replace (_ =? 0)%nat with false by (symmetry; apply Nat.eqb_neq; lia).
  cbn [prev rest].
  rewrite search_lineRegex_without_dollar by done.
  cbn [fmap list_fmap]. unfold submatches. change (NumSubexp lineRegex) with 3%nat.
  cbn [seq fmap list_fmap group_of Nat.eqb].
  f_equal. f_equal; [|f_equal].
  - apply (slice_at pre _ post); [by rewrite !append_assoc|lengths..].
  - apply (slice_at (pre +:+ "${") _ (":" +:+ String s sel +:+ "}" +:+ post));
      [by rewrite !append_assoc|lengths..].
Qed.

Lemma processMatch_plain n line pattern nameSecret w secret w1 handler val w2 :
  clientGet (Getenv "NAMESPACE") nameSecret w = (Ok secret, w1) ->
  selectHandler vault_Handler git_Handler nameSecret secret w1 = (Ret handler, w1) ->
  GetValueFromRegex handler pattern secret w1 = (Ok val, w2) ->
  processMatch compileArgument Getenv clientGet vault_Handler git_Handler
    n line [pattern; nameSecret; ""; ""] w =
  (Ret (Strings.Replace line pattern val 1), w2).
Proof.
  intros Hget Hsel Hcall. unfold utils.processMatch. cbn [nth].
  rewrite (bind_Ret _ _ w secret w1); [|unfold getKubernetesSecret; by rewrite Hget].
  rewrite (bind_Ret _ _ _ _ _ Hsel).
  rewrite (bind_Ret _ _ w1 val w2); [|unfold callHandler; by rewrite Hcall].
  reflexivity.
Qed.

(** A line with one token [${name:selector}], with no [$] before or after
    it and neither white space nor [|] right after it, comes out of
    [processLine] with the value of the token in the place of the token:
    the secret [name] is fetched once, in the namespace of the operator, the
    handler of its type is called once with the text of the token, and the
    rest of the line is copied. *)
Theorem token_is_replaced_by_its_value
    pre n name s sel post lineNumber w secret w1 handler val w2 :
  let token := "${" +:+ String n name +:+ ":" +:+ String s sel +:+ "}" in
  all_bytes (not_byte "$") pre = true ->
  all_bytes plain_byte (String n name) = true ->
  all_bytes selector_byte (String s sel) = true ->
  starts_without chain_byte post ->
  all_bytes (not_byte "$") post = true ->
  clientGet (Getenv "NAMESPACE") (String n name) w = (Ok secret, w1) ->
  selectHandler vault_Handler git_Handler (String n name) secret w1 = (Ret handler, w1) ->
  GetValueFromRegex handler token secret w1 = (Ok val, w2) ->
  processLine compileArgument Getenv clientGet vault_Handler git_Handler
    (pre +:+ token +:+ post) lineNumber w =
  (Ret (pre +:+ val +:+ post), w2).
Proof.
  intros token Hpre Hname Hsel Hpost Hpost' Hget Hselect Hcall.
  unfold processLine. subst token.
  replace (pre +:+ ("${" +:+ String n name +:+ ":" +:+ String s sel +:+ "}") +:+ post)
    with (pre +:+ "${" +:+ String n name +:+ ":" +:+ String s sel +:+ "}" +:+ post)
    by (by rewrite !append_assoc).
  rewrite FindAll_single_token by done.
  cbn [processMatches].
  rewrite (bind_Ret _ _ _ _ _ (processMatch_plain _ _ _ _ _ _ _ _ _ _ Hget Hselect Hcall)).
  unfold ret. f_equal. f_equal.
  replace (pre +:+ "${" +:+ String n name +:+ ":" +:+ String s sel +:+ "}" +:+ post)
    with (pre +:+ String "$" ("{" +:+ String n name +:+ ":" +:+ String s sel +:+ "}") +:+ post).
  - by apply Replace_first.
  - repeat (rewrite append_assoc || rewrite append_cons || rewrite append_nil_l). reflexivity.
Qed.
End Substitution.


(** Blanks in a modifier chain are dropped before the chain is read, also
    inside an argument. *)
Theorem blanks_in_a_chain_are_dropped
    (compileArgument : string -> option (string -> bool)) dat m1 m2 :
  processModifiers compileArgument dat (m1 +:+ " " +:+ m2) =
  processModifiers compileArgument dat (m1 +:+ m2).
Proof.
  unfold processModifiers. rewrite !ReplaceAll_byte_app.
  change (Strings.ReplaceAll " " " " "") with "". by rewrite append_nil_l.
Qed.

Lemma match_at_gitRegex n name k key post :
  all_bytes plain_byte (String n name) = true ->
  all_bytes selector_byte (String k key) = true ->
  forall q i,
  match_at git.gitRegex
    (Cursor q i ("${" +:+ String n name +:+ ":" +:+ String k key +:+ "}" +:+ post)) =
  Some (Cursor (Some "}"%char) (i + String.length name + String.length key + 6) post,
        [(0, (i, i + String.length name + String.length key + 6));
         (1, (i + String.length name + 4, i + String.length name + String.length key + 5))]%nat).
Proof.
  intros Hname Hkey q i.
  pose proof Hname as Hn'. cbn [all_bytes] in Hn'. apply andb_prop in Hn' as [Hn0 _].
  destruct (plain_byte_inv n Hn0) as (Hns & _).
  unfold match_at. rewrite gitRegex_shape. unfold lit.
  rewrite !append_cons, !append_nil_l.
  rewrite exec_concat, exec_lit_same, exec_concat, exec_lit_same.
  rewrite exec_concat, exec_star_nothing by done.
  rewrite exec_concat.
  change (String n (name +:+ String ":" (String k (key +:+ String "}" post))))
    with (String n name +:+ String ":" (String k (key +:+ String "}" post))).
  erewrite exec_lazy_any_plain; [|done| |]; cycle 1.
  { intros q' j b t Hb. apply plain_byte_inv in Hb as (_ & Hb & _).
    by rewrite exec_concat, exec_lit_other. }
  { name_cursor q1. rewrite exec_concat, exec_lit_same. rewrite exec_concat, exec_capture.
    cbn [pos].
    change (String k (key +:+ String "}" post)) with (String k key +:+ String "}" post).
    erewrite exec_lazy_any_selector; [|done| |]; cycle 1.
    { intros q' j b t Hb. by apply closingBrace_fails_selector. }
    { name_cursor q2. rewrite closingBrace_matches. unfold accept. cbn [pos]. reflexivity. }
    reflexivity. }
  cbn [pos String.length]. same_positions.
Qed.

(** A token [${name:key}] of plain bytes is read by the Git handler as the
    key [key]. *)
Lemma gitKey_of_plain_token n name k key :
  all_bytes plain_byte (String n name) = true ->
  all_bytes selector_byte (String k key) = true ->
  git.gitKey ("${" +:+ String n name +:+ ":" +:+ String k key +:+ "}") =
  runtime.Returns (String k key).
Proof.
  intros Hname Hkey. unfold git.gitKey.
  pose proof (match_at_gitRegex n name k key "" Hname Hkey None 0) as Hm.
  rewrite append_nil_r in Hm.
  destruct (first_match_at_start git.gitRegex _ _ _ Hm) as [tail ->]; [cbn [pos]; lia|].
  unfold submatches. change (NumSubexp git.gitRegex) with 1%nat.
  cbn [seq fmap list_fmap lookup list_lookup group_of Nat.eqb].
  f_equal.
  apply (slice_at ("${" +:+ String n name +:+ ":") _ "}"); [by rewrite !append_assoc|lengths..].
Qed.


(** ** Manifests without tokens *)

Lemma raw_lines_nil s : Bufio.raw_lines s = [] -> s = "".
Proof.
  destruct s as [|a s]; [done|]. cbn.
  destruct (Ascii.eqb a LF); [done|]. by destruct (Bufio.raw_lines s).
Qed.

Lemma raw_lines_terminated s :
  concat_strings ((fun l => l +:+ newline) <$> Bufio.raw_lines s) = terminated s.
Proof.
  induction s as [|a s IH]; [done|].
  cbn [Bufio.raw_lines]. destruct (Ascii.eqb a LF) eqn:Ha.
  - apply Ascii.eqb_eq in Ha as ->. cbn [fmap list_fmap concat_strings].
    rewrite IH. rewrite append_nil_l. unfold newline at 1. rewrite append_cons, append_nil_l.
    destruct s; [done|]. reflexivity.
  - destruct (Bufio.raw_lines s) as [|l ls] eqn:Hl.
    + apply raw_lines_nil in Hl as ->. cbn. by rewrite Ha.
    + cbn [fmap list_fmap concat_strings] in *. rewrite !append_cons, IH.
      destruct s; [done|]. reflexivity.
Qed.

Lemma dropCR_without_CR s : all_bytes (not_byte CR) s = true -> Bufio.dropCR s = s.
Proof.
  intros Hs. unfold Bufio.dropCR. destruct (rev_string s) as [|a r] eqn:Hrev; [done|].
  destruct (Ascii.eqb a CR) eqn:Ha; [|done].
  rewrite <- all_bytes_rev_string, Hrev in Hs. cbn in Hs. unfold not_byte in Hs.
  by rewrite Ha in Hs.
Qed.

Lemma all_bytes_raw_lines P s :
  all_bytes P s = true -> Forall (fun l => all_bytes P l = true) (Bufio.raw_lines s).
Proof.
  induction s as [|a s IH]; intros Hs; [constructor|].
  cbn in Hs. apply andb_prop in Hs as [Ha Hs]. specialize (IH Hs).
  cbn. destruct (Ascii.eqb a LF); [by constructor|].
  destruct (Bufio.raw_lines s) as [|l ls].
  - constructor; [|done]. cbn. by rewrite Ha.
  - inversion IH; subst. constructor; [|done]. cbn. by rewrite Ha.
Qed.

Lemma lines_without_CR s :
  all_bytes (not_byte CR) s = true -> Bufio.lines s = Bufio.raw_lines s.
Proof.
  intros Hs. unfold Bufio.lines. apply all_bytes_raw_lines in Hs.
  induction Hs as [|l ls Hl _ IH]; [done|]. cbn. by rewrite dropCR_without_CR, IH.
Qed.

Lemma raw_lines_first_byte s l ls b l' :
  Bufio.raw_lines s = l :: ls -> l = String b l' -> exists s', s = String b s'.
Proof.
  destruct s as [|a s]; [done|]. cbn. destruct (Ascii.eqb a LF).
  - intros [= <- _]. done.
  - destruct (Bufio.raw_lines s) as [|l0 ls0]; intros [= <- _] [= -> _]; by eauto.
Qed.

(** A line of a text without [${] has no [${]. *)
Lemma raw_lines_without_token_start s :
  Strings.Contains s "${" = false ->
  Forall (fun l => Strings.Contains l "${" = false) (Bufio.raw_lines s).
Proof.
  induction s as [|a s IH]; intros Hs; [constructor|].
  rewrite Contains_cons in Hs. apply orb_false_elim in Hs as [Hp Hs]. specialize (IH Hs).
  cbn [Bufio.raw_lines]. destruct (Ascii.eqb a LF); [by constructor|].
  destruct (Bufio.raw_lines s) as [|l ls] eqn:Hl.
  - constructor; [|done]. rewrite Contains_cons, Contains_nil. cbn.
    by rewrite andb_false_r.
  - inversion IH as [|? ? Hl0 Hls]; subst. constructor; [|done].
    rewrite Contains_cons, Hl0, orb_false_r.
    cbn [Strings.HasPrefix] in *. destruct (Ascii.eqb a "$"); [|done]. cbn [andb] in *.
    destruct l as [|b l']; [done|].
    destruct (raw_lines_first_byte _ _ _ _ _ Hl eq_refl) as [s' ->]. exact Hp.
Qed.


Section Unchanged.
Context {unicode : Strings.Unicode}.
Context {World : Type}.
Variable compileArgument : string -> option (string -> bool).
Variable Getenv : string -> string.
Variable clientGet : string -> string -> World -> result Secret * World.
Variable vault_Handler git_Handler : Handler World.


Lemma search_lineRegex_without_token_start s :
  Strings.Contains s "${" = false ->
  forall p i, search_from lineRegex p i s = None.
Proof.
  induction s as [|a s IH]; intros Hs p i; rewrite search_from_unfold;
    unfold match_at, lineRegex; rewrite exec_concat, exec_char; cbn [rest].
  - done.
  - rewrite Contains_cons in Hs. apply orb_false_elim in Hs as [Hp Hs].
    rewrite (IH Hs). cbn [cs_match]. cbn [Strings.HasPrefix] in Hp.
    destruct (Ascii.eqb a "$"); [|done]. cbn [andb] in Hp.
    rewrite exec_concat, exec_char. cbn [rest pos].
    destruct s as [|b s]; [done|]. cbn [cs_match]. cbn in Hp.
    rewrite andb_true_r in Hp. by rewrite Hp.
Qed.

Lemma foundLine_needs_token_start s :
  foundLine s = true -> Strings.Contains s "${" = true.
Proof.
  intros H. destruct (Strings.Contains s "${") eqn:Hc; [done|].
  unfold foundLine, MatchString, search, start_of in H. cbn [prev pos rest] in H.
  by rewrite search_lineRegex_without_token_start in H.
Qed.

Lemma lines_without_tokens text :
  Strings.Contains text "${" = false ->
  all_bytes (not_byte CR) text = true ->
  Forall (fun line => foundLine line = false) (Bufio.lines text).
Proof.
  intros Hd Hcr. rewrite lines_without_CR by done. apply raw_lines_without_token_start in Hd.
  eapply Forall_impl; [exact Hd|]. intros l Hl.
  destruct (foundLine l) eqn:Hf; [|done].
  apply foundLine_needs_token_start in Hf. congruence.
Qed.

(** A manifest without [${], without carriage returns and with lines
    below the scanner's limit comes out as it went in, with a line feed
    after the last line if it had none; the world is not touched. *)
Theorem manifest_without_tokens_is_unchanged k8s (w : World) :
  Strings.Contains (RawManifest k8s) "${" = false ->
  all_bytes (not_byte CR) (RawManifest k8s) = true ->
  Forall (fun l => len l < Bufio.MaxScanTokenSize) (Bufio.raw_lines (RawManifest k8s)) ->
  ProcessManifest compileArgument Getenv clientGet vault_Handler git_Handler k8s w =
  (({| RawManifest := RawManifest k8s;
       ProcessedManifest := terminated (RawManifest k8s) |}, Ret ()), w).
Proof.
  intros Hd Hcr Hshort. unfold utils.ProcessManifest, Bufio.Scan.
  rewrite (scan_tokens_within_limit _ _ Hshort). fold (Bufio.lines (RawManifest k8s)).
  rewrite scanLoop_plain by (by apply lines_without_tokens).
  by rewrite append_nil_l, lines_without_CR, raw_lines_terminated.
Qed.
End Unchanged.


(** ** The namespace of the secrets *)

Section Frame.
Context {unicode : Strings.Unicode}.
Context {World : Type}.
Variable compileArgument : string -> option (string -> bool).
Variable Getenv Getenv' : string -> string.
Variable clientGet clientGet' : string -> string -> World -> result Secret * World.
Variable vault_Handler git_Handler : Handler World.

Lemma processMatch_frame n line m w :
  Getenv "NAMESPACE" = Getenv' "NAMESPACE" ->
  (forall name w, clientGet (Getenv "NAMESPACE") name w = clientGet' (Getenv "NAMESPACE") name w) ->
  processMatch compileArgument Getenv clientGet vault_Handler git_Handler n line m w =
  processMatch compileArgument Getenv' clientGet' vault_Handler git_Handler n line m w.
Proof.
  intros same_namespace same_secrets.
  unfold utils.processMatch, utils.bind, utils.getKubernetesSecret.
  by rewrite <- same_namespace, same_secrets.
Qed.

Lemma processMatches_frame n res :
  Getenv "NAMESPACE" = Getenv' "NAMESPACE" ->
  (forall name w, clientGet (Getenv "NAMESPACE") name w = clientGet' (Getenv "NAMESPACE") name w) ->
  forall line newLine w,
    processMatches compileArgument Getenv clientGet vault_Handler git_Handler n res line newLine w =
    processMatches compileArgument Getenv' clientGet' vault_Handler git_Handler n res line newLine w.
Proof.
  intros same_namespace same_secrets.
  induction res as [|m res IH]; intros line newLine w; [done|].
  cbn [utils.processMatches]. unfold utils.bind. rewrite processMatch_frame by done.
  destruct (processMatch _ _ _ _ _ _ _ _ w) as [[l|e|p] w1]; [apply IH|done..].
Qed.

Lemma processScannedLine_frame line n w :
  Getenv "NAMESPACE" = Getenv' "NAMESPACE" ->
  (forall name w, clientGet (Getenv "NAMESPACE") name w = clientGet' (Getenv "NAMESPACE") name w) ->
  processScannedLine compileArgument Getenv clientGet vault_Handler git_Handler line n w =
  processScannedLine compileArgument Getenv' clientGet' vault_Handler git_Handler line n w.
Proof.
  intros same_namespace same_secrets.
  unfold utils.processScannedLine, utils.processLine, utils.bind.
  destruct (isCommentedLine line); [done|]. destruct (foundLine line); [|done].
  rewrite processMatches_frame by done.
  destruct (processMatches _ _ _ _ _ _ _ _ _ w) as [[l|e|p] w1]; [|done..].
  destruct (foundLine l); [|done]. by rewrite processMatches_frame.
Qed.

Lemma scanLoop_frame lines :
  Getenv "NAMESPACE" = Getenv' "NAMESPACE" ->
  (forall name w, clientGet (Getenv "NAMESPACE") name w = clientGet' (Getenv "NAMESPACE") name w) ->
  forall n out w,
    scanLoop compileArgument Getenv clientGet vault_Handler git_Handler lines n out w =
    scanLoop compileArgument Getenv' clientGet' vault_Handler git_Handler lines n out w.
Proof.
  intros same_namespace same_secrets.
  induction lines as [|l lines IH]; intros n out w; [done|].
  cbn [utils.scanLoop]. unfold utils.bind. rewrite processScannedLine_frame by done.
  destruct (processScannedLine _ _ _ _ _ _ _ w) as [[t|e|p] w1]; [apply IH|done..].
Qed.

(** The processor asks the cluster for secrets of one namespace only, the
    one named by the environment variable [NAMESPACE]: whatever the client
    answers for other namespaces, and whatever the other variables of the
    environment hold, the manifest is processed in the same way. *)
Theorem secrets_are_read_in_the_namespace_of_the_operator k8s w :
  Getenv "NAMESPACE" = Getenv' "NAMESPACE" ->
  (forall name w, clientGet (Getenv "NAMESPACE") name w = clientGet' (Getenv "NAMESPACE") name w) ->
  ProcessManifest compileArgument Getenv clientGet vault_Handler git_Handler k8s w =
  ProcessManifest compileArgument Getenv' clientGet' vault_Handler git_Handler k8s w.
Proof.
  intros same_namespace same_secrets.
  unfold utils.ProcessManifest. destruct (Bufio.Scan (RawManifest k8s)) as [lines scanErr].
  by rewrite scanLoop_frame.
Qed.

End Frame.

(** ** The path of a Vault secret *)

Lemma Contains_of_Index s sep : Strings.Index s sep = -1 -> Strings.Contains s sep = false.
Proof. unfold Strings.Contains. by intros ->. Qed.

(** [Split] undoes [Join], for pieces without the separator. *)
Lemma Split_Join_byte b e l :
  Forall (fun e => Strings.Index e (String b "") = -1) (e :: l) ->
  Strings.Split (Strings.Join (e :: l) (String b "")) (String b "") = e :: l.
Proof.
  revert e. induction l as [|e' l IH]; intros e H.
  - cbn [Strings.Join]. apply Split_without; [done|].
    apply Contains_of_Index. by inversion H.
  - inversion H as [|? ? He Hl]; subst.
    change (Strings.Join (e :: e' :: l) (String b ""))
      with (e +:+ String b "" +:+ Strings.Join (e' :: l) (String b "")).
    rewrite append_cons, append_nil_l, Split_byte_app, IH by done.
    rewrite Split_without; [done|done|by apply Contains_of_Index].
Qed.

Lemma pathSecretTmp_later i l : (2 <= i)%nat -> vault.pathSecretTmp i l = l.
Proof.
  revert i. induction l as [|x l IH]; intros i Hi; [done|].
  cbn [vault.pathSecretTmp]. replace (i =? 1)%nat with false by (symmetry; apply Nat.eqb_neq; lia).
  cbn. f_equal. apply IH. lia.
Qed.

Lemma pathSecretTmp_inserts s0 s1 l :
  vault.pathSecretTmp 0 (s0 :: s1 :: l) = s0 :: "data" :: s1 :: l.
Proof. cbn. by rewrite pathSecretTmp_later by lia. Qed.

(** The path that [getSecret] reads has [data] as its second segment, and
    a path that has is read as it is. *)
Theorem dataPath_puts_data_second pathSecret path :
  vault.dataPath pathSecret = runtime.Returns path ->
  (exists s0 rest, Strings.Split path "/" = s0 :: "data" :: rest) /\
  vault.dataPath path = runtime.Returns path.
Proof.
  unfold vault.dataPath at 1. intros H.
  destruct (Split_pieces pathSecret "/" ltac:(done)) as [Hjoin Hall].
  destruct (Strings.Split pathSecret "/") as [|s0 [|s1 l]] eqn:Hs; [done..|].
  cbn [lookup list_lookup] in H.
  assert (Hsplit : exists s0 rest, Strings.Split path "/" = s0 :: "data" :: rest).
  { destruct (String.eqb s1 "data") eqn:E; cbn [negb] in H.
    - assert (path = pathSecret) as -> by congruence.
      apply String.eqb_eq in E as ->. rewrite Hs. by eauto.
    - rewrite pathSecretTmp_inserts in H.
      assert (path = Strings.Join (s0 :: "data" :: s1 :: l) "/") as -> by congruence.
      rewrite Split_Join_byte; [by eauto|].
      inversion Hall as [|? ? H0 Hl]; subst. constructor; [done|]. by constructor. }
  split; [done|]. destruct Hsplit as (t0 & rest & Ht).
  unfold vault.dataPath. rewrite Ht. reflexivity.
Qed.


(** A path with a slash does not make [getSecret] panic. *)
Theorem dataPath_returns_with_slash pathSecret :
  Strings.Contains pathSecret "/" = true ->
  exists path, vault.dataPath pathSecret = runtime.Returns path.
Proof.
  intros H. unfold vault.dataPath. destruct (Split_with _ _ H) as (k & v & rest & ->).
  cbn [lookup list_lookup]. destruct (negb _); by eauto.
Qed.

(** ** [indent] *)

Lemma leading_space_split s : s = leading_space s +:+ strip_leading_space s.
Proof.
  induction s as [|a s IH]; [done|]. cbn [leading_space strip_leading_space].
  destruct (is_perl_space a); [|done]. rewrite append_cons. by f_equal.
Qed.

Lemma all_bytes_leading_space s : all_bytes is_perl_space (leading_space s) = true.
Proof.
  induction s as [|a s IH]; [done|]. cbn [leading_space].
  destruct (is_perl_space a) eqn:E; [|done]. cbn [all_bytes]. by rewrite E.
Qed.

Lemma strip_leading_space_starts s :
  starts_without is_perl_space (strip_leading_space s).
Proof.
  induction s as [|a s IH]; [done|]. cbn [strip_leading_space].
  by destruct (is_perl_space a) eqn:E.
Qed.

(** The pattern [^\s+] is anchored: it matches at the start or nowhere. *)
Lemma search_regexLeadingSpace_inside s :
  forall p i, search_from regexLeadingSpace p (S i) s = None.
Proof.
  induction s as [|a s IH]; intros p i; rewrite search_from_unfold;
    unfold match_at, regexLeadingSpace; rewrite exec_concat; cbn [exec pos Nat.eqb].
  - done.
  - apply IH.
Qed.

Lemma regexLeadingSpace_shape :
  regexLeadingSpace = OpConcat OpBeginText (OpPlus true (OpChar (CsClass false perl_s))).
Proof. reflexivity. Qed.

Lemma exec_plus g r c m k :
  exec (OpPlus g r) c m k =
  exec r c m (fun c' m' => iterate (exec r) g k (String.length (rest c')) c' m').
Proof. reflexivity. Qed.

Lemma exec_begin c m k :
  exec OpBeginText c m k = if (pos c =? 0)%nat then k c m else None.
Proof. reflexivity. Qed.

Lemma match_at_regexLeadingSpace_none s :
  starts_without is_perl_space s ->
  match_at regexLeadingSpace (Cursor None 0 s) = None.
Proof.
  intros H. unfold match_at. rewrite regexLeadingSpace_shape, exec_concat, exec_begin.
  cbn [pos Nat.eqb]. rewrite exec_plus, exec_char. cbn [rest].
  destruct s as [|a s]; [done|]. unfold starts_without, is_perl_space in H. by rewrite H.
Qed.

Lemma match_at_regexLeadingSpace_run a ws r :
  all_bytes is_perl_space (String a ws) = true ->
  starts_without is_perl_space r ->
  exists q,
    match_at regexLeadingSpace (Cursor None 0 (String a ws +:+ r)) =
    Some (Cursor q (S (String.length ws)) r, [(0, (0, S (String.length ws)))]%nat).
Proof.
  intros Hws Hr. cbn [all_bytes] in Hws. apply andb_prop in Hws as [Ha Hws].
  destruct (cursor_after_spec ws (Some a) 1 r) as [q Hq]. exists q.
  unfold match_at. rewrite regexLeadingSpace_shape, exec_concat, exec_begin.
  cbn [pos Nat.eqb]. rewrite exec_plus, exec_char, append_cons. cbn [rest pos].
  unfold is_perl_space in Ha. rewrite Ha.
  rewrite (iterate_class_run _ accept r ws (Cursor q (1 + String.length ws) r, [])).
  - reflexivity.
  - rewrite length_append. lia.
  - exact Hws.
  - exact Hr.
  - by rewrite Hq.
Qed.

(** [ReplaceAllString] with [^\s+] and the empty text strips the leading
    white space. *)
Lemma leading_space_is_stripped line :
  ReplaceAllString regexLeadingSpace line "" = strip_leading_space line.
Proof.
  unfold ReplaceAllString. cbn [replace_all]. unfold search, start_of. cbn [prev pos rest].
  rewrite search_from_unfold.
  destruct (leading_space line) as [|a ws] eqn:Hl.
  - pose proof (leading_space_split line) as Hs. rewrite Hl, append_nil_l in Hs.
    rewrite match_at_regexLeadingSpace_none
      by (rewrite Hs; apply strip_leading_space_starts).
    destruct line as [|b line]; [done|].
    by rewrite search_regexLeadingSpace_inside, <- Hs.
  - pose proof (leading_space_split line) as Hs. rewrite Hl in Hs.
    pose proof (all_bytes_leading_space line) as Hall. rewrite Hl in Hall.
    destruct (match_at_regexLeadingSpace_run a ws _ Hall (strip_leading_space_starts line))
      as [q Hm].
    rewrite <- Hs in Hm. rewrite Hm.
    cbn [group_of Nat.eqb pos slice Nat.sub take_bytes drop_bytes Nat.ltb Nat.leb orb
         Nat.add].
    rewrite !append_nil_l.
    destruct (String.length line) as [|n] eqn:Hn.
    { apply (f_equal String.length) in Hs. rewrite length_append in Hs.
      cbn [String.length] in Hs. lia. }
    cbn [replace_all]. unfold search. cbn [prev pos rest].
    rewrite search_regexLeadingSpace_inside.
    rewrite Hs at 1.
    change (S (String.length ws)) with (String.length (String a ws)).
    apply drop_bytes_app.
Qed.

Lemma indent_lines_spec lines n blanks :
  Strings.Repeat " " n = inl blanks ->
  forall output,
    indent_lines lines n output =
    Ret (output +:+ concat_strings
           ((fun x => x +:+ newline) <$>
              ((fun l => blanks +:+ strip_leading_space l) <$> lines))).
Proof.
  intros Hn.
  induction lines as [|l lines IH]; intros output; cbn [indent_lines fmap list_fmap concat_strings].
  - by rewrite append_nil_r.
  - rewrite Hn, IH, leading_space_is_stripped. by rewrite !append_assoc.
Qed.

Lemma Repeat_blank n :
  n <= Strings.maxInt ->
  Strings.Repeat " " n =
  if n <? 0 then inr Strings.NegativeRepeatCount
  else if Strings.maxAlloc <? n then inr Strings.MakesliceOutOfRange
  else inl (Strings.copies " " (Z.to_nat n)).
Proof.
  intros Hint. unfold Strings.Repeat. change (len " ") with 1. rewrite Z.mul_1_l.
  destruct (Z.eqb_spec n 0) as [->|Hn]; [done|].
  destruct (Z.ltb_spec n 0); [done|].
  by replace (Strings.maxInt <? n) with false by (symmetry; apply Z.ltb_ge; lia).
Qed.

Lemma concat_lines_Join l ls :
  concat_strings ((fun x => x +:+ newline) <$> (l :: ls)) =
  Strings.Join (l :: ls) newline +:+ newline.
Proof.
  revert l. induction ls as [|l' ls IH]; intros l.
  - cbn. by rewrite append_nil_r.
  - change (concat_strings ((fun x => x +:+ newline) <$> (l :: l' :: ls)))
      with ((l +:+ newline) +:+ concat_strings ((fun x => x +:+ newline) <$> (l' :: ls))).
    rewrite IH. change (Strings.Join (l :: l' :: ls) newline)
      with (l +:+ newline +:+ Strings.Join (l' :: ls) newline).
    by rewrite !append_assoc.
Qed.

Lemma take_bytes_all_but_last s a :
  take_bytes (String.length (s +:+ String a "") - 1) (s +:+ String a "") = s.
Proof.
  rewrite length_append. cbn [String.length].
  replace (String.length s + 1 - 1)%nat with (String.length s) by lia.
  apply take_bytes_app.
Qed.

(** [indent], for a count [n] that is an [int].  A value without lines
    gives the empty text, whatever [n] is.  Otherwise a negative [n] makes
    [strings.Repeat] panic, and so does an [n] beyond what the runtime
    allocates; for any other [n] each line of the value loses its leading
    white space and gets [n] blanks before it, and the lines are joined by
    line feeds; only a value of one blank line keeps its line feed, when
    [n] is 0. *)
Theorem indent_reindents_every_line value n :
  n <= Strings.maxInt ->
  let lines :=
    (fun l => Strings.copies " " (Z.to_nat n) +:+ strip_leading_space l)
      <$> (Bufio.Scan value).1 in
  indent value n =
  if decide ((Bufio.Scan value).1 = []) then Ret ""
  else if n <? 0 then Panic (RepeatPanic Strings.NegativeRepeatCount)
  else if Strings.maxAlloc <? n then Panic (RepeatPanic Strings.MakesliceOutOfRange)
  else Ret (if decide (lines = [""]) then newline else Strings.Join lines newline).
Proof.
  intros Hint. cbn zeta. unfold indent. pose proof (Repeat_blank n Hint) as Hblanks.
  destruct (decide ((Bufio.Scan value).1 = [])) as [->|Hlines]; [done|].
  destruct (n <? 0).
  { destruct (Bufio.Scan value).1 as [|l ls]; [done|]. cbn [indent_lines]. by rewrite Hblanks. }
  destruct (Strings.maxAlloc <? n).
  { destruct (Bufio.Scan value).1 as [|l ls]; [done|]. cbn [indent_lines]. by rewrite Hblanks. }
  rewrite (indent_lines_spec _ _ _ Hblanks), append_nil_l. f_equal.
  destruct ((fun l => Strings.copies " " (Z.to_nat n) +:+ strip_leading_space l)
              <$> (Bufio.Scan value).1) as [|l ls] eqn:Hl.
  - reflexivity.
  - rewrite concat_lines_Join.
    destruct (decide (l :: ls = [""])) as [E|E].
    + injection E as -> ->. reflexivity.
    + assert (Hlen : (1 <= String.length (Strings.Join (l :: ls) newline))%nat).
      { destruct ls as [|l' ls].
        - cbn. destruct l; [done|cbn; lia].
        - change (Strings.Join (l :: l' :: ls) newline)
            with (l +:+ newline +:+ Strings.Join (l' :: ls) newline).
          rewrite !length_append. cbn. lia. }
      replace (1 <? len (Strings.Join (l :: ls) newline +:+ newline)) with true.
      * apply take_bytes_all_but_last.
      * symmetry. apply Z.ltb_lt. unfold len. rewrite length_append.
        change (String.length newline) with 1%nat. lia.
Qed.

(** ** [default] in a chain *)

Lemma rev_onto_app s acc : rev_onto s acc = rev_onto s "" +:+ acc.
Proof.
  revert acc. induction s as [|a s IH]; intros acc; cbn; [done|].
  rewrite (IH (String a acc)), (IH (String a "")). by rewrite append_assoc.
Qed.

Lemma rev_string_cons a s : rev_string (String a s) = rev_string s +:+ String a "".
Proof. unfold rev_string. cbn. apply rev_onto_app. Qed.

Lemma rev_string_app s t : rev_string (s +:+ t) = rev_string t +:+ rev_string s.
Proof.
  induction s as [|a s IH]; [by rewrite append_nil_l, append_nil_r|].
  rewrite append_cons, !rev_string_cons, IH. by rewrite append_assoc.
Qed.

Lemma rev_string_involutive s : rev_string (rev_string s) = s.
Proof.
  induction s as [|a s IH]; [done|]. by rewrite rev_string_cons, rev_string_app, IH.
Qed.

Lemma space_width_solid spaces a s :
  Strings.asciiSpace a = false ->
  Forall (fun sp => match sp with String b _ => Ascii.eqb a b = false | EmptyString => False end)
         spaces ->
  Strings.space_width spaces (String a s) = None.
Proof.
  intros Ha Hsp. unfold Strings.space_width. rewrite Ha.
  replace (List.find (Strings.HasPrefix (String a s)) spaces) with (@None string); [done|].
  symmetry. induction Hsp as [|sp spaces Hb _ IH]; [done|].
  cbn [List.find]. destruct sp as [|b sp]; [done|]. cbn [Strings.HasPrefix]. by rewrite Hb.
Qed.

Lemma solid_byte_not_in a bs :
  solid_byte a = true ->
  Forall (fun n => (128 <= n < 256)%nat) bs ->
  Forall (fun b => Ascii.eqb a (byte_of b) = false) bs.
Proof.
  unfold solid_byte. intros Ha Hbs. apply andb_prop in Ha as [Ha _].
  apply Nat.ltb_lt in Ha. eapply Forall_impl; [exact Hbs|]. intros b Hb.
  apply Ascii.eqb_neq. intros E. rewrite E in Ha. unfold byte_of in Ha.
  cbn beta in Hb. rewrite nat_ascii_embedding in Ha by lia. lia.
Qed.

Lemma trim_left_solid_front a s fuel :
  solid_byte a = true ->
  Strings.trim_left Strings.unicodeSpaces fuel (String a s) = String a s.
Proof.
  intros Ha. destruct fuel as [|fuel]; [done|]. cbn [Strings.trim_left].
  rewrite space_width_solid; [done| |].
  - unfold solid_byte in Ha. by apply andb_prop in Ha as [_ ->%negb_true_iff].
  - pose proof (solid_byte_not_in a [194; 225; 226; 227]%nat Ha
                  ltac:(repeat constructor; lia)) as H.
    inversion H as [|? ? H194 H1]; subst. inversion H1 as [|? ? H225 H2]; subst.
    inversion H2 as [|? ? H226 H3]; subst. inversion H3 as [|? ? H227 _]; subst.
    unfold Strings.unicodeSpaces, bytes. repeat constructor; assumption.
Qed.

Lemma trim_left_solid_back a s fuel :
  solid_byte a = true ->
  Strings.trim_left (rev_string <$> Strings.unicodeSpaces) fuel (String a s) = String a s.
Proof.
  intros Ha. destruct fuel as [|fuel]; [done|]. cbn [Strings.trim_left].
  rewrite space_width_solid; [done| |].
  - unfold solid_byte in Ha. by apply andb_prop in Ha as [_ ->%negb_true_iff].
  - pose proof (solid_byte_not_in a
                  [128; 129; 130; 131; 132; 133; 134; 135; 136; 137; 138; 159; 160; 168;
                   169; 175]%nat Ha ltac:(repeat constructor; lia)) as H.
    repeat match goal with
           | H : Forall _ (_ :: _) |- _ => inversion H; subst; clear H
           end.
    repeat constructor; assumption.
Qed.

(** [TrimSpace] leaves a text alone that starts and ends with an ASCII
    byte that is not white space. *)
Lemma TrimSpace_solid a s b :
  solid_byte a = true -> solid_byte b = true ->
  Strings.TrimSpace (String a s +:+ String b "") = String a s +:+ String b "".
Proof.
  intros Ha Hb. unfold Strings.TrimSpace, Strings.TrimLeftSpace, Strings.TrimRightSpace.
  rewrite append_cons, trim_left_solid_front by done.
  rewrite <- append_cons, rev_string_app.
  change (rev_string (String b "")) with (String b "").
  change (String b "" +:+ rev_string (String a s)) with (String b (rev_string (String a s))).
  rewrite trim_left_solid_back by done.
  by rewrite rev_string_cons, rev_string_involutive.
Qed.

Lemma replace_byte_absent b new s :
  all_bytes (not_byte b) s = true ->
  forall n, Strings.replace_from (String b "") new n 0 s = s.
Proof.
  induction s as [|a s IH]; intros Hs n; [done|].
  cbn [all_bytes] in Hs. apply andb_prop in Hs as [Ha Hs].
  unfold not_byte in Ha. apply negb_true_iff in Ha.
  cbn [Strings.replace_from Strings.HasPrefix]. rewrite Ha, andb_false_r. cbn [andb].
  by rewrite IH.
Qed.

Lemma Contains_byte_absent b s :
  all_bytes (not_byte b) s = true -> Strings.Contains s (String b "") = false.
Proof.
  induction s as [|a s IH]; intros Hs; [done|].
  cbn [all_bytes] in Hs. apply andb_prop in Hs as [Ha Hs].
  unfold not_byte in Ha. apply negb_true_iff in Ha.
  rewrite Contains_cons, IH by done. cbn. by rewrite Ha.
Qed.

Lemma all_bytes_impl (P Q : ascii -> bool) s :
  (forall a, P a = true -> Q a = true) -> all_bytes P s = true -> all_bytes Q s = true.
Proof.
  intros HPQ. induction s as [|a s IH]; [done|]. cbn. intros H.
  apply andb_prop in H as [Ha Hs]. by rewrite (HPQ a Ha), IH.
Qed.

Lemma is_perl_space_blank a : is_perl_space a = false -> Ascii.eqb a " " = false.
Proof.
  intros H. destruct (Ascii.eqb a " ") eqn:E; [|done]. apply Ascii.eqb_eq in E as ->. done.
Qed.

Section Default.
Variable compileArgument : string -> option (string -> bool).

(** [default(v)] in a chain puts [v] in the place of the value, when [v]
    is not empty and has no white space, quote, [)] or [|], and no
    recognizer that comes before [default] matches the element. *)
Theorem default_puts_its_argument dat a v :
  all_bytes chain_argument_byte (String a v) = true ->
  MatchString regexBase64Modifier ("default(" +:+ String a v +:+ ")") = false ->
  MatchString regexSelectModifier ("default(" +:+ String a v +:+ ")") = false ->
  MatchString regexDictModifier ("default(" +:+ String a v +:+ ")") = false ->
  processModifiers compileArgument dat ("| default(" +:+ String a v +:+ ")") = Ret (String a v).
Proof.
  intros Hv Hbase64 Hselect Hdict.
  assert (Harg : all_bytes argument_byte (String a v) = true).
  { revert Hv. apply all_bytes_impl. unfold chain_argument_byte. by intros b [-> _]%andb_prop. }
  assert (Hbar : all_bytes (not_byte "|") (String a v) = true).
  { revert Hv. apply all_bytes_impl. unfold chain_argument_byte, not_byte.
    by intros b [_ ->]%andb_prop. }
  assert (Hblank : all_bytes (not_byte " ") (String a v) = true).
  { revert Harg. apply all_bytes_impl. intros b Hb. apply argument_byte_inv in Hb as (Hs & _).
    unfold not_byte. by rewrite (is_perl_space_blank b Hs). }
  assert (Hm : Strings.ReplaceAll ("default(" +:+ String a v +:+ ")") " " "" =
               "default(" +:+ String a v +:+ ")").
  { unfold Strings.ReplaceAll, Strings.Replace. apply replace_byte_absent.
    rewrite !all_bytes_app, Hblank. reflexivity. }
  unfold processModifiers.
  change ("| default(" +:+ String a v +:+ ")")
    with ("|" +:+ " " +:+ "default(" +:+ String a v +:+ ")").
  rewrite (ReplaceAll_byte_app " " "" "|"), (ReplaceAll_byte_app " " "" " "), Hm.
  change (Strings.ReplaceAll "|" " " "" +:+ Strings.ReplaceAll " " " " "" +:+
          "default(" +:+ String a v +:+ ")")
    with ("" +:+ String "|" ("default(" +:+ String a v +:+ ")")).
  rewrite Split_byte_app. rewrite (Split_without ("default(" +:+ String a v +:+ ")")); [|done|].
  2:{ apply Contains_byte_absent. rewrite !all_bytes_app, Hbar. reflexivity. }
  change (Strings.Split "" "|") with [""]. cbn [app processModifiers_loop].
  change (applyModifier compileArgument dat "") with (@Ret string dat). cbv iota.
  unfold applyModifier.
  assert (Htrim : Strings.TrimSpace ("default(" +:+ String a v +:+ ")") =
                  "default(" +:+ String a v +:+ ")").
  { change ("default(" +:+ String a v +:+ ")")
      with (String "d" ("efault(" +:+ String a v +:+ ")")).
    replace ("efault(" +:+ String a v +:+ ")") with (("efault(" +:+ String a v) +:+ ")")
      by (by rewrite append_assoc).
    rewrite <- append_cons. by apply TrimSpace_solid. }
  rewrite Htrim.
  replace (0 <? len ("default(" +:+ String a v +:+ ")")) with true by done.
  rewrite Hbase64, Hselect, Hdict.
  rewrite (MatchString_at_start regexDefaultModifier).
  2:{ destruct argument_patterns as (_ & _ & ->).
      eexists. apply (match_at_literal "default" a v Harg). }
  unfold defaultValue. destruct argument_patterns as (_ & _ & ->).
  pose proof (first_argument_literal "default" a v Harg) as Hfirst.
  change ("default" +:+ "(" +:+ String a v +:+ ")")
    with ("default(" +:+ String a v +:+ ")") in Hfirst.
  by rewrite Hfirst.
Qed.
End Default.


(** ** [base64] *)

Lemma string_ind3 (P : string -> Prop) :
  P "" ->
  (forall a, P (String a "")) ->
  (forall a b, P (String a (String b ""))) ->
  (forall a b c s, P s -> P (String a (String b (String c s)))) ->
  forall s, P s.
Proof.
  intros H0 H1 H2 H3 s.
  assert (H : P s /\ (forall a, P (String a s)) /\ (forall a b, P (String a (String b s)))).
  { induction s as [|c s (IH0 & IH1 & IH2)]; [by auto|].
    split; [apply IH1|]. split; [intros a; apply IH2|]. intros a b. by apply H3. }
  apply H.
Qed.

Lemma sextet_in_alphabet n : base64_byte (Base64.sextet n) = true.
Proof.
  unfold Base64.sextet.
  assert (H : (N.to_nat (N.land n 63) < 64)%nat).
  { change 63%N with (N.ones 6). rewrite N.land_ones.
    pose proof (N.mod_upper_bound n (2 ^ 6) ltac:(done)) as H.
    change (2 ^ 6)%N with 64%N in *. lia. }
  revert H. generalize (N.to_nat (N.land n 63)). intros k Hk.
  do 64 (destruct k as [|k]; [reflexivity|]). lia.
Qed.

(** The encoding of [n] bytes has [4 * ceil(n/3)] symbols, all of them in
    the standard alphabet or the padding [=]. *)
Theorem encodingBase64_shape str :
  String.length (encodingBase64 str) = (4 * ((String.length str + 2) / 3))%nat /\
  all_bytes base64_byte (encodingBase64 str) = true.
Proof.
  unfold encodingBase64. induction str as [|a|a b|a b c s [IHlen IHall]] using string_ind3.
  - done.
  - split; [done|]. cbn [Base64.EncodeToString all_bytes]. by rewrite !sextet_in_alphabet.
  - split; [done|]. cbn [Base64.EncodeToString all_bytes]. by rewrite !sextet_in_alphabet.
  - split.
    + cbn [Base64.EncodeToString String.length]. rewrite IHlen.
      replace (S (S (S (String.length s))) + 2)%nat with (1 * 3 + (String.length s + 2))%nat by lia.
      rewrite Nat.div_add_l by lia. lia.
    + cbn [Base64.EncodeToString all_bytes]. by rewrite !sextet_in_alphabet, IHall.
Qed.


(** ** The Vault handler *)

Lemma Contains_byte_intro pre b post :
  Strings.Contains (pre +:+ String b post) (String b "") = true.
Proof.
  induction pre as [|a pre IH].
  - rewrite append_nil_l, Contains_cons. cbn. by rewrite Ascii.eqb_refl.
  - by rewrite append_cons, Contains_cons, IH, orb_true_r.
Qed.

Section VaultHandler.
Context {unicode : Strings.Unicode}.
Import runtime.
Context {World Client : Type}.
Variable NewClient : string -> result Client.
Variable SetToken : Client -> string -> Client.
Variable Read : Client -> string -> World -> result (option vault.api_Secret) * World.

Abbreviation GetValueFromRegex := (vault.GetValueFromRegex NewClient SetToken Read).

(** The Vault handler returns an error, and leaves the world as it is,
    for a token without [@] and for a secret without a server, a token or a
    credentials type, or with a credentials type other than [token]
    (in any case of the letters). *)
Theorem vault_secret_is_checked_first pattern secret (w : World) :
  Strings.Contains pattern "@" = false \/
  Data secret !! vault.serverField = None \/
  Data secret !! vault.credentialsTokenField = None \/
  Data secret !! vault.credentialsTypeField = None \/
  (exists credType, Data secret !! vault.credentialsTypeField = Some credType /\
                    Strings.ToLower credType <> "token") ->
  exists msg, GetValueFromRegex pattern secret w = (Returns ("", Some msg), w).
Proof.
  unfold vault.GetValueFromRegex.
  intros [H|[H|[H|[H|(t & H & Ht)]]]].
  - rewrite H. cbn [negb]. by eauto.
  - destruct (negb _); [by eauto|]. rewrite H. by eauto.
  - destruct (negb _); [by eauto|]. destruct (Data secret !! vault.serverField); [|by eauto].
    rewrite H. by eauto.
  - destruct (negb _); [by eauto|]. destruct (Data secret !! vault.serverField); [|by eauto].
    destruct (Data secret !! vault.credentialsTokenField); [|by eauto].
    rewrite H. by eauto.
  - destruct (negb _); [by eauto|]. destruct (Data secret !! vault.serverField); [|by eauto].
    destruct (Data secret !! vault.credentialsTokenField); [|by eauto].
    rewrite H. apply String.eqb_neq in Ht. rewrite Ht. by eauto.
Qed.

(** For a token [${name:path@key}] of plain bytes, a secret with a server,
    a token and the credentials type [token], and a path with a slash: the
    handler makes a client for the server with the token, reads the path
    with [data] as its second segment once, and returns the text stored
    under [key] in the [data] object of the answer. *)
Theorem vault_handler_returns_the_value
    n name p path k key secret server token credType client dataPath vaultData d val
    (w w' : World) :
  all_bytes plain_byte (String n name) = true ->
  all_bytes plain_byte (String p path) = true ->
  all_bytes plain_byte (String k key) = true ->
  Data secret !! vault.serverField = Some server ->
  Data secret !! vault.credentialsTokenField = Some token ->
  Data secret !! vault.credentialsTypeField = Some credType ->
  Strings.ToLower credType = "token" ->
  NewClient server = Ok client ->
  vault.dataPath (String p path) = Returns dataPath ->
  Read (SetToken client token) dataPath w = (Ok (Some vaultData), w') ->
  vault.api_Data vaultData !! "data" = Some (vault.JObject d) ->
  d !! String k key = Some (vault.VString val) ->
  GetValueFromRegex
    ("${" +:+ String n name +:+ ":" +:+ String p path +:+ "@" +:+ String k key +:+ "}")
    secret w =
  (Returns (val, None), w').
Proof.
  intros Hname Hpath Hkey Hserver Htoken Htype Hlower Hclient Hdata Hread Hobj Hval.
  unfold vault.GetValueFromRegex.
  replace (Strings.Contains _ "@") with true.
  2:{ symmetry.
      replace ("${" +:+ String n name +:+ ":" +:+ String p path +:+ "@" +:+ String k key +:+ "}")
        with (("${" +:+ String n name +:+ ":" +:+ String p path) +:+ String "@" (String k key +:+ "}"))
        by (by rewrite !append_assoc).
      apply Contains_byte_intro. }
  cbn [negb]. rewrite Hserver, Htoken, Htype, Hlower. cbn [String.eqb Ascii.eqb Bool.eqb].
  unfold vault.createVaultClientFromToken. rewrite Hclient.
  rewrite (pathAndKey_of_plain_token n name p path k key Hname Hpath Hkey).
  unfold vault.getSecret. rewrite Hdata, Hread.
  unfold vault.valueOf. by rewrite Hobj, Hval.
Qed.
End VaultHandler.


(** ** The Git handler *)

Section GitChecks.
Context {unicode : Strings.Unicode}.
Import runtime.


Lemma eqb_byte a b d : String.eqb (String a "") (String b d) = Ascii.eqb a b && String.eqb "" d.
Proof. cbn. by destruct (Ascii.eqb a b). Qed.

(** [checkCommonSecretFields] returns nil for the secrets that have a url,
    a branch, a relative path of the configuration file that is not empty,
    a type of file that is [yaml] or [ini] and a field [usingCredentials]
    that is [true] or [false] (in any case of the letters), and for no
    other secret. *)
Theorem checkCommonSecretFields_accepts secret :
  git.checkCommonSecretFields secret = Returns None <-> commonFields secret.
Proof.
  unfold git.checkCommonSecretFields, commonFields. split.
  - destruct (Data secret !! git.urlField) as [url|]; [|done].
    destruct (Data secret !! git.branchField) as [branch|]; [|done].
    destruct (Data secret !! git.pathConfigFileField) as [[|a d]|]; [done| |done].
    cbn [git.first_byte]. destruct (String.eqb (String a "") "/") eqn:Ea; [done|].
    destruct (Data secret !! git.typeField) as [t|]; [|done].
    destruct (String.eqb (Strings.ToLower t) "yaml") eqn:Ey;
      destruct (String.eqb (Strings.ToLower t) "ini") eqn:Ei; cbn [negb andb]; try done.
    all: destruct (Data secret !! git.usingCredentialsField) as [u|]; [|done].
    all: destruct (String.eqb (Strings.ToLower u) "true") eqn:Et;
      destruct (String.eqb (Strings.ToLower u) "false") eqn:Ef; cbn [negb andb]; try done.
    all: intros _; repeat split; try by eauto.
    all: try (exists a, d; split; [done|]; intros ->; by cbn in Ea).
    all: try (exists t; split; [done|];
              first [left; by apply String.eqb_eq | right; by apply String.eqb_eq]).
    all: try (exists u; split; [done|];
              first [left; by apply String.eqb_eq | right; by apply String.eqb_eq]).
  - intros ([url ->] & [branch ->] & (a & d & -> & Ha) & (t & -> & Ht) & (u & -> & Hu)).
    cbn [git.first_byte].
    replace (String.eqb (String a "") "/") with false.
    2:{ symmetry. apply String.eqb_neq. congruence. }
    replace (negb (String.eqb (Strings.ToLower t) "yaml") &&
             negb (String.eqb (Strings.ToLower t) "ini")) with false
      by (by destruct Ht as [-> | ->]).
    by replace (negb (String.eqb (Strings.ToLower u) "true") &&
                negb (String.eqb (Strings.ToLower u) "false")) with false
      by (by destruct Hu as [-> | ->]).
Qed.

(** [checkCommonSecretFields] panics for the secrets that have a url, a
    branch and an empty path of the configuration file, and for no other
    secret. *)
Theorem checkCommonSecretFields_panics secret p :
  git.checkCommonSecretFields secret = Panics p <->
  is_Some (Data secret !! git.urlField) /\
  is_Some (Data secret !! git.branchField) /\
  Data secret !! git.pathConfigFileField = Some "" /\
  p = SliceBoundsOutOfRange 1 0.
Proof.
  unfold git.checkCommonSecretFields. split.
  - destruct (Data secret !! git.urlField) as [url|]; [|done].
    destruct (Data secret !! git.branchField) as [branch|]; [|done].
    destruct (Data secret !! git.pathConfigFileField) as [[|a d]|]; [| |done].
    + cbn. intros [= <-]. by eauto.
    + cbn [git.first_byte]. destruct (String.eqb _ "/"); [done|].
      destruct (Data secret !! git.typeField) as [t|]; [|done].
      destruct (negb _ && negb _); [done|].
      destruct (Data secret !! git.usingCredentialsField) as [u|]; [|done].
      by destruct (negb _ && negb _).
  - intros ([url ->] & [branch ->] & -> & ->). reflexivity.
Qed.


End GitChecks.


Section GitHandler.
Context {unicode : Strings.Unicode}.
Import runtime.
Context {World float File PublicKeys Repository Worktree : Type}.
Variable formatFloat : float -> string.
Variable ReadFile : string -> World -> result string.
Variable Unmarshal : string -> result (gmap string (git.yaml float)).
Variable Load : string -> World -> result File.
Variable KeyString : File -> string -> string.
Variable NewPublicKeys : string -> string -> string -> result PublicKeys.
Variable IsNotExist : string -> World -> bool.
Variable PlainOpen : string -> World -> result Repository.
Variable getWorktree : Repository -> result Worktree.
Variable Pull : Worktree -> git.PullOptions PublicKeys -> World -> git.pulled * World.
Variable PlainClone : string -> git.CloneOptions PublicKeys -> World -> option string * World.

Abbreviation GetValueFromRegex :=
  (git.GetValueFromRegex formatFloat ReadFile Unmarshal Load KeyString NewPublicKeys
     IsNotExist PlainOpen getWorktree Pull PlainClone).

(** The Git handler touches neither the file system nor the remote for a
    secret that [checkCommonSecretFields] rejects: it returns the token and
    the error of the check. *)
Lemma git_secret_is_checked_first pattern secret err (w : World) :
  git.checkCommonSecretFields secret = Returns (Some err) ->
  GetValueFromRegex pattern secret w = (Returns (pattern, Some err), w).
Proof. intros H. unfold git.GetValueFromRegex. by rewrite H. Qed.

(** For a token [${name:key}] of plain bytes and a secret without
    credentials whose repository has no clone yet: the repository is cloned
    once into the directory derived from the url, from the branch of the
    secret, and the value is the text of [key] in the configuration file of
    type [ini]. *)
Theorem git_handler_reads_the_key_of_a_fresh_clone
    n name k key secret url branch pathConfigFile typeFile usingCredentials gitConf
    (w w1 : World) :
  all_bytes plain_byte (String n name) = true ->
  all_bytes selector_byte (String k key) = true ->
  git.checkCommonSecretFields secret = Returns None ->
  Data secret !! git.urlField = Some url ->
  Data secret !! git.branchField = Some branch ->
  Data secret !! git.pathConfigFileField = Some pathConfigFile ->
  Data secret !! git.typeField = Some typeFile ->
  Data secret !! git.usingCredentialsField = Some usingCredentials ->
  Strings.ToLower usingCredentials = "false" ->
  Strings.ToLower typeFile = "ini" ->
  IsNotExist (git.dirDest url) w = true ->
  PlainClone (git.dirDest url)
    {| git.URL := url; git.CloneReferenceName := "refs/heads/" +:+ branch;
       git.CloneAuth := None |} w = (None, w1) ->
  IsNotExist (git.dirDest url +:+ "/" +:+ pathConfigFile) w1 = false ->
  Load (git.dirDest url +:+ "/" +:+ pathConfigFile) w1 = Ok gitConf ->
  GetValueFromRegex ("${" +:+ String n name +:+ ":" +:+ String k key +:+ "}") secret w =
  (Returns (KeyString gitConf (String k key), None), w1).
Proof.
  intros Hname Hkey Hcheck Hurl Hbranch Hpath Htype Husing Hfalse Hini Hdir Hclone Hfile Hload.
  unfold git.GetValueFromRegex. rewrite Hcheck.
  unfold git.field. rewrite Hurl, Hbranch, Hpath, Htype, Husing. cbn [default from_option id].
  rewrite Hfalse, Hini. cbn [String.eqb Ascii.eqb Bool.eqb].
  unfold git.sync, git.NewBranchReferenceName. rewrite Hdir. cbn [negb]. rewrite Hclone, Hfile.
  rewrite (gitKey_of_plain_token n name k key Hname Hkey).
  unfold git.getValueFromIniFile. by rewrite Hload.
Qed.

(** A clone that exists is pulled, not cloned again, and a pull that finds
    the clone up to date is no error. *)
Lemma existing_clone_is_pulled url dirDest cloneOptions pullOptions r wt (w w1 : World) :
  IsNotExist dirDest w = false ->
  PlainOpen dirDest w = Ok r ->
  getWorktree r = Ok wt ->
  Pull wt pullOptions w = (git.NoErrAlreadyUpToDate, w1) ->
  git.sync IsNotExist PlainOpen getWorktree Pull PlainClone url dirDest cloneOptions pullOptions w =
  (None, w1).
Proof.
  intros Hdir Hopen Hwt Hpull. unfold git.sync. by rewrite Hdir, Hopen, Hwt, Hpull.
Qed.
End GitHandler.


(** ** The reconciler *)

Section Reconciler.
Context {unicode : Strings.Unicode}.
Import controllers.
Context {World : Type}.
Variable compileArgument : string -> option (string -> bool).
Variable Getenv : string -> string.
Variable clientGet : string -> string -> World -> result Secret * World.
Variable vault_Handler git_Handler : Handler World.
Variable Decode : string -> result (Unstructured * GroupVersionKind).
Variable getDynamicClient : World -> option string.
Variable dynamicGet :
  GroupVersionResource -> string -> string -> World -> fetched (option Unstructured) * World.
Variable dynamicCreate dynamicUpdate :
  GroupVersionResource -> string -> Unstructured -> World -> option string * World.
Variable instanceGet : string -> string -> World -> fetched DataReplaceInline * World.

Abbreviation Reconcile :=
  (Reconcile compileArgument Getenv clientGet vault_Handler git_Handler Decode
     getDynamicClient dynamicGet dynamicCreate dynamicUpdate instanceGet).
Abbreviation ProcessManifest :=
  (ProcessManifest compileArgument Getenv clientGet vault_Handler git_Handler).

(** When the manifest of the instance cannot be processed, [Reconcile]
    returns the error of the processor in the world where the processor
    stopped: the manifest is not decoded, the cluster is not asked for the
    object, and nothing is created or updated. *)
Theorem nothing_is_applied_when_processing_fails namespace name instance k8s e
    (w w1 w2 : World) :
  instanceGet namespace name w = (Fetched instance, w1) ->
  SpecManifest instance <> "" ->
  getDynamicClient w1 = None ->
  ProcessManifest {| RawManifest := SpecManifest instance; ProcessedManifest := "" |} w1 =
    ((k8s, Fail e), w2) ->
  Reconcile namespace name w = (Result (Some (ErrProcess e)), w2).
Proof.
  intros Hget Hne Hclient Hprocess. unfold controllers.Reconcile. rewrite Hget.
  replace (len (SpecManifest instance) =? 0) with false.
  2:{ symmetry. apply Z.eqb_neq. unfold len. destruct (SpecManifest instance); [done|cbn; lia]. }
  unfold NewK8sUtil. rewrite Hclient, Hprocess. reflexivity.
Qed.

(** A manifest without tokens whose object is not in the cluster is
    created from the text of the manifest as it stands (with a final line
    feed), in the namespace of the request and under the resource named by
    the lower-case kind followed by [s]; no secret is read. *)
Theorem plain_manifest_is_created namespace name instance obj gvk msg (w w1 w2 : World) :
  instanceGet namespace name w = (Fetched instance, w1) ->
  SpecManifest instance <> "" ->
  Strings.Contains (SpecManifest instance) "${" = false ->
  all_bytes (not_byte CR) (SpecManifest instance) = true ->
  Forall (fun l => len l < Bufio.MaxScanTokenSize) (Bufio.raw_lines (SpecManifest instance)) ->
  SpecSetOwnerReferences instance = false ->
  getDynamicClient w1 = None ->
  Decode (terminated (SpecManifest instance)) = Ok (obj, gvk) ->
  dynamicGet (getGVR gvk) namespace (GetName obj) w1 = (NotFound msg, w2) ->
  Reconcile namespace name w =
  match dynamicCreate
          {| ResourceGroup := Group gvk; ResourceVersion := Version gvk;
             Resource := Strings.ToLower (Kind gvk +:+ "s") |} namespace obj w2 with
  | (Some err, w3) => (Result (Some (ErrText err)), w3)
  | (None, w3) => (Result None, w3)
  end.
Proof.
  intros Hget Hne Htokens Hcr Hshort Hown Hclient Hdecode Hexists.
  unfold controllers.Reconcile. rewrite Hget.
  replace (len (SpecManifest instance) =? 0) with false.
  2:{ symmetry. apply Z.eqb_neq. unfold len. destruct (SpecManifest instance); [done|cbn; lia]. }
  unfold NewK8sUtil. rewrite Hclient.
  unfold utils.ProcessManifest, Bufio.Scan. cbn [RawManifest].
  rewrite (scan_tokens_within_limit _ _ Hshort). fold (Bufio.lines (SpecManifest instance)).
  rewrite (scanLoop_plain _ _ _ _ _ _ (lines_without_tokens _ Htokens Hcr)).
  rewrite append_nil_l, lines_without_CR, raw_lines_terminated by done.
  unfold DecodeManifest. cbn [RawManifest ProcessedManifest]. rewrite Hdecode, Hown.
  unfold ResourceExists. cbn [GVR Object]. rewrite Hexists.
  reflexivity.
Qed.

End Reconciler.


(** ** Lines with several tokens *)

Lemma starts_without_app P s t :
  starts_without P s -> (s = "" -> starts_without P t) -> starts_without P (s +:+ t).
Proof. destruct s as [|a s]; [rewrite append_nil_l; auto|done]. Qed.

Lemma tokensWith_text_starts ts :
  starts_without chain_byte (tokensWith tokenText ts).
Proof. destruct ts as [|t ts]; done. Qed.

Lemma length_tokensWith_text ts :
  (length ts <= String.length (tokensWith tokenText ts))%nat.
Proof.
  induction ts as [|t ts IH]; [done|]. cbn [tokensWith length].
  unfold tokenText at 1. rewrite !length_append. cbn [String.length]. lia.
Qed.

Lemma all_matches_tokens line ts :
  Forall plain_token ts ->
  forall done pre q fuel prevEnd,
    line = done +:+ pre +:+ tokensWith tokenText ts ->
    all_bytes (not_byte "$") pre = true ->
    (length ts < fuel)%nat ->
    submatches lineRegex line <$>
      all_matches lineRegex fuel
        (Some (Cursor q (String.length done) (pre +:+ tokensWith tokenText ts))) prevEnd =
    (fun t => [tokenText t; tokenName t; ""; ""]) <$> ts.
Proof.
  induction 1 as [|t ts Ht _ IH]; intros done pre q fuel prevEnd Hline Hpre Hfuel.
  - destruct fuel as [|fuel]; [cbn in Hfuel; lia|]. cbn [all_matches tokensWith].
    unfold search. cbn [prev pos rest].
    by rewrite append_nil_r, search_lineRegex_without_dollar.
  - destruct fuel as [|fuel]; [cbn in Hfuel; lia|].
    destruct Ht as (Hn & Hname & Hs & Hsel & Htail & Htail' & _).
    destruct (tokenName t) as [|n name] eqn:En; [done|].
    destruct (tokenSelector t) as [|s sel] eqn:Es; [done|].
    cbn [all_matches tokensWith]. unfold search at 1. cbn [prev pos rest].
    rewrite search_lineRegex_skip by done. name_cursor q1.
    unfold search. cbn [prev pos rest]. rewrite search_from_unfold.
    assert (Htext : tokenText t = "${" +:+ String n name +:+ ":" +:+ String s sel +:+ "}")
      by (unfold tokenText; by rewrite En, Es).
    assert (Hrest : tokenText t +:+ tokenTail t +:+ tokensWith tokenText ts =
                    "${" +:+ String n name +:+ ":" +:+ String s sel +:+ "}"
                      +:+ (tokenTail t +:+ tokensWith tokenText ts)).
    { rewrite Htext. by rewrite !append_assoc. }
    rewrite Hrest.
    rewrite (match_at_lineRegex n name s sel _ Hname Hsel).
    2:{ apply starts_without_app; [done|]. intros _. apply tokensWith_text_starts. }
    cbn [pos].
    replace (_ =? String.length done)%nat with false
      by (symmetry; apply Nat.eqb_neq; lia).
    cbn [fmap list_fmap]. f_equal.
    + unfold submatches. change (NumSubexp lineRegex) with 3%nat.
      cbn [seq fmap list_fmap group_of Nat.eqb]. rewrite Htext, En.
      f_equal; [|f_equal].
      * apply (slice_at (done +:+ pre) _ (tokenTail t +:+ tokensWith tokenText ts)).
        -- rewrite Hline. cbn [tokensWith]. rewrite Htext. by rewrite !append_assoc.
        -- lengths.
        -- lengths.
      * apply (slice_at (done +:+ pre +:+ "${") _
                 (":" +:+ String s sel +:+ "}" +:+ tokenTail t +:+ tokensWith tokenText ts)).
        -- rewrite Hline. cbn [tokensWith]. rewrite Htext. by rewrite !append_assoc.
        -- lengths.
        -- lengths.
    + replace (String.length done + String.length pre + String.length name
               + String.length sel + 6)%nat
        with (String.length (done +:+ pre +:+ tokenText t)) by (rewrite Htext; lengths).
      apply IH.
      * rewrite Hline. cbn [tokensWith]. by rewrite !append_assoc.
      * done.
      * cbn [length] in Hfuel. lia.
Qed.

Section Lines.
Context {unicode : Strings.Unicode}.
Context {World : Type}.
Variable compileArgument : string -> option (string -> bool).
Variable Getenv : string -> string.
Variable clientGet : string -> string -> World -> result Secret * World.
Variable vault_Handler git_Handler : Handler World.

Lemma FindAll_tokens pre ts :
  all_bytes (not_byte "$") pre = true ->
  Forall plain_token ts ->
  FindAllStringSubmatch lineRegex (pre +:+ tokensWith tokenText ts) =
  (fun t => [tokenText t; tokenName t; ""; ""]) <$> ts.
Proof.
  intros Hpre Hts. unfold FindAllStringSubmatch, start_of.
  apply (all_matches_tokens _ ts Hts "" pre None); [done|done|].
  pose proof (length_tokensWith_text ts). rewrite length_append. lia.
Qed.

Lemma processMatches_tokens lineNumber ts :
  Forall plain_token ts ->
  forall pre newLine w w',
    all_bytes (not_byte "$") pre = true ->
    resolves Getenv clientGet vault_Handler git_Handler ts w w' ->
    processMatches compileArgument Getenv clientGet vault_Handler git_Handler lineNumber
      ((fun t => [tokenText t; tokenName t; ""; ""]) <$> ts)
      (pre +:+ tokensWith tokenText ts) newLine w =
    (Ret (match ts with
          | [] => newLine
          | _ => pre +:+ tokensWith tokenValue ts
          end), w').
Proof.
  induction 1 as [|t ts Ht Hts IH]; intros pre newLine w w' Hpre Hres.
  - cbn in Hres. by subst w'.
  - destruct Hres as (secret & w1 & handler & w2 & Hget & Hsel & Hcall & Hres).
    destruct Ht as (_ & _ & _ & _ & _ & Htail & Hval).
    cbn [fmap list_fmap processMatches tokensWith].
    rewrite (bind_Ret _ _ _ _ _
               (processMatch_plain compileArgument Getenv clientGet vault_Handler git_Handler
                  lineNumber _ _ _ _ _ _ _ _ _ Hget Hsel Hcall)).
    assert (Hrep : Strings.Replace
                     (pre +:+ tokenText t +:+ tokenTail t +:+ tokensWith tokenText ts)
                     (tokenText t) (tokenValue t) 1 =
                   (pre +:+ tokenValue t +:+ tokenTail t) +:+ tokensWith tokenText ts).
    { change (tokenText t)
        with (String "$" ("{" +:+ tokenName t +:+ ":" +:+ tokenSelector t +:+ "}")).
      rewrite (Replace_first "$" _ pre _ (tokenValue t) Hpre). by rewrite !append_assoc. }
    rewrite Hrep, (IH _ _ _ w').
    + f_equal. destruct ts; cbn [tokensWith]; by rewrite ?append_nil_r, ?append_assoc.
    + by rewrite !all_bytes_app, Hpre, Hval, Htail.
    + done.
Qed.

(** Every token of a line is replaced by its value, a repeated token as
    well: for a line made of a text without [$] and of tokens
    [${name:selector}] that are read as they stand, each followed by a text
    without [$] that starts neither with white space nor with [|], and for
    values without [$], [processLine] returns the line with each token
    replaced by its value.  The tokens are resolved from left to right:
    for each of them the secret is fetched once in the namespace of the
    operator and its handler is called once with the text of the token. *)
Theorem every_token_is_replaced pre ts lineNumber (w w' : World) :
  ts <> [] ->
  all_bytes (not_byte "$") pre = true ->
  Forall plain_token ts ->
  resolves Getenv clientGet vault_Handler git_Handler ts w w' ->
  processLine compileArgument Getenv clientGet vault_Handler git_Handler
    (pre +:+ tokensWith tokenText ts) lineNumber w =
  (Ret (pre +:+ tokensWith tokenValue ts), w').
Proof.
  intros Hne Hpre Hts Hres. unfold utils.processLine.
  rewrite (FindAll_tokens pre ts Hpre Hts).
  rewrite (processMatches_tokens lineNumber ts Hts pre "" w w' Hpre Hres).
  by destruct ts.
Qed.
End Lines.

(** ** Manifests with tokens *)

Lemma raw_lines_line l rest :
  all_bytes (not_byte LF) l = true ->
  Bufio.raw_lines (l +:+ newline +:+ rest) = l :: Bufio.raw_lines rest.
Proof.
  induction l as [|a l IH]; intros Hl.
  - cbn. done.
  - cbn [all_bytes] in Hl. apply andb_prop in Hl as [Ha Hl].
    unfold not_byte in Ha. apply negb_true_iff in Ha.
    rewrite append_cons. cbn [Bufio.raw_lines]. by rewrite Ha, IH.
Qed.

Lemma raw_lines_concat_lines lines :
  Forall (fun l => all_bytes (not_byte LF) l = true) lines ->
  Bufio.raw_lines (concat_strings ((fun l => l +:+ newline) <$> lines)) = lines.
Proof.
  induction 1 as [|l ls Hl _ IH]; [done|].
  cbn [fmap list_fmap concat_strings].
  rewrite append_assoc, raw_lines_line by done. by rewrite IH.
Qed.

Lemma raw_lines_textWith f ls :
  Forall (fun l => all_bytes (not_byte LF) (lineWith f l) = true) ls ->
  Bufio.raw_lines (textWith f ls) = lineWith f <$> ls.
Proof.
  induction 1 as [|l ls Hl _ IH]; [done|].
  unfold textWith in *. cbn [fmap list_fmap concat_strings].
  rewrite append_assoc, raw_lines_line by done. by rewrite IH.
Qed.

Lemma all_bytes_tokensWith_value ts :
  Forall plain_token ts -> all_bytes (not_byte "$") (tokensWith tokenValue ts) = true.
Proof.
  induction 1 as [|t ts (_ & _ & _ & _ & _ & Htail & Hval) _ IH]; [done|].
  cbn [tokensWith]. by rewrite !all_bytes_app, Hval, Htail, IH.
Qed.

Lemma foundLine_tokens pre t ts :
  all_bytes (not_byte "$") pre = true ->
  Forall plain_token (t :: ts) ->
  foundLine (pre +:+ tokensWith tokenText (t :: ts)) = true.
Proof.
  intros Hpre Hts. unfold foundLine, MatchString, search, start_of. cbn [prev pos rest].
  rewrite search_lineRegex_skip by done. name_cursor q. unfold search. cbn [prev pos rest].
  rewrite search_from_unfold.
  inversion Hts as [|? ? (Hn & Hname & Hs & Hsel & Htail & _) _]; subst.
  destruct (tokenName t) as [|n name] eqn:En; [done|].
  destruct (tokenSelector t) as [|s sel] eqn:Es; [done|].
  cbn [tokensWith]. unfold tokenText at 1. rewrite En, Es.
  replace (("${" +:+ String n name +:+ ":" +:+ String s sel +:+ "}") +:+
           tokenTail t +:+ tokensWith tokenText ts)
    with ("${" +:+ String n name +:+ ":" +:+ String s sel +:+ "}" +:+
          (tokenTail t +:+ tokensWith tokenText ts)) by (by rewrite !append_assoc).
  rewrite (match_at_lineRegex n name s sel _ Hname Hsel); [done|].
  apply starts_without_app; [done|]. intros _. apply tokensWith_text_starts.
Qed.

Section Manifests.
Context {unicode : Strings.Unicode}.
Context {World : Type}.
Variable compileArgument : string -> option (string -> bool).
Variable Getenv : string -> string.
Variable clientGet : string -> string -> World -> result Secret * World.
Variable vault_Handler git_Handler : Handler World.

Lemma processScannedLine_tokens l lineNumber (w w' : World) :
  plain_line l ->
  resolves Getenv clientGet vault_Handler git_Handler (lineTokens l) w w' ->
  processScannedLine compileArgument Getenv clientGet vault_Handler git_Handler
    (lineWith tokenText l) lineNumber w =
  (Ret (lineWith tokenValue l), w').
Proof.
  intros (_ & _ & _ & Hl) Hres.
  destruct l as [pre [|t ts]|text]; cbn [lineWith lineTokens] in *.
  - destruct Hl as (Hpre & _). cbn in Hres. subst w'. cbn [tokensWith].
    rewrite append_nil_r. apply processScannedLine_plain. by apply foundLine_without_dollar.
  - destruct Hl as (Hpre & Hts & Hcomment). unfold utils.processScannedLine.
    rewrite Hcomment by done. rewrite foundLine_tokens by done.
    unfold utils.processLine. rewrite (FindAll_tokens _ _ Hpre Hts).
    rewrite (bind_Ret _ _ _ _ _
               (processMatches_tokens compileArgument Getenv clientGet vault_Handler
                  git_Handler lineNumber _ Hts _ "" w w' Hpre Hres)).
    rewrite foundLine_without_dollar; [done|].
    by rewrite all_bytes_app, Hpre, all_bytes_tokensWith_value.
  - cbn in Hres. subst w'. unfold utils.processScannedLine. by rewrite Hl.
Qed.

Lemma scanLoop_tokens ls :
  Forall plain_line ls ->
  forall lineNumber output (w w' : World),
    resolvesLines Getenv clientGet vault_Handler git_Handler ls w w' ->
    scanLoop compileArgument Getenv clientGet vault_Handler git_Handler
      (lineWith tokenText <$> ls) lineNumber output w =
    (Ret (output +:+ textWith tokenValue ls), w').
Proof.
  induction 1 as [|l ls Hl _ IH]; intros lineNumber output w w' Hres.
  - cbn in Hres. subst w'. cbn. by rewrite append_nil_r.
  - destruct Hres as (w1 & Hres & Hrest). cbn [fmap list_fmap].
    rewrite scanLoop_cons.
    rewrite (bind_Ret _ _ _ _ _ (processScannedLine_tokens l (lineNumber + 1) w w1 Hl Hres)).
    rewrite (IH _ _ _ _ Hrest). unfold textWith. cbn [fmap list_fmap concat_strings].
    by rewrite !append_assoc.
Qed.

(** Every token of a manifest is replaced by its value: for a manifest
    made of lines that are read as they stand, each ended by a line feed,
    [ProcessManifest] succeeds and the processed manifest is the manifest
    with each token outside a comment replaced by its value; the tokens
    are resolved line after line and, on a line, from left to right. *)
Theorem every_token_of_the_manifest_is_replaced ls k8s (w w' : World) :
  RawManifest k8s = textWith tokenText ls ->
  Forall plain_line ls ->
  resolvesLines Getenv clientGet vault_Handler git_Handler ls w w' ->
  ProcessManifest compileArgument Getenv clientGet vault_Handler git_Handler k8s w =
  (({| RawManifest := RawManifest k8s; ProcessedManifest := textWith tokenValue ls |},
    Ret ()), w').
Proof.
  intros Hraw Hls Hres. unfold utils.ProcessManifest, Bufio.Scan. rewrite Hraw.
  rewrite raw_lines_textWith.
  2:{ eapply Forall_impl; [exact Hls|]. by intros l (H & _). }
  rewrite scan_tokens_within_limit.
  2:{ apply Forall_fmap. eapply Forall_impl; [exact Hls|]. by intros l (_ & _ & H & _). }
  replace (Bufio.dropCR <$> (lineWith tokenText <$> ls)) with (lineWith tokenText <$> ls).
  2:{ clear Hres Hraw. induction Hls as [|l ls (_ & Hcr & _) _ IH]; [done|].
      cbn [fmap list_fmap]. by rewrite dropCR_without_CR, <- IH. }
  by rewrite (scanLoop_tokens ls Hls 0 "" w w' Hres), append_nil_l.
Qed.
End Manifests.

(** ** Lines that the scanner refuses *)

Lemma scan_tokens_too_long max lines :
  Exists (fun l => max <= len l) lines ->
  (Bufio.scan_tokens max lines).2 = Some Bufio.ErrTooLong.
Proof.
  induction lines as [|l ls IH]; intros H; [by apply Exists_nil in H|].
  cbn [Bufio.scan_tokens]. destruct (Z.leb_spec max (len l)) as [Hlong|Hshort]; [done|].
  apply Exists_cons in H as [H|H]; [lia|].
  specialize (IH H). by destruct (Bufio.scan_tokens max ls).
Qed.

Section TooLong.
Context {unicode : Strings.Unicode}.
Context {World : Type}.
Variable compileArgument : string -> option (string -> bool).
Variable Getenv : string -> string.
Variable clientGet : string -> string -> World -> result Secret * World.
Variable vault_Handler git_Handler : Handler World.

(** A manifest with a line of 65536 bytes or more is never processed:
    whatever its other lines hold and whatever the secrets answer,
    [ProcessManifest] does not return nil and leaves its receiver as it
    was; when the lines before the long one are processed without error,
    the error is that of the scanner. *)
Theorem a_line_too_long_fails_the_manifest k8s (w : World) :
  Exists (fun l => Bufio.MaxScanTokenSize <= len l) (Bufio.raw_lines (RawManifest k8s)) ->
  let run := ProcessManifest compileArgument Getenv clientGet vault_Handler git_Handler k8s w in
  run.1.1 = k8s /\
  run.1.2 <> Ret () /\
  (forall output w',
     scanLoop compileArgument Getenv clientGet vault_Handler git_Handler
       (Bufio.Scan (RawManifest k8s)).1 0 "" w = (Ret output, w') ->
     run = ((k8s, Fail (ErrScanner Bufio.ErrTooLong)), w')).
Proof.
  intros Hlong run. subst run. unfold utils.ProcessManifest, Bufio.Scan.
  apply scan_tokens_too_long in Hlong.
  destruct (Bufio.scan_tokens _ _) as [lines scanErr]. cbn [snd fst] in *. subst scanErr.
  destruct (scanLoop _ _ _ _ _ _ _ _ _) as [[output|e|p] w1]; cbn [fst snd].
  - repeat split; [done|]. intros ? ? [= <- <-]. done.
  - repeat split; done.
  - repeat split; done.
Qed.
End TooLong.

(** ** The second pass *)

Lemma foundLine_single_token pre n name s sel post :
  all_bytes (not_byte "$") pre = true ->
  all_bytes plain_byte (String n name) = true ->
  all_bytes selector_byte (String s sel) = true ->
  starts_without chain_byte post ->
  foundLine (pre +:+ ("${" +:+ String n name +:+ ":" +:+ String s sel +:+ "}") +:+ post) = true.
Proof.
  intros Hpre Hname Hsel Hpost.
  replace (pre +:+ ("${" +:+ String n name +:+ ":" +:+ String s sel +:+ "}") +:+ post)
    with (pre +:+ "${" +:+ String n name +:+ ":" +:+ String s sel +:+ "}" +:+ post)
    by (by rewrite !append_assoc).
  unfold foundLine, MatchString, search, start_of. cbn [prev pos rest].
  rewrite search_lineRegex_skip by done. name_cursor q. unfold search. cbn [prev pos rest].
  rewrite search_from_unfold.
  by rewrite (match_at_lineRegex n name s sel post Hname Hsel Hpost).
Qed.

Section Hops.
Context {unicode : Strings.Unicode}.
Context {World : Type}.
Variable compileArgument : string -> option (string -> bool).
Variable Getenv : string -> string.
Variable clientGet : string -> string -> World -> result Secret * World.
Variable vault_Handler git_Handler : Handler World.

(** A line with one token whose value is a token again: the value is
    resolved once more, and what the second resolution returns reaches the
    output as it is, whatever it is. *)
Lemma token_value_is_resolved_once
    pre post n1 name1 s1 sel1 n2 name2 s2 sel2 lineNumber
    (w w1 w2 w3 w4 : World) secret1 handler1 secret2 handler2 val :
  let token1 := "${" +:+ String n1 name1 +:+ ":" +:+ String s1 sel1 +:+ "}" in
  let token2 := "${" +:+ String n2 name2 +:+ ":" +:+ String s2 sel2 +:+ "}" in
  all_bytes (not_byte "$") pre = true ->
  all_bytes (not_byte "$") post = true ->
  starts_without chain_byte post ->
  all_bytes plain_byte (String n1 name1) = true ->
  all_bytes selector_byte (String s1 sel1) = true ->
  all_bytes plain_byte (String n2 name2) = true ->
  all_bytes selector_byte (String s2 sel2) = true ->
  isCommentedLine (pre +:+ token1 +:+ post) = false ->
  clientGet (Getenv "NAMESPACE") (String n1 name1) w = (Ok secret1, w1) ->
  selectHandler vault_Handler git_Handler (String n1 name1) secret1 w1 = (Ret handler1, w1) ->
  GetValueFromRegex handler1 token1 secret1 w1 = (Ok token2, w2) ->
  clientGet (Getenv "NAMESPACE") (String n2 name2) w2 = (Ok secret2, w3) ->
  selectHandler vault_Handler git_Handler (String n2 name2) secret2 w3 = (Ret handler2, w3) ->
  GetValueFromRegex handler2 token2 secret2 w3 = (Ok val, w4) ->
  processScannedLine compileArgument Getenv clientGet vault_Handler git_Handler
    (pre +:+ token1 +:+ post) lineNumber w =
  (Ret (pre +:+ val +:+ post), w4).
Proof.
  intros token1 token2 Hpre Hpost Hpost' Hname1 Hsel1 Hname2 Hsel2 Hcomment
    Hget1 Hselect1 Hcall1 Hget2 Hselect2 Hcall2.
  subst token1 token2.
  unfold utils.processScannedLine. rewrite Hcomment.
  rewrite foundLine_single_token by done.
  rewrite (bind_Ret _ _ _ _ _
             (token_is_replaced_by_its_value compileArgument Getenv clientGet vault_Handler
                git_Handler pre n1 name1 s1 sel1 post lineNumber w secret1 w1 handler1
                _ w2 Hpre Hname1 Hsel1 Hpost' Hpost Hget1 Hselect1 Hcall1)).
  rewrite foundLine_single_token by done.
  rewrite (bind_Ret _ _ _ _ _
             (token_is_replaced_by_its_value compileArgument Getenv clientGet vault_Handler
                git_Handler pre n2 name2 s2 sel2 post lineNumber w2 secret2 w3 handler2
                val w4 Hpre Hname2 Hsel2 Hpost' Hpost Hget2 Hselect2 Hcall2)).
  reflexivity.
Qed.

End Hops.

(** ** The errors of a line *)

Section Errors.
Context {unicode : Strings.Unicode}.
Context {World : Type}.
Variable compileArgument : string -> option (string -> bool).
Variable Getenv : string -> string.
Variable clientGet : string -> string -> World -> result Secret * World.
Variable vault_Handler git_Handler : Handler World.

Abbreviation failure := (failure compileArgument Getenv clientGet vault_Handler git_Handler).
Abbreviation processMatch :=
  (processMatch compileArgument Getenv clientGet vault_Handler git_Handler).
Abbreviation processMatches :=
  (processMatches compileArgument Getenv clientGet vault_Handler git_Handler).
Abbreviation processScannedLine :=
  (processScannedLine compileArgument Getenv clientGet vault_Handler git_Handler).
Abbreviation scanLoop :=
  (scanLoop compileArgument Getenv clientGet vault_Handler git_Handler).
Abbreviation ProcessManifest :=
  (ProcessManifest compileArgument Getenv clientGet vault_Handler git_Handler).

Lemma selectHandler_world nameSecret secret (w : World) o w' :
  selectHandler vault_Handler git_Handler nameSecret secret w = (o, w') -> w' = w.
Proof.
  unfold selectHandler, utils.fail, utils.ret.
  destruct (Annotations secret) as [ann|]; [|by intros [= _ <-]].
  destruct (ann !! annotationConfigType) as [t|]; [|by intros [= _ <-]].
  destruct (String.eqb _ vaultHandler); [by intros [= _ <-]|].
  destruct (String.eqb _ gitHandler); by intros [= _ <-].
Qed.

(** Each cause gives its error. *)
Lemma failure_fails n line m (w : World) c w' :
  failure m w c w' ->
  processMatch n line m w = (Fail (error_of_cause (nth 1 m "") n c), w').
Proof.
  intros H. unfold utils.processMatch.
  destruct H as [msg w' Hget|secret w' Hget Hann|secret ann w' Hget Hann Hty
                 |secret ann t w' Hget Hann Hty Hv Hg
                 |secret w1 handler msg w' Hget Hsel Hcall
                 |secret w1 handler val w' Hget Hsel Hcall Hlen Hno
                 |secret w1 handler val val' w' Hget Hsel Hcall Hdata Hlen Hno].
  - apply bind_Fail. unfold getKubernetesSecret. by rewrite Hget.
  - rewrite (bind_Ret _ _ w secret w'); [|unfold getKubernetesSecret; by rewrite Hget].
    apply bind_Fail. unfold selectHandler. by rewrite Hann.
  - rewrite (bind_Ret _ _ w secret w'); [|unfold getKubernetesSecret; by rewrite Hget].
    apply bind_Fail. unfold selectHandler. by rewrite Hann, Hty.
  - rewrite (bind_Ret _ _ w secret w'); [|unfold getKubernetesSecret; by rewrite Hget].
    apply bind_Fail. unfold selectHandler. rewrite Hann, Hty.
    apply String.eqb_neq in Hv, Hg. by rewrite Hv, Hg.
  - rewrite (bind_Ret _ _ w secret w1); [|unfold getKubernetesSecret; by rewrite Hget].
    rewrite (bind_Ret _ _ _ _ _ Hsel).
    apply bind_Fail. unfold callHandler. by rewrite Hcall.
  - rewrite (bind_Ret _ _ w secret w1); [|unfold getKubernetesSecret; by rewrite Hget].
    rewrite (bind_Ret _ _ _ _ _ Hsel).
    rewrite (bind_Ret _ _ w1 val w'); [|unfold callHandler; by rewrite Hcall].
    replace (0 <? len (nth 2 m "")) with true by (symmetry; by apply Z.ltb_lt).
    apply bind_Fail. unfold utils.checkedModifiers. by rewrite Hno.
  - rewrite (bind_Ret _ _ w secret w1); [|unfold getKubernetesSecret; by rewrite Hget].
    rewrite (bind_Ret _ _ _ _ _ Hsel).
    rewrite (bind_Ret _ _ w1 val w'); [|unfold callHandler; by rewrite Hcall].
    rewrite (bind_Ret _ _ w' val' w').
    2:{ destruct (0 <? len (nth 2 m "")).
        - destruct Hdata as [Hex Hrun]. unfold utils.checkedModifiers, utils.lift.
          by rewrite Hex, Hrun.
        - by subst val'. }
    replace (0 <? len (nth 3 m "")) with true by (symmetry; by apply Z.ltb_lt).
    apply bind_Fail. unfold utils.checkedModifiers. by rewrite Hno.
Qed.

(** Each error has its cause. *)
Lemma processMatch_failure n line m (w : World) e w' :
  processMatch n line m w = (Fail e, w') ->
  exists c, failure m w c w' /\ e = error_of_cause (nth 1 m "") n c.
Proof.
  unfold utils.processMatch. intros H.
  apply bind_Fail_inv in H as [H|(secret & w1 & Hget & H)].
  { unfold getKubernetesSecret in H.
    destruct (clientGet _ _ w) as [[s|msg] w0] eqn:Hget; [done|].
    injection H as <- <-. exists (FetchFailed msg). split; [by constructor|done]. }
  assert (Hget' : clientGet (Getenv "NAMESPACE") (nth 1 m "") w = (Ok secret, w1)).
  { unfold getKubernetesSecret in Hget.
    destruct (clientGet _ _ w) as [[s|msg] w0]; [|done]. by injection Hget as -> ->. }
  clear Hget.
  apply bind_Fail_inv in H as [H|(handler & w2 & Hsel & H)].
  { pose proof (selectHandler_world _ _ _ _ _ H) as ->. unfold selectHandler in H.
    destruct (Annotations secret) as [ann|] eqn:Hann.
    2:{ injection H as <-. exists AnnotationsMissing. split; [|done].
        by eapply annotations_missing. }
    destruct (ann !! annotationConfigType) as [t|] eqn:Hty.
    2:{ injection H as <-. exists TypeAnnotationMissing. split; [|done].
        by eapply type_annotation_missing. }
    destruct (String.eqb _ vaultHandler) eqn:Hv; [done|].
    destruct (String.eqb _ gitHandler) eqn:Hg; [done|].
    injection H as <-. exists TypeUnknown. split; [|done].
    apply String.eqb_neq in Hv, Hg. by eapply type_unknown. }
  pose proof (selectHandler_world _ _ _ _ _ Hsel) as ->.
  apply bind_Fail_inv in H as [H|(val & w3 & Hcall & H)].
  { unfold callHandler in H.
    destruct (GetValueFromRegex handler _ secret w1) as [[v|msg] w0] eqn:Hcall; [done|].
    injection H as <- <-. exists (HandlerFailed msg). split; [|done].
    by eapply handler_failed. }
  assert (Hcall' : GetValueFromRegex handler (nth 0 m "") secret w1 = (Ok val, w3)).
  { unfold callHandler in Hcall.
    destruct (GetValueFromRegex handler _ secret w1) as [[v|msg] w0]; [|done].
    by injection Hcall as -> ->. }
  clear Hcall.
  apply bind_Fail_inv in H as [H|(val' & w4 & Hdata & H)].
  { destruct (Z.ltb_spec 0 (len (nth 2 m ""))) as [Hlen|_]; [|done].
    unfold utils.checkedModifiers in H.
    destruct (modifierExists (nth 2 m "")) eqn:Hex; cbn [negb] in H.
    - unfold utils.lift in H. injection H as H _. by apply processModifiers_not_Fail in H.
    - unfold utils.fail in H. injection H as <- <-.
      exists (ModifierUnknown (nth 2 m "")). split; [|done].
      by eapply data_modifier_unknown. }
  assert (Hdata' : w4 = w3 /\
            if 0 <? len (nth 2 m "")
            then modifierExists (nth 2 m "") = true /\
                 processModifiers compileArgument val (nth 2 m "") = Ret val'
            else val' = val).
  { destruct (0 <? len (nth 2 m "")).
    - unfold utils.checkedModifiers in Hdata.
      destruct (modifierExists (nth 2 m "")); cbn [negb] in Hdata; [|done].
      unfold utils.lift in Hdata. by injection Hdata as -> ->.
    - unfold utils.ret in Hdata. by injection Hdata as -> ->. }
  destruct Hdata' as [-> Hdata']. clear Hdata.
  destruct (Z.ltb_spec 0 (len (nth 3 m ""))) as [Hlen|_]; [|done].
  apply bind_Fail_inv in H as [H|(val'' & w5 & _ & H)]; [|done].
  unfold utils.checkedModifiers in H.
  destruct (modifierExists (nth 3 m "")) eqn:Hex; cbn [negb] in H.
  - unfold utils.lift in H. injection H as H _. by apply processModifiers_not_Fail in H.
  - unfold utils.fail in H. injection H as <- <-.
    exists (ModifierUnknown (nth 3 m "")). split; [|done].
    by eapply line_modifier_unknown.
Qed.

Lemma processMatches_failure n res :
  forall line newLine (w : World) e w',
    processMatches n res line newLine w = (Fail e, w') ->
    exists m w3 c, In m res /\ failure m w3 c w' /\ e = error_of_cause (nth 1 m "") n c.
Proof.
  induction res as [|m res IH]; intros line newLine w e w' H; [done|].
  cbn [utils.processMatches] in H. apply bind_Fail_inv in H as [H|(l & w1 & _ & H)].
  - apply processMatch_failure in H as (c & Hc & ->). exists m, w, c. by repeat split; [left|..].
  - apply IH in H as (m' & w3 & c & Hin & Hc & ->). exists m', w3, c. by repeat split; [right|..].
Qed.

Lemma processScannedLine_failure line n (w : World) e w' :
  processScannedLine line n w = (Fail e, w') ->
  exists text m w3 c,
    In m (FindAllStringSubmatch lineRegex text) /\
    failure m w3 c w' /\ e = error_of_cause (nth 1 m "") n c.
Proof.
  unfold utils.processScannedLine, utils.processLine.
  destruct (isCommentedLine line); [done|].
  destruct (foundLine line); [|done].
  intros H. apply bind_Fail_inv in H as [H|(l & w1 & _ & H)].
  { apply processMatches_failure in H as (m & w3 & c & H). by exists line, m, w3, c. }
  destruct (foundLine l); [|done].
  apply bind_Fail_inv in H as [H|(l2 & w2 & _ & H)]; [|done].
  apply processMatches_failure in H as (m & w3 & c & H). by exists l, m, w3, c.
Qed.

End Errors.

(** ** [select] searches *)

Lemma search_from_offsets r s :
  forall p i,
    bool_decide (is_Some (search_from r p i s)) =
    existsb (fun k => bool_decide
                        (is_Some (match_at r (cursor_after (take_bytes k s) p i (drop_bytes k s)))))
      (seq 0 (S (String.length s))).
Proof.
  induction s as [|a s IH]; intros p i.
  - rewrite search_from_unfold. cbn. rewrite orb_false_r.
    by destruct (match_at r (Cursor p i "")).
  - rewrite search_from_unfold. cbn [String.length].
    change (seq 0 (S (S (String.length s)))) with (0%nat :: seq 1 (S (String.length s))).
    rewrite <- seq_shift. cbn [existsb take_bytes drop_bytes cursor_after].
    destruct (match_at r (Cursor p i (String a s))) as [x|]; [done|].
    rewrite IH. cbn [orb]. generalize (seq 0 (S (String.length s))). intros l.
    induction l as [|k l IHl]; [done|]. cbn [map existsb take_bytes drop_bytes cursor_after].
    by rewrite IHl.
Qed.

Lemma MatchString_contains_match r s : MatchString r s = contains_match r s.
Proof.
  unfold MatchString, contains_match, search, start_of, cursor_at. cbn [prev pos rest].
  rewrite <- search_from_offsets. by destruct (search_from r None 0 s).
Qed.

(** C7, as amended.  For a modifier whose argument is a pattern that
    compiles, [select] splits the value at the commas and returns, trimmed,
    the first element whose trimmed text contains a match of the pattern:
    the pattern matches at some offset of the text, it need not match from
    the first byte to the last.  If no element contains a match, [select]
    returns the value as it is. *)
Theorem C7_select_returns_first_element_with_a_match
    (compileArgument : string -> option (string -> bool)) dat modifier pattern r :
  first_argument regexSelectModifier modifier = Ret pattern ->
  compileArgument pattern = Some (MatchString r) ->
  selectData compileArgument dat modifier =
  Ret (match List.find (fun e => contains_match r (Strings.TrimSpace e))
               (Strings.Split dat ",") with
       | Some e => Strings.TrimSpace e
       | None => dat
       end).
Proof.
  intros Harg Hre. unfold selectData. rewrite Harg, Hre.
  rewrite selectData_loop_find. f_equal.
  induction (Strings.Split dat ",") as [|e l IH]; [done|]. cbn [List.find].
  rewrite MatchString_contains_match. by destruct (contains_match r _); [|rewrite IH].
Qed.

(** ** Runs of the further properties *)

Ltac split_value :=
  match goal with
  | |- context [Strings.Split ?s ?sep] =>
      let l := eval vm_compute in (Strings.Split s sep) in
      change (Strings.Split s sep) with l
  end.

Lemma dict_first_binding_witness : selectDictData "a=1, b=2, b=3" "dict(b)" = Ret "2".
Proof.
  apply (dict_returns_the_first_binding "a=1, b=2, b=3" "dict(b)" "b" ["a=1"] " b=2" [" b=3"] "2").
  - vm_compute. reflexivity.
  - vm_compute. reflexivity.
  - constructor; [|constructor]. exists "a", "1". split; [vm_compute; reflexivity|done].
  - vm_compute. reflexivity.
Defined.

Lemma dict_without_the_key_witness : selectDictData "a=1, b=2" "dict(c)" = Ret "a=1, b=2".
Proof.
  apply (dict_without_the_key "a=1, b=2" "dict(c)" "c").
  - vm_compute. reflexivity.
  - split_value. constructor; [|constructor; [|constructor]].
    + exists "a", "1". split; [vm_compute; reflexivity|done].
    + exists "b", "2". split; [vm_compute; reflexivity|done].
Defined.

Lemma dict_panics_witness : selectDictData "a=1, b" "dict(b)" = Panic (IndexOutOfRange 1 1).
Proof.
  apply (dict_panics_at_an_element_without_separator "a=1, b" "dict(b)" "b" ["a=1"] " b" []).
  - vm_compute. reflexivity.
  - vm_compute. reflexivity.
  - constructor; [|constructor]. exists "a", "1". split; [vm_compute; reflexivity|done].
  - vm_compute. reflexivity.
Defined.

Lemma argument_witness :
  first_argument regexSelectModifier "select(^one$)" = Ret "^one$" /\
  first_argument regexDictModifier "dict(^one$)" = Ret "^one$" /\
  first_argument regexDefaultModifier "default(^one$)" = Ret "^one$".
Proof. apply (argument_is_the_text_in_parentheses "^" "one$"). vm_compute. reflexivity. Defined.

Lemma vault_token_witness :
  vault.pathAndKey "${vault-01:test/data/sync-ldap@bindPassword}" =
  runtime.Returns ("test/data/sync-ldap", "bindPassword").
Proof.
  apply (pathAndKey_of_plain_token "v" "ault-01" "t" "est/data/sync-ldap" "b" "indPassword");
    vm_compute; reflexivity.
Defined.

Lemma git_token_witness : git.gitKey "${git-01:LDAP_URL}" = runtime.Returns "LDAP_URL".
Proof. apply (gitKey_of_plain_token "g" "it-01" "L" "DAP_URL"); vm_compute; reflexivity. Defined.

(** The example of the source: a url with a token in the middle. *)
Lemma token_witness :
  Demo.processLine "url: ldaps://${git-01:LDAP_URL}:636" 4 [] =
  (Ret "url: ldaps://ldap.example.org:636",
   ["get operators/git-01"; "git ${git-01:LDAP_URL}"]).
Proof.
  eapply eq_trans.
  - eapply (token_is_replaced_by_its_value Demo.compileArgument Demo.Getenv Demo.clientGet
              Demo.vault_Handler Demo.git_Handler
              "url: ldaps://" "g" "it-01" "L" "DAP_URL" ":636" 4 []);
      vm_compute; reflexivity.
  - vm_compute. reflexivity.
Defined.

(** A shell variable in a manifest is no token. *)
Lemma manifest_unchanged_witness :
  Demo.ProcessManifest
    {| RawManifest := "kind: ConfigMap" +:+ newline +:+ "home: $HOME" +:+ newline;
       ProcessedManifest := "" |} [] =
  (({| RawManifest := "kind: ConfigMap" +:+ newline +:+ "home: $HOME" +:+ newline;
       ProcessedManifest := "kind: ConfigMap" +:+ newline +:+ "home: $HOME" +:+ newline |},
    Ret ()), []).
Proof.
  apply (manifest_without_tokens_is_unchanged Demo.compileArgument Demo.Getenv Demo.clientGet
           Demo.vault_Handler Demo.git_Handler
           {| RawManifest := "kind: ConfigMap" +:+ newline +:+ "home: $HOME" +:+ newline;
              ProcessedManifest := "" |} []).
  - vm_compute. reflexivity.
  - vm_compute. reflexivity.
  - repeat constructor.
Defined.

(** A client that refuses every namespace but that of the operator serves
    the processor as well as one that answers for all. *)
Lemma namespace_witness :
  Demo.ProcessManifest (Demo.manifest ["a: b"; "y: ${git-01:LDAP_URL}"]) [] =
  utils.ProcessManifest (unicode := Demo.unicode) Demo.compileArgument Demo.Getenv (Demo.clientGetIn "operators")
    Demo.vault_Handler Demo.git_Handler
    (Demo.manifest ["a: b"; "y: ${git-01:LDAP_URL}"]) [].
Proof.
  apply (secrets_are_read_in_the_namespace_of_the_operator Demo.compileArgument
           Demo.Getenv Demo.Getenv Demo.clientGet (Demo.clientGetIn "operators")
           Demo.vault_Handler Demo.git_Handler).
  - reflexivity.
  - intros name w. reflexivity.
Defined.

Lemma dataPath_witness :
  (exists s0 rest, Strings.Split "secret/data/app/ldap" "/" = s0 :: "data" :: rest) /\
  vault.dataPath "secret/data/app/ldap" = runtime.Returns "secret/data/app/ldap".
Proof. apply (dataPath_puts_data_second "secret/app/ldap"). vm_compute. reflexivity. Defined.


(** ** Runs of the handlers and of the reconciler *)

(** With or without quotes in the source's examples; here without. *)
Lemma default_witness :
  processModifiers Demo.compileArgument "s3cret" "| default(foo)" = Ret "foo".
Proof.
  apply (default_puts_its_argument Demo.compileArgument "s3cret" "f" "oo");
    vm_compute; reflexivity.
Defined.

(** A token without [@] is refused before the server is read. *)
Lemma vault_check_witness :
  exists msg,
    Demo.vault_GetValueFromRegex "${vault-01:bindPassword}" Demo.vaultSecret [] =
    (runtime.Returns ("", Some msg), []).
Proof.
  apply (vault_secret_is_checked_first Demo.NewClient Demo.SetToken Demo.Read).
  left. vm_compute. reflexivity.
Defined.

(** The path of the token has no [data] segment: it is read with one. *)
Lemma vault_handler_witness :
  Demo.vault_GetValueFromRegex "${vault-01:test/sync-ldap@bindPassword}" Demo.vaultSecret [] =
  (runtime.Returns ("s3cret", None), ["read test/data/sync-ldap as s.token"]).
Proof.
  eapply eq_trans.
  - eapply (vault_handler_returns_the_value Demo.NewClient Demo.SetToken Demo.Read
              "v" "ault-01" "t" "est/sync-ldap" "b" "indPassword" Demo.vaultSecret);
      vm_compute; reflexivity.
  - vm_compute. reflexivity.
Defined.

Lemma git_handler_witness :
  Demo.git_GetValueFromRegex "${git-01:LDAP_URL}" Demo.gitSecret [] =
  (runtime.Returns ("ldap.example.org", None),
   ["clone /tmp/config"; "from https://example.org/team/config.git refs/heads/main"]).
Proof.
  eapply eq_trans.
  - eapply (git_handler_reads_the_key_of_a_fresh_clone
              (float := Z) pretty (fun _ _ => Err "not a yaml file")
              (fun _ => Err "not a yaml file") Demo.Load Demo.KeyString
              (fun _ _ _ => Err "no keys") Demo.IsNotExist (fun dir _ => Ok dir)
              (fun r => Ok r) Demo.Pull Demo.PlainClone
              "g" "it-01" "L" "DAP_URL" Demo.gitSecret);
      vm_compute; reflexivity.
  - vm_compute. reflexivity.
Defined.

(** The manifest of the instance names a secret without annotations: the
    reconciler stops after the secret was fetched. *)
Lemma reconcile_failure_witness :
  Demo.Reconcile "team-a" "broken" [] =
  (controllers.Result (Some (controllers.ErrProcess (ErrNoAnnotations "bare"))),
   ["get instance team-a/broken"; "get operators/bare"]).
Proof.
  eapply (nothing_is_applied_when_processing_fails Demo.compileArgument Demo.Getenv
            Demo.clientGet Demo.vault_Handler Demo.git_Handler Demo.Decode (fun _ => None)
            Demo.dynamicGet Demo.dynamicCreate Demo.dynamicUpdate Demo.instanceGet
            "team-a" "broken");
    try (vm_compute; reflexivity).
  vm_compute. discriminate.
Defined.

Lemma reconcile_plain_witness :
  Demo.Reconcile "team-a" "plain" [] =
  (controllers.Result None,
   ["get instance team-a/plain"; "get configmaps team-a/demo"; "create configmaps team-a/demo"]).
Proof.
  eapply eq_trans.
  - eapply (plain_manifest_is_created Demo.compileArgument Demo.Getenv
              Demo.clientGet Demo.vault_Handler Demo.git_Handler Demo.Decode (fun _ => None)
              Demo.dynamicGet Demo.dynamicCreate Demo.dynamicUpdate Demo.instanceGet
              "team-a" "plain");
      try (vm_compute; reflexivity).
    + vm_compute. discriminate.
    + repeat constructor.
  - vm_compute. reflexivity.
Defined.

(** ** Runs of the lines and manifests with tokens *)

Ltac resolve_tokens :=
  repeat (cbn [resolves resolvesLines lineTokens];
          first [ reflexivity
                | eexists
                | split; [vm_compute; reflexivity|] ]).

Ltac plain_tokens :=
  repeat first [ apply List.Forall_nil
               | apply List.Forall_cons;
                 [repeat split; vm_compute; first [reflexivity | exact I | discriminate]|] ].

Ltac plain_lines :=
  repeat first [ apply List.Forall_nil
               | apply List.Forall_cons;
                 [repeat split;
                  first [ vm_compute; reflexivity | intros _; vm_compute; reflexivity
                        | plain_tokens | done ]|] ].

(** The example of the source with two tokens, the second one twice. *)
Lemma every_token_witness :
  Demo.processLine
    "url: ldaps://${git-01:LDAP_URL}:636/${git-01:LDAP_FILTER}?${git-01:LDAP_FILTER}" 4 [] =
  (Ret "url: ldaps://ldap.example.org:636/ou=people?ou=people",
   ["get operators/git-01"; "git ${git-01:LDAP_URL}";
    "get operators/git-01"; "git ${git-01:LDAP_FILTER}";
    "get operators/git-01"; "git ${git-01:LDAP_FILTER}"]).
Proof.
  eapply eq_trans.
  - eapply (every_token_is_replaced Demo.compileArgument Demo.Getenv Demo.clientGet
              Demo.vault_Handler Demo.git_Handler "url: ldaps://"
              [Token "git-01" "LDAP_URL" "ldap.example.org" ":636/";
               Token "git-01" "LDAP_FILTER" "ou=people" "?";
               Token "git-01" "LDAP_FILTER" "ou=people" ""] 4 []).
    + done.
    + vm_compute. reflexivity.
    + plain_tokens.
    + resolve_tokens.
  - vm_compute. reflexivity.
Defined.

Lemma manifest_witness :
  Demo.ProcessManifest
    (Demo.manifest ["kind: ConfigMap"; "# ${git-01:LDAP_URL}";
                    "url: ${git-01:LDAP_URL}/${git-01:LDAP_FILTER}"]) [] =
  (({| RawManifest :=
         RawManifest (Demo.manifest ["kind: ConfigMap"; "# ${git-01:LDAP_URL}";
                                     "url: ${git-01:LDAP_URL}/${git-01:LDAP_FILTER}"]);
       ProcessedManifest :=
         RawManifest (Demo.manifest ["kind: ConfigMap"; "# ${git-01:LDAP_URL}";
                                     "url: ldap.example.org/ou=people"]) |},
    Ret ()),
   ["get operators/git-01"; "git ${git-01:LDAP_URL}";
    "get operators/git-01"; "git ${git-01:LDAP_FILTER}"]).
Proof.
  eapply eq_trans.
  - eapply (every_token_of_the_manifest_is_replaced Demo.compileArgument Demo.Getenv
              Demo.clientGet Demo.vault_Handler Demo.git_Handler
              [Line "kind: ConfigMap" []; Comment "# ${git-01:LDAP_URL}";
               Line "url: " [Token "git-01" "LDAP_URL" "ldap.example.org" "/";
                             Token "git-01" "LDAP_FILTER" "ou=people" ""]]
              (Demo.manifest ["kind: ConfigMap"; "# ${git-01:LDAP_URL}";
                              "url: ${git-01:LDAP_URL}/${git-01:LDAP_FILTER}"]) []).
    + vm_compute. reflexivity.
    + plain_lines.
    + resolve_tokens.
  - vm_compute. reflexivity.
Defined.

Lemma too_long_witness :
  (Demo.ProcessManifest (Demo.manifest ["a: b"; Demo.long_line; "c: ${bare:k}"]) []).1.1 =
  Demo.manifest ["a: b"; Demo.long_line; "c: ${bare:k}"] /\
  (Demo.ProcessManifest (Demo.manifest ["a: b"; Demo.long_line; "c: ${bare:k}"]) []).1.2 <> Ret () /\
  (forall output w',
     scanLoop (unicode := Demo.unicode) Demo.compileArgument Demo.Getenv Demo.clientGet Demo.vault_Handler
       Demo.git_Handler
       (Bufio.Scan (RawManifest (Demo.manifest ["a: b"; Demo.long_line; "c: ${bare:k}"]))).1
       0 "" [] = (Ret output, w') ->
     Demo.ProcessManifest (Demo.manifest ["a: b"; Demo.long_line; "c: ${bare:k}"]) [] =
     ((Demo.manifest ["a: b"; Demo.long_line; "c: ${bare:k}"],
       Fail (ErrScanner Bufio.ErrTooLong)), w')).
Proof.
  apply (a_line_too_long_fails_the_manifest Demo.compileArgument Demo.Getenv Demo.clientGet
           Demo.vault_Handler Demo.git_Handler
           (Demo.manifest ["a: b"; Demo.long_line; "c: ${bare:k}"]) []).
  assert (Hsize : 0 <= Bufio.MaxScanTokenSize) by (unfold Bufio.MaxScanTokenSize; lia).
  unfold Demo.manifest. cbn [RawManifest]. rewrite raw_lines_concat_lines.
  - right. left. unfold len, Demo.long_line. rewrite length_Repeat_byte. lia.
  - constructor; [done|]. constructor; [by apply all_bytes_Repeat_byte|].
    constructor; [done|constructor].
Defined.

(** ** Runs of the second pass, of a failing line and of [select] *)



(** The pattern [b] is found inside the second element. *)
Lemma C7_witness :
  selectData Demo.compileArgument "ldap-a, ldap-b,ldap-c" "select(b)" = Ret "ldap-b".
Proof.
  eapply eq_trans.
  - eapply (C7_select_returns_first_element_with_a_match Demo.compileArgument _ _ "b"
              (MustCompile "b")); vm_compute; reflexivity.
  - vm_compute. reflexivity.
Defined.

(** Two lines are indented by two blanks; a negative count makes
    [strings.Repeat] panic. *)
Lemma indent_witness :
  indent ("x" +:+ newline +:+ "  y") 2 = Ret ("  x" +:+ newline +:+ "  y") /\
  indent "x" (-1) = Panic (RepeatPanic Strings.NegativeRepeatCount).
Proof.
  split.
  - eapply eq_trans.
    + apply (indent_reindents_every_line ("x" +:+ newline +:+ "  y") 2).
      unfold Strings.maxInt. lia.
    + vm_compute. reflexivity.
  - eapply eq_trans.
    + apply (indent_reindents_every_line "x" (-1)). unfold Strings.maxInt. lia.
    + vm_compute. reflexivity.
Defined.
